(** * cppStream: a shallow embedding of [cppStream.hpp] and its properties

    The header defines a family of struct templates that all offer the same
    three members, [front()], [next()] and [endless()], and a family of
    builders that are applied to a stream with [operator>>].  Every struct is
    embedded as a record, the implicit "stream" concept as a type class, and
    the member functions as functions that take the object and return the
    updated object together with the result. *)

From Stdlib Require Import ZArith List Bool Lia Arith Permutation Sorted.
Import ListNotations.

Set Implicit Arguments.
Local Open Scope Z_scope.

(** ** Partial results

    [while] loops of the header need not terminate ([iota(0) >> filter(...)]),
    so every function that contains one takes a budget of iterations.  The
    result [None] means that no defined result was reached: the budget ran out,
    or the code hit undefined behaviour (an empty [std::optional] dereferenced,
    [front()] outside its window). *)

Definition bind {A B : Type} (m : option A) (k : A -> option B) : option B :=
  match m with
  | Some a => k a
  | None => None
  end.

Notation "x <- m ;; k" := (bind m (fun x => k))
  (at level 61, m at next level, right associativity).
Notation "' p <- m ;; k" := (bind m (fun x => let p := x in k))
  (at level 61, p pattern, m at next level, right associativity).

(** [returns f a]: the computation [f] reaches the result [a] as soon as the
    budget is large enough. *)
Definition returns {A : Type} (f : nat -> option A) (a : A) : Prop :=
  exists k : nat, forall fuel : nat, (k <= fuel)%nat -> f fuel = Some a.

(** ** [size_t]

    An unsigned integer of [size_bits] bits, as a [Z] in [0, 2^size_bits);
    arithmetic wraps around. *)

Class size_width := size_bits : positive.

Definition size_max {w : size_width} : Z := 2 ^ Z.pos size_bits - 1.

Definition size_wrap {w : size_width} (z : Z) : Z := z mod 2 ^ Z.pos size_bits.

(** [size_t] of 64 bits, for the examples. *)
Definition size_t_64 : size_width := 64%positive.

(** ** Exceptions *)

Inductive exception : Type :=
| endless_stream_exception
| bad_optional_access.

Inductive outcome (R : Type) : Type :=
| Returned (r : R)
| Thrown (e : exception).

Arguments Returned {R} r.
Arguments Thrown {R} e.

(** ** The stream concept

    [next fuel s] is the result of [s.next()] and the stream after the call.
    [front s] is the result of [s.front()], [None] where the call has no
    defined result; the [front()] of every stream embedded here leaves the
    stream as it is.  [endless s] is [s.endless()]. *)

Class Stream (St T : Type) := {
  front : St -> option T;
  next : nat -> St -> option (bool * St);
  endless : St -> bool
}.

(** [front()] is declared [decltype(auto)]: where it returns an lvalue, a
    caller can change the element in place ([stream.front().next()]).
    [put_front v s] is the stream after [v] was written through the reference
    that [front()] returned. *)
Class FrontRef (St T : Type) := put_front : T -> St -> St.

(** [throw_if_endless] *)
Definition throw_if_endless {St T : Type} `{Stream St T} (stream : St) : outcome unit :=
  if endless stream then Thrown endless_stream_exception else Returned tt.

(** ** Sources *)

(** [EmptyStream<T>] *)
Record EmptyStream (T : Type) : Type := Build_EmptyStream {}.

#[export] Instance EmptyStream_Stream (T : Type) : Stream (EmptyStream T) T := {|
  front := fun _ => None;
  next := fun _ s => Some (false, s);
  endless := fun _ => false
|}.

Definition empty_stream (T : Type) : EmptyStream T := Build_EmptyStream T.

(** [IteratorStream<First, Last>].  An iterator is a position in the range it
    walks; the range is kept with the stream, so that a write through
    [*current] is seen by later reads. *)
Record IteratorStream (T : Type) : Type := Build_IteratorStream {
  it_range : list T;
  it_current : nat;
  it_upcoming : nat;
  it_last : nat;
  it_unchecked : bool
}.

Fixpoint list_update {A : Type} (l : list A) (i : nat) (v : A) : list A :=
  match l, i with
  | [], _ => []
  | _ :: l', O => v :: l'
  | x :: l', S i' => x :: list_update l' i' v
  end.

Section IteratorStream.
Context {T : Type}.

Definition IteratorStream_front (s : IteratorStream T) : option T :=
  nth_error (it_range s) (it_current s).

Definition IteratorStream_next (s : IteratorStream T) : bool * IteratorStream T :=
  if Nat.eqb (it_upcoming s) (it_last s) then (false, s)
  else (true, {| it_range := it_range s;
                 it_current := it_upcoming s;
                 it_upcoming := S (it_upcoming s);
                 it_last := it_last s;
                 it_unchecked := it_unchecked s |}).

Definition IteratorStream_endless (s : IteratorStream T) : bool := it_unchecked s.

#[export] Instance IteratorStream_Stream : Stream (IteratorStream T) T := {|
  front := IteratorStream_front;
  next := fun _ s => Some (IteratorStream_next s);
  endless := IteratorStream_endless
|}.

#[export] Instance IteratorStream_FrontRef : FrontRef (IteratorStream T) T :=
  fun v s => {| it_range := list_update (it_range s) (it_current s) v;
                it_current := it_current s;
                it_upcoming := it_upcoming s;
                it_last := it_last s;
                it_unchecked := it_unchecked s |}.

(** [from_iterator(first, last)] over the range [range] *)
Definition from_iterator (range : list T) (first last : nat) : IteratorStream T :=
  {| it_range := range; it_current := first; it_upcoming := first;
     it_last := last; it_unchecked := false |}.

(** [from(container)] *)
Definition from (container : list T) : IteratorStream T :=
  from_iterator container 0 (length container).
End IteratorStream.

(** [IntegerStream<IntType>], at an integer type without overflow. *)
Record IntegerStream : Type := Build_IntegerStream {
  int_current : Z;
  int_step : Z
}.

#[export] Instance IntegerStream_Stream : Stream IntegerStream Z := {|
  front := fun s => Some (int_current s);
  next := fun _ s => Some (true, {| int_current := int_current s + int_step s;
                                    int_step := int_step s |});
  endless := fun _ => true
|}.

(** [iota(first, step)] *)
Definition iota (first step : Z) : IntegerStream :=
  {| int_current := first - step; int_step := step |}.

(** ** Unary combinators *)

(** [MapStream<Stream, Pred>].  [pred] may return a [std::optional]; a plain
    result is an optional that is always engaged. *)
Record MapStream (St T R : Type) : Type := Build_MapStream {
  map_stream : St;
  map_pred : T -> option R;
  map_cache_value : option R
}.

Section MapStream.
Context {St T R : Type} `{Stream St T}.

Definition MapStream_new (stream : St) (pred : T -> option R) : MapStream St T R :=
  {| map_stream := stream; map_pred := pred; map_cache_value := None |}.

Definition MapStream_front (s : MapStream St T R) : option R := map_cache_value s.

(** [while(stream.next()) if(cache_value = pred(stream.front())) return true;
    return false;] *)
Fixpoint MapStream_loop (budget k : nat) (s : MapStream St T R)
  : option (bool * MapStream St T R) :=
  match k with
  | O => None
  | S k' =>
      '(b, st) <- next budget (map_stream s) ;;
      if b then
        x <- front st ;;
        let s' := {| map_stream := st; map_pred := map_pred s;
                     map_cache_value := map_pred s x |} in
        match map_pred s x with
        | Some _ => Some (true, s')
        | None => MapStream_loop budget k' s'
        end
      else Some (false, {| map_stream := st; map_pred := map_pred s;
                           map_cache_value := map_cache_value s |})
  end.

Definition MapStream_next (fuel : nat) (s : MapStream St T R) :=
  MapStream_loop fuel fuel s.

Definition MapStream_endless (s : MapStream St T R) : bool := endless (map_stream s).

#[export] Instance MapStream_Stream : Stream (MapStream St T R) R := {|
  front := MapStream_front;
  next := MapStream_next;
  endless := MapStream_endless
|}.

#[export] Instance MapStream_FrontRef : FrontRef (MapStream St T R) R :=
  fun v s => {| map_stream := map_stream s; map_pred := map_pred s;
                map_cache_value := match map_cache_value s with
                                   | Some _ => Some v
                                   | None => None
                                   end |}.
End MapStream.

(** [TakeStream<Stream>] *)
Record TakeStream (St : Type) : Type := Build_TakeStream {
  take_stream : St;
  take_count : Z
}.

Section TakeStream.
Context {St T : Type} `{Stream St T} {w : size_width}.

(** [TakeStream(Stream stream, size_t count) : stream(stream), count(count + 1)] *)
Definition TakeStream_new (stream : St) (count : Z) : TakeStream St :=
  {| take_stream := stream; take_count := size_wrap (count + 1) |}.

Definition TakeStream_front (s : TakeStream St) : option T := front (take_stream s).

(** [return count && --count != 0 && stream.next();] *)
Definition TakeStream_next (fuel : nat) (s : TakeStream St)
  : option (bool * TakeStream St) :=
  if take_count s =? 0 then Some (false, s)
  else
    let c := size_wrap (take_count s - 1) in
    if c =? 0 then Some (false, {| take_stream := take_stream s; take_count := c |})
    else
      '(b, st) <- next fuel (take_stream s) ;;
      Some (b, {| take_stream := st; take_count := c |}).

Definition TakeStream_endless (s : TakeStream St) : bool := false.

#[export] Instance TakeStream_Stream : Stream (TakeStream St) T := {|
  front := TakeStream_front;
  next := TakeStream_next;
  endless := TakeStream_endless
|}.

(** [take(count)] applied to [stream] *)
Definition take (count : Z) (stream : St) : TakeStream St := TakeStream_new stream count.
End TakeStream.

(** [SkipStream<Stream>] *)
Record SkipStream (St : Type) : Type := Build_SkipStream {
  skip_stream : St;
  skip_count : Z
}.

Section SkipStream.
Context {St T : Type} `{Stream St T} {w : size_width}.

Definition SkipStream_new (stream : St) (count : Z) : SkipStream St :=
  {| skip_stream := stream; skip_count := size_wrap (count + 1) |}.

Definition SkipStream_front (s : SkipStream St) : option T := front (skip_stream s).

(** [while(count && --count != 0 && stream.next());] *)
Fixpoint SkipStream_loop (budget k : nat) (s : SkipStream St) : option (SkipStream St) :=
  match k with
  | O => None
  | S k' =>
      if skip_count s =? 0 then Some s
      else
        let c := size_wrap (skip_count s - 1) in
        if c =? 0 then Some {| skip_stream := skip_stream s; skip_count := c |}
        else
          '(b, st) <- next budget (skip_stream s) ;;
          let s' := {| skip_stream := st; skip_count := c |} in
          if b then SkipStream_loop budget k' s' else Some s'
  end.

(** [while(...); return stream.next();] *)
Definition SkipStream_next (fuel : nat) (s : SkipStream St)
  : option (bool * SkipStream St) :=
  s' <- SkipStream_loop fuel fuel s ;;
  '(b, st) <- next fuel (skip_stream s') ;;
  Some (b, {| skip_stream := st; skip_count := skip_count s' |}).

Definition SkipStream_endless (s : SkipStream St) : bool := endless (skip_stream s).

#[export] Instance SkipStream_Stream : Stream (SkipStream St) T := {|
  front := SkipStream_front;
  next := SkipStream_next;
  endless := SkipStream_endless
|}.

(** [skip(count)] applied to [stream] *)
Definition skip (count : Z) (stream : St) : SkipStream St := SkipStream_new stream count.
End SkipStream.

(** ** Buffering combinators *)

(** [std::stable_sort(first, last, comp)] of <algorithm>, which the header
    calls and does not define.  It is modelled by a sort that inserts every
    element before the first element of the sorted rest that is not less than
    it, which keeps equivalent elements in their order. *)
Fixpoint stable_insert {T : Type} (comp : T -> T -> bool) (x : T) (l : list T) : list T :=
  match l with
  | [] => [x]
  | y :: l' => if comp y x then y :: stable_insert comp x l' else x :: y :: l'
  end.

Definition stable_sort {T : Type} (comp : T -> T -> bool) (l : list T) : list T :=
  fold_right (stable_insert comp) [] l.

(** [SortStream<Stream, Compare>] *)
Record SortStream (St T : Type) : Type := Build_SortStream {
  sort_stream : St;
  sort_compare : T -> T -> bool;
  sort_sorted : list T;
  sort_current : Z
}.

Section SortStream.
Context {St T : Type} `{Stream St T} {w : size_width}.

Definition SortStream_new (stream : St) (compare : T -> T -> bool) : SortStream St T :=
  {| sort_stream := stream; sort_compare := compare; sort_sorted := []; sort_current := 0 |}.

(** [return sorted[current - 1];] *)
Definition SortStream_front (s : SortStream St T) : option T :=
  nth_error (sort_sorted s) (Z.to_nat (size_wrap (sort_current s - 1))).

(** [while(stream.next()) sorted.push_back(stream.front());] *)
Fixpoint SortStream_fill (budget k : nat) (stream : St) (sorted : list T)
  : option (list T * St) :=
  match k with
  | O => None
  | S k' =>
      '(b, s') <- next budget stream ;;
      if b then x <- front s' ;; SortStream_fill budget k' s' (sorted ++ [x])
      else Some (sorted, s')
  end.

(** [if(!current++) { fill; std::stable_sort(...); }
    return current - 1 < sorted.size();] *)
Definition SortStream_next (fuel : nat) (s : SortStream St T)
  : option (bool * SortStream St T) :=
  let current' := size_wrap (sort_current s + 1) in
  if sort_current s =? 0 then
    '(filled, st) <- SortStream_fill fuel fuel (sort_stream s) (sort_sorted s) ;;
    let sorted' := stable_sort (sort_compare s) filled in
    Some (size_wrap (current' - 1) <? Z.of_nat (length sorted'),
          {| sort_stream := st; sort_compare := sort_compare s;
             sort_sorted := sorted'; sort_current := current' |})
  else
    Some (size_wrap (current' - 1) <? Z.of_nat (length (sort_sorted s)),
          {| sort_stream := sort_stream s; sort_compare := sort_compare s;
             sort_sorted := sort_sorted s; sort_current := current' |}).

Definition SortStream_endless (s : SortStream St T) : bool := endless (sort_stream s).

#[export] Instance SortStream_Stream : Stream (SortStream St T) T := {|
  front := SortStream_front;
  next := SortStream_next;
  endless := SortStream_endless
|}.
End SortStream.

(** [FlatStream<Stream>]: [Inner] is the value type of [Stream], itself a
    stream of [T]. *)
Record FlatStream (St Inner : Type) : Type := Build_FlatStream {
  flat_stream : St;
  flat_streams : list Inner;
  flat_current : Z
}.

Section FlatStream.
Context {St Inner T : Type} `{Stream St Inner} `{Stream Inner T} {w : size_width}.

(** [while(stream.next()) streams.push_back(stream.front());] *)
Fixpoint FlatStream_fill (budget k : nat) (stream : St) (streams : list Inner)
  : option (list Inner * St) :=
  match k with
  | O => None
  | S k' =>
      '(b, s') <- next budget stream ;;
      if b then x <- front s' ;; FlatStream_fill budget k' s' (streams ++ [x])
      else Some (streams, s')
  end.

(** The constructor.  In its body [stream] names the parameter, so the
    parameter is drained and the member keeps the copy made before. *)
Definition FlatStream_new (fuel : nat) (stream : St) : option (FlatStream St Inner) :=
  '(streams, _) <- FlatStream_fill fuel fuel stream [] ;;
  Some {| flat_stream := stream; flat_streams := streams; flat_current := 0 |}.

(** [return streams[current].front();] *)
Definition FlatStream_front (s : FlatStream St Inner) : option T :=
  inner <- nth_error (flat_streams s) (Z.to_nat (flat_current s)) ;;
  front inner.

(** [return current != streams.size() &&
    (streams[current].next() || (++current && next()));] *)
Fixpoint FlatStream_next_loop (budget k : nat) (s : FlatStream St Inner)
  : option (bool * FlatStream St Inner) :=
  match k with
  | O => None
  | S k' =>
      if flat_current s =? Z.of_nat (length (flat_streams s)) then Some (false, s)
      else
        inner <- nth_error (flat_streams s) (Z.to_nat (flat_current s)) ;;
        '(b, inner') <- next budget inner ;;
        let streams' := list_update (flat_streams s) (Z.to_nat (flat_current s)) inner' in
        if b then
          Some (true, {| flat_stream := flat_stream s; flat_streams := streams';
                         flat_current := flat_current s |})
        else
          let current' := size_wrap (flat_current s + 1) in
          let s' := {| flat_stream := flat_stream s; flat_streams := streams';
                       flat_current := current' |} in
          if current' =? 0 then Some (false, s') else FlatStream_next_loop budget k' s'
  end.

Definition FlatStream_next (fuel : nat) (s : FlatStream St Inner) :=
  FlatStream_next_loop fuel fuel s.

(** [std::all_of(streams.begin(), streams.end(), ... stream.endless())] *)
Definition FlatStream_endless (s : FlatStream St Inner) : bool :=
  forallb endless (flat_streams s).

#[export] Instance FlatStream_Stream : Stream (FlatStream St Inner) T := {|
  front := FlatStream_front;
  next := FlatStream_next;
  endless := FlatStream_endless
|}.
End FlatStream.

(** ** Combinators over several streams *)

(** [EndlessFlatStream<Stream>] *)
Record EndlessFlatStream (St : Type) : Type := Build_EndlessFlatStream {
  eflat_stream : St;
  eflat_left : bool
}.

Section EndlessFlatStream.
Context {St Inner T : Type} `{Stream St Inner} `{FrontRef St Inner} `{Stream Inner T}.

Definition EndlessFlatStream_new (stream : St) : EndlessFlatStream St :=
  {| eflat_stream := stream; eflat_left := false |}.

(** [stream.front().front()] *)
Definition EndlessFlatStream_front (s : EndlessFlatStream St) : option T :=
  inner <- front (eflat_stream s) ;;
  front inner.

(** [stream.front().next()]: the inner stream is advanced where it lies. *)
Definition front_next (fuel : nat) (stream : St) : option (bool * St) :=
  inner <- front stream ;;
  '(b, inner') <- next fuel inner ;;
  Some (b, put_front inner' stream).

(** [return (left && stream.front().next()) ||
    ((left = (left = false, stream.next())) && stream.front().next());] *)
Definition EndlessFlatStream_next (fuel : nat) (s : EndlessFlatStream St)
  : option (bool * EndlessFlatStream St) :=
  '(b1, s1) <- (if eflat_left s then front_next fuel (eflat_stream s)
                else Some (false, eflat_stream s)) ;;
  if b1 then Some (true, {| eflat_stream := s1; eflat_left := eflat_left s |})
  else
    '(b2, s2) <- next fuel s1 ;;
    if b2 then
      '(b3, s3) <- front_next fuel s2 ;;
      Some (b3, {| eflat_stream := s3; eflat_left := true |})
    else Some (false, {| eflat_stream := s2; eflat_left := false |}).

Definition EndlessFlatStream_endless (s : EndlessFlatStream St) : bool := true.

#[export] Instance EndlessFlatStream_Stream : Stream (EndlessFlatStream St) T := {|
  front := EndlessFlatStream_front;
  next := EndlessFlatStream_next;
  endless := EndlessFlatStream_endless
|}.
End EndlessFlatStream.

(** [JoinStreamAB<StreamA, StreamB>] *)
Record JoinStreamAB (A B : Type) : Type := Build_JoinStreamAB {
  join_streamA : A;
  join_streamB : B;
  join_B : bool
}.

Section JoinStreamAB.
Context {A B T : Type} `{Stream A T} `{Stream B T}.

Definition JoinStreamAB_new (streamA : A) (streamB : B) : JoinStreamAB A B :=
  {| join_streamA := streamA; join_streamB := streamB; join_B := false |}.

(** [return B ? streamB.front() : streamA.front();] *)
Definition JoinStreamAB_front (j : JoinStreamAB A B) : option T :=
  if join_B j then front (join_streamB j) else front (join_streamA j).

(** [return streamA.next() || (B = true, streamB.next());] *)
Definition JoinStreamAB_next (fuel : nat) (j : JoinStreamAB A B)
  : option (bool * JoinStreamAB A B) :=
  '(a, sa) <- next fuel (join_streamA j) ;;
  if a then Some (true, {| join_streamA := sa; join_streamB := join_streamB j;
                           join_B := join_B j |})
  else
    '(b, sb) <- next fuel (join_streamB j) ;;
    Some (b, {| join_streamA := sa; join_streamB := sb; join_B := true |}).

(** [return streamA.endless() || streamB.endless();] *)
Definition JoinStreamAB_endless (j : JoinStreamAB A B) : bool :=
  endless (join_streamA j) || endless (join_streamB j).

#[export] Instance JoinStreamAB_Stream : Stream (JoinStreamAB A B) T := {|
  front := JoinStreamAB_front;
  next := JoinStreamAB_next;
  endless := JoinStreamAB_endless
|}.
End JoinStreamAB.

(** [JoinStreams<Streams...>], at value type [T]: [JoinStreams<A, B>] is
    [JoinStreamAB<A, B>], and [JoinStreams<A, Streams...>] is
    [JoinStreamAB<A, JoinStreams<Streams...>>]; both inherit the three
    members. *)
#[warnings="-register-all"]
Inductive JoinStreams (T : Type) : Type :=
| JoinStreams_two : forall A B : Type,
    Stream A T -> Stream B T -> JoinStreamAB A B -> JoinStreams T
| JoinStreams_more : forall A : Type,
    Stream A T -> JoinStreamAB A (JoinStreams T) -> JoinStreams T.

Section JoinStreams.
Context {T : Type}.

Fixpoint JoinStreams_front (j : JoinStreams T) : option T :=
  match j with
  | JoinStreams_two _ _ ab => JoinStreamAB_front ab
  | JoinStreams_more instA ab =>
      @JoinStreamAB_front _ _ T instA
        {| front := JoinStreams_front; next := JoinStreams_next;
           endless := JoinStreams_endless |} ab
  end
with JoinStreams_next (fuel : nat) (j : JoinStreams T) : option (bool * JoinStreams T) :=
  match j with
  | JoinStreams_two instA instB ab =>
      '(b, ab') <- JoinStreamAB_next fuel ab ;;
      Some (b, JoinStreams_two instA instB ab')
  | JoinStreams_more instA ab =>
      '(b, ab') <- @JoinStreamAB_next _ _ T instA
                     {| front := JoinStreams_front; next := JoinStreams_next;
                        endless := JoinStreams_endless |} fuel ab ;;
      Some (b, JoinStreams_more instA ab')
  end
with JoinStreams_endless (j : JoinStreams T) : bool :=
  match j with
  | JoinStreams_two _ _ ab => JoinStreamAB_endless ab
  | JoinStreams_more instA ab =>
      @JoinStreamAB_endless _ _ T instA
        {| front := JoinStreams_front; next := JoinStreams_next;
           endless := JoinStreams_endless |} ab
  end.

#[export] Instance JoinStreams_Stream : Stream (JoinStreams T) T := {|
  front := JoinStreams_front;
  next := JoinStreams_next;
  endless := JoinStreams_endless
|}.

(** The streams a join was built of, each with its [endless()]. *)
Fixpoint JoinStreams_constituents (j : JoinStreams T) : list bool :=
  match j with
  | JoinStreams_two _ _ ab => [endless (join_streamA ab); endless (join_streamB ab)]
  | JoinStreams_more _ ab =>
      endless (join_streamA ab) :: JoinStreams_constituents (join_streamB ab)
  end.
End JoinStreams.

(** [std::tuple<Streams...>], indexed by the value types of the streams. *)
Inductive StreamTuple : list Type -> Type :=
| tuple_nil : StreamTuple []
| tuple_cons : forall (St T : Type) (Ts : list Type),
    Stream St T -> St -> StreamTuple Ts -> StreamTuple (T :: Ts).

(** The arguments [streams.front()...] of one call of the combining function. *)
Fixpoint values (Ts : list Type) : Type :=
  match Ts with
  | [] => unit
  | T :: Ts' => (T * values Ts')%type
  end.

(** [(streams.next() && ...)]: a right fold, so a stream is advanced only when
    all streams before it advanced. *)
Fixpoint tuple_next (fuel : nat) {Ts : list Type} (streams : StreamTuple Ts)
  : option (bool * StreamTuple Ts) :=
  match streams with
  | tuple_nil => Some (true, tuple_nil)
  | tuple_cons inst s rest =>
      '(b, s') <- next fuel s ;;
      if b then
        '(b', rest') <- tuple_next fuel rest ;;
        Some (b', tuple_cons inst s' rest')
      else Some (false, tuple_cons inst s' rest)
  end.

(** [streams.front()...] *)
Fixpoint tuple_front {Ts : list Type} (streams : StreamTuple Ts) : option (values Ts) :=
  match streams in StreamTuple Ts return option (values Ts) with
  | tuple_nil => Some tt
  | tuple_cons _ s rest =>
      x <- front s ;;
      xs <- tuple_front rest ;;
      Some (x, xs)
  end.

(** [(streams.endless() && ...)] *)
Fixpoint tuple_endless {Ts : list Type} (streams : StreamTuple Ts) : bool :=
  match streams with
  | tuple_nil => true
  | tuple_cons _ s rest => endless s && tuple_endless rest
  end.

(** The [endless()] of each stream of the tuple. *)
Fixpoint tuple_constituents {Ts : list Type} (streams : StreamTuple Ts) : list bool :=
  match streams with
  | tuple_nil => []
  | tuple_cons _ s rest => endless s :: tuple_constituents rest
  end.

(** [CombineStreams<Pred, Streams...>].  [pred] may return a [std::optional],
    as in [MapStream]. *)
Record CombineStreams (Ts : list Type) (R : Type) : Type := Build_CombineStreams {
  combine_pred : values Ts -> option R;
  combine_cache : option R;
  combine_streams : StreamTuple Ts
}.

Section CombineStreams.
Context {Ts : list Type} {R : Type}.

Definition CombineStreams_new (pred : values Ts -> option R) (streams : StreamTuple Ts)
  : CombineStreams Ts R :=
  {| combine_pred := pred; combine_cache := None; combine_streams := streams |}.

(** [return *cache;] *)
Definition CombineStreams_front (c : CombineStreams Ts R) : option R := combine_cache c.

(** [return (streams.next() && ...) &&
    ((cache = std::invoke(pred, streams.front()...)), true);] *)
Definition CombineStreams_next (fuel : nat) (c : CombineStreams Ts R)
  : option (bool * CombineStreams Ts R) :=
  '(b, streams') <- tuple_next fuel (combine_streams c) ;;
  if b then
    xs <- tuple_front streams' ;;
    Some (true, {| combine_pred := combine_pred c; combine_cache := combine_pred c xs;
                   combine_streams := streams' |})
  else Some (false, {| combine_pred := combine_pred c; combine_cache := combine_cache c;
                       combine_streams := streams' |}).

Definition CombineStreams_endless (c : CombineStreams Ts R) : bool :=
  tuple_endless (combine_streams c).

#[export] Instance CombineStreams_Stream : Stream (CombineStreams Ts R) R := {|
  front := CombineStreams_front;
  next := CombineStreams_next;
  endless := CombineStreams_endless
|}.
End CombineStreams.

(** ** Further sources *)

(** [EndlessEmptyStream<T>]: [next()] is [while(true);], which reaches no
    result on any budget. *)
Record EndlessEmptyStream (T : Type) : Type := Build_EndlessEmptyStream {}.

#[export] Instance EndlessEmptyStream_Stream (T : Type) : Stream (EndlessEmptyStream T) T := {|
  front := fun _ => None;
  next := fun _ _ => None;
  endless := fun _ => true
|}.

Definition endless_empty_stream (T : Type) : EndlessEmptyStream T :=
  Build_EndlessEmptyStream T.

(** [EndlessIteratorStream<First>], over the range its iterator walks. *)
Record EndlessIteratorStream (T : Type) : Type := Build_EndlessIteratorStream {
  eit_range : list T;
  eit_current : nat;
  eit_upcoming : nat
}.

#[export] Instance EndlessIteratorStream_Stream (T : Type)
  : Stream (EndlessIteratorStream T) T := {|
  front := fun s => nth_error (eit_range s) (eit_current s);
  next := fun _ s => Some (true, {| eit_range := eit_range s;
                                    eit_current := eit_upcoming s;
                                    eit_upcoming := S (eit_upcoming s) |});
  endless := fun _ => true
|}.

(** [from_endless_iterator(first)] *)
Definition from_endless_iterator {T : Type} (range : list T) (first : nat)
  : EndlessIteratorStream T :=
  {| eit_range := range; eit_current := first; eit_upcoming := first |}.

(** [from_unchecked_iterator(first, last)] *)
Definition from_unchecked_iterator {T : Type} (range : list T) (first last : nat)
  : IteratorStream T :=
  {| it_range := range; it_current := first; it_upcoming := first;
     it_last := last; it_unchecked := true |}.

(** [from_unchecked(container)]: the body is
    [return from_iterator(std::begin(container), std::end(container));]. *)
Definition from_unchecked {T : Type} (container : list T) : IteratorStream T :=
  from_iterator container 0 (length container).

(** [GenerateStream<Getter>].  The getter is a callable object: [G] is what it
    holds (a [mutable] lambda changes it), [gen_call] its call operator, [None]
    where the call has no defined result. *)
Record GenerateStream (G T : Type) : Type := Build_GenerateStream {
  gen_getter : G;
  gen_call : G -> option (T * G);
  gen_cache : option T
}.

Section GenerateStream.
Context {G T : Type}.

Definition GenerateStream_new (getter : G) (call : G -> option (T * G))
  : GenerateStream G T :=
  {| gen_getter := getter; gen_call := call; gen_cache := None |}.

(** [return *cache;] *)
Definition GenerateStream_front (s : GenerateStream G T) : option T := gen_cache s.

(** [return cache = std::invoke(getter), true;] *)
Definition GenerateStream_next (s : GenerateStream G T)
  : option (bool * GenerateStream G T) :=
  '(v, g) <- gen_call s (gen_getter s) ;;
  Some (true, {| gen_getter := g; gen_call := gen_call s; gen_cache := Some v |}).

#[export] Instance GenerateStream_Stream : Stream (GenerateStream G T) T := {|
  front := GenerateStream_front;
  next := fun _ s => GenerateStream_next s;
  endless := fun _ => true
|}.
End GenerateStream.

(** [generate(getter)] for a getter that holds nothing. *)
Definition generate {T : Type} (getter : unit -> T) : GenerateStream unit T :=
  GenerateStream_new tt (fun g => Some (getter g, g)).

(** [iterate(init, pred)]: the getter is
    [[=, first = true] () mutable { return first ? first = false, init
    : init = pred(init); }]; it holds [first] and [init]. *)
Definition iterate_call {T : Type} (pred : T -> T) (g : bool * T)
  : option (T * (bool * T)) :=
  let '(first, init) := g in
  if first then Some (init, (false, init))
  else Some (pred init, (false, pred init)).

Definition iterate {T : Type} (init : T) (pred : T -> T) : GenerateStream (bool * T) T :=
  GenerateStream_new (true, init) (iterate_call pred).

(** ** Further unary combinators *)

(** [FilterStream<Stream, Pred>] *)
Record FilterStream (St T : Type) : Type := Build_FilterStream {
  filter_stream : St;
  filter_pred : T -> bool
}.

Section FilterStream.
Context {St T : Type} `{Stream St T}.

Definition FilterStream_new (stream : St) (pred : T -> bool) : FilterStream St T :=
  {| filter_stream := stream; filter_pred := pred |}.

Definition FilterStream_front (s : FilterStream St T) : option T :=
  front (filter_stream s).

(** [while(stream.next()) if(std::invoke(pred, stream.front())) return true;
    return false;] *)
Fixpoint FilterStream_loop (budget k : nat) (s : FilterStream St T)
  : option (bool * FilterStream St T) :=
  match k with
  | O => None
  | S k' =>
      '(b, st) <- next budget (filter_stream s) ;;
      let s' := {| filter_stream := st; filter_pred := filter_pred s |} in
      if b then
        x <- front st ;;
        if filter_pred s x then Some (true, s') else FilterStream_loop budget k' s'
      else Some (false, s')
  end.

Definition FilterStream_next (fuel : nat) (s : FilterStream St T) :=
  FilterStream_loop fuel fuel s.

Definition FilterStream_endless (s : FilterStream St T) : bool :=
  endless (filter_stream s).

#[export] Instance FilterStream_Stream : Stream (FilterStream St T) T := {|
  front := FilterStream_front;
  next := FilterStream_next;
  endless := FilterStream_endless
|}.
End FilterStream.

(** [TakeWhileStream<Stream, Pred>] *)
Record TakeWhileStream (St T : Type) : Type := Build_TakeWhileStream {
  tw_stream : St;
  tw_pred : T -> bool;
  tw_left : bool
}.

Section TakeWhileStream.
Context {St T : Type} `{Stream St T}.

Definition TakeWhileStream_new (stream : St) (pred : T -> bool) : TakeWhileStream St T :=
  {| tw_stream := stream; tw_pred := pred; tw_left := true |}.

Definition TakeWhileStream_front (s : TakeWhileStream St T) : option T :=
  front (tw_stream s).

(** [return left && (left = (stream.next() && std::invoke(pred, stream.front())));] *)
Definition TakeWhileStream_next (fuel : nat) (s : TakeWhileStream St T)
  : option (bool * TakeWhileStream St T) :=
  if tw_left s then
    '(b, st) <- next fuel (tw_stream s) ;;
    if b then
      x <- front st ;;
      Some (tw_pred s x, {| tw_stream := st; tw_pred := tw_pred s; tw_left := tw_pred s x |})
    else Some (false, {| tw_stream := st; tw_pred := tw_pred s; tw_left := false |})
  else Some (false, s).

Definition TakeWhileStream_endless (s : TakeWhileStream St T) : bool :=
  endless (tw_stream s).

#[export] Instance TakeWhileStream_Stream : Stream (TakeWhileStream St T) T := {|
  front := TakeWhileStream_front;
  next := TakeWhileStream_next;
  endless := TakeWhileStream_endless
|}.
End TakeWhileStream.

(** [SkipWhileStream<Stream, Pred>] *)
Record SkipWhileStream (St T : Type) : Type := Build_SkipWhileStream {
  sw_stream : St;
  sw_pred : T -> bool;
  sw_left : bool
}.

Section SkipWhileStream.
Context {St T : Type} `{Stream St T}.

Definition SkipWhileStream_new (stream : St) (pred : T -> bool) : SkipWhileStream St T :=
  {| sw_stream := stream; sw_pred := pred; sw_left := true |}.

Definition SkipWhileStream_front (s : SkipWhileStream St T) : option T :=
  front (sw_stream s).

(** [while(left) { if(!stream.next()) return left = false;
    if(!std::invoke(pred, stream.front())) return !(left = false); }
    return stream.next();] *)
Fixpoint SkipWhileStream_loop (budget k : nat) (s : SkipWhileStream St T)
  : option (bool * SkipWhileStream St T) :=
  match k with
  | O => None
  | S k' =>
      if sw_left s then
        '(b, st) <- next budget (sw_stream s) ;;
        if b then
          x <- front st ;;
          if sw_pred s x
          then SkipWhileStream_loop budget k'
                 {| sw_stream := st; sw_pred := sw_pred s; sw_left := true |}
          else Some (true, {| sw_stream := st; sw_pred := sw_pred s; sw_left := false |})
        else Some (false, {| sw_stream := st; sw_pred := sw_pred s; sw_left := false |})
      else
        '(b, st) <- next budget (sw_stream s) ;;
        Some (b, {| sw_stream := st; sw_pred := sw_pred s; sw_left := false |})
  end.

Definition SkipWhileStream_next (fuel : nat) (s : SkipWhileStream St T) :=
  SkipWhileStream_loop fuel fuel s.

Definition SkipWhileStream_endless (s : SkipWhileStream St T) : bool :=
  endless (sw_stream s).

#[export] Instance SkipWhileStream_Stream : Stream (SkipWhileStream St T) T := {|
  front := SkipWhileStream_front;
  next := SkipWhileStream_next;
  endless := SkipWhileStream_endless
|}.
End SkipWhileStream.

(** [iterate(init, pred0, pred)]: [iterate(init, pred) >> take_while(pred0)] *)
Definition iterate_while {T : Type} (init : T) (pred0 : T -> bool) (pred : T -> T)
  : TakeWhileStream (GenerateStream (bool * T) T) T :=
  TakeWhileStream_new (iterate init pred) pred0.




(** [singleton<T>(std::nullopt)] *)
Definition singleton_nullopt (T : Type) : EmptyStream T := empty_stream T.

(** [singleton(std::optional<T>&& opt)]:
    [generate([=]{ return *opt; }) >> take(opt.has_value())].  [*opt] has no
    defined result on an empty optional; [has_value()] converts to 0 or 1. *)
Definition singleton {w : size_width} {T : Type} (opt : option T)
  : TakeStream (GenerateStream unit T) :=
  take (match opt with Some _ => 1 | None => 0 end)
       (GenerateStream_new tt (fun g => match opt with
                                        | Some v => Some (v, g)
                                        | None => None
                                        end)).

(** [TailRepeatStream<Stream>], over a stream whose value type is no
    optional.  [front()] writes [cache] while [left] holds, so it returns the
    stream it leaves next to its result; [cache.value()] throws on an empty
    cache. *)
Record TailRepeatStream (St T : Type) : Type := Build_TailRepeatStream {
  tr_stream : St;
  tr_left : bool;
  tr_cache : option T
}.

Section TailRepeatStream.
Context {St T : Type} `{Stream St T}.




Definition TailRepeatStream_endless (s : TailRepeatStream St T) : bool := true.


End TailRepeatStream.

(** [IterableBuilder::Iterable<Stream>] and its [Iterator].  An iterator
    points to the stream held by the iterable, or nowhere (the iterator
    [end()]); the stream is kept next to the loop that walks it. *)
Record Iterator : Type := Build_Iterator {
  iter_at_stream : bool;
  iter_next : bool
}.

Section Iterable.
Context {St T : Type} `{Stream St T}.

(** [Iterator() : stream(nullptr), next(false)] *)
Definition Iterable_end : Iterator := {| iter_at_stream := false; iter_next := false |}.

(** [explicit Iterator(Stream* stream) : stream(stream), next(stream->next())] *)
Definition Iterable_begin (fuel : nat) (stream : St) : option (Iterator * St) :=
  '(b, s') <- next fuel stream ;;
  Some ({| iter_at_stream := true; iter_next := b |}, s').

(** [operator++()]: [next = stream->next();] *)
Definition Iterator_incr (fuel : nat) (it : Iterator) (stream : St)
  : option (Iterator * St) :=
  if iter_at_stream it then
    '(b, s') <- next fuel stream ;;
    Some ({| iter_at_stream := true; iter_next := b |}, s')
  else None.

(** [operator!=(left, right)]: [!(!left.next && right.stream == nullptr)] *)
Definition Iterator_neq (left right : Iterator) : bool :=
  negb (negb (iter_next left) && negb (iter_at_stream right)).

(** [operator*()]: [stream->front()] *)
Definition Iterator_deref (it : Iterator) (stream : St) : option T :=
  if iter_at_stream it then front stream else None.

(** The range-based [for] statement over an iterable, with the body acting
    on its environment [E]:
    [for(auto it = begin(), e = end(); it != e; ++it) { auto x = *it; body(x); }] *)
Fixpoint range_for_loop {E : Type} (body : T -> E -> E) (budget k : nat)
    (it : Iterator) (stream : St) (env : E) : option (E * St) :=
  match k with
  | O => None
  | S k' =>
      if Iterator_neq it Iterable_end then
        x <- Iterator_deref it stream ;;
        '(it', s') <- Iterator_incr budget it stream ;;
        range_for_loop body budget k' it' s' (body x env)
      else Some (env, stream)
  end.

Definition range_for {E : Type} (body : T -> E -> E) (fuel : nat) (stream : St) (env : E)
  : option (E * St) :=
  '(it, s') <- Iterable_begin fuel stream ;;
  range_for_loop body fuel fuel it s' env.
End Iterable.

(** [PeekStream<Stream, Peeker>].  The peeker acts on its environment [E], as
    the callback of [for_each]. *)
Record PeekStream (St T E : Type) : Type := Build_PeekStream {
  peek_stream : St;
  peek_peeker : T -> E -> E;
  peek_env : E
}.

Section PeekStream.
Context {St T E : Type} `{Stream St T}.

Definition PeekStream_new (stream : St) (peeker : T -> E -> E) (env : E) : PeekStream St T E :=
  {| peek_stream := stream; peek_peeker := peeker; peek_env := env |}.

Definition PeekStream_front (s : PeekStream St T E) : option T := front (peek_stream s).

(** [return stream.next() ? std::invoke(peeker, stream.front()), true : false;] *)
Definition PeekStream_next (fuel : nat) (s : PeekStream St T E)
  : option (bool * PeekStream St T E) :=
  '(b, st) <- next fuel (peek_stream s) ;;
  if b then
    x <- front st ;;
    Some (true, {| peek_stream := st; peek_peeker := peek_peeker s;
                   peek_env := peek_peeker s x (peek_env s) |})
  else Some (false, {| peek_stream := st; peek_peeker := peek_peeker s;
                       peek_env := peek_env s |}).

Definition PeekStream_endless (s : PeekStream St T E) : bool := endless (peek_stream s).

#[export] Instance PeekStream_Stream : Stream (PeekStream St T E) T := {|
  front := PeekStream_front;
  next := PeekStream_next;
  endless := PeekStream_endless
|}.
End PeekStream.

(** [MakeEndlessStream<Stream>] *)
Record MakeEndlessStream (St : Type) : Type := Build_MakeEndlessStream {
  me_stream : St
}.

Section MakeEndlessStream.
Context {St T : Type} `{Stream St T}.

Definition MakeEndlessStream_next (fuel : nat) (s : MakeEndlessStream St)
  : option (bool * MakeEndlessStream St) :=
  '(b, st) <- next fuel (me_stream s) ;;
  Some (b, {| me_stream := st |}).

#[export] Instance MakeEndlessStream_Stream : Stream (MakeEndlessStream St) T := {|
  front := fun s => front (me_stream s);
  next := MakeEndlessStream_next;
  endless := fun _ => true
|}.

(** [make_endless()] applied to [stream] *)
Definition make_endless (stream : St) : MakeEndlessStream St := {| me_stream := stream |}.
End MakeEndlessStream.

(** [LoopStream<Stream>] *)
Record LoopStream (St : Type) : Type := Build_LoopStream {
  loop_stream : St;
  loop_cache : St
}.

Section LoopStream.
Context {St T : Type} `{Stream St T}.


Definition LoopStream_front (s : LoopStream St) : option T := front (loop_stream s).

(** [while(!stream.next()) stream = cache; return true;] *)
Fixpoint LoopStream_loop (budget k : nat) (s : LoopStream St) : option (bool * LoopStream St) :=
  match k with
  | O => None
  | S k' =>
      '(b, st) <- next budget (loop_stream s) ;;
      if b then Some (true, {| loop_stream := st; loop_cache := loop_cache s |})
      else LoopStream_loop budget k'
             {| loop_stream := loop_cache s; loop_cache := loop_cache s |}
  end.

Definition LoopStream_next (fuel : nat) (s : LoopStream St) := LoopStream_loop fuel fuel s.

#[export] Instance LoopStream_Stream : Stream (LoopStream St) T := {|
  front := LoopStream_front;
  next := LoopStream_next;
  endless := fun _ => true
|}.
End LoopStream.

(** ** Further buffering combinators *)

(** [ReverseStream<Stream>] *)
Record ReverseStream (St T : Type) : Type := Build_ReverseStream {
  rev_stream : St;
  rev_reversed : list T;
  rev_current : Z
}.

Section ReverseStream.
Context {St T : Type} `{Stream St T} {w : size_width}.

Definition ReverseStream_new (stream : St) : ReverseStream St T :=
  {| rev_stream := stream; rev_reversed := []; rev_current := 0 |}.

(** [return reversed[current - 1];] *)
Definition ReverseStream_front (s : ReverseStream St T) : option T :=
  nth_error (rev_reversed s) (Z.to_nat (size_wrap (rev_current s - 1))).

(** [if(!current++) { while(stream.next()) reversed.push_back(stream.front());
    std::reverse(reversed.begin(), reversed.end()); }
    return current - 1 < reversed.size();] *)
Definition ReverseStream_next (fuel : nat) (s : ReverseStream St T)
  : option (bool * ReverseStream St T) :=
  let current' := size_wrap (rev_current s + 1) in
  if rev_current s =? 0 then
    '(filled, st) <- SortStream_fill fuel fuel (rev_stream s) (rev_reversed s) ;;
    let reversed' := rev filled in
    Some (size_wrap (current' - 1) <? Z.of_nat (length reversed'),
          {| rev_stream := st; rev_reversed := reversed'; rev_current := current' |})
  else
    Some (size_wrap (current' - 1) <? Z.of_nat (length (rev_reversed s)),
          {| rev_stream := rev_stream s; rev_reversed := rev_reversed s;
             rev_current := current' |}).

Definition ReverseStream_endless (s : ReverseStream St T) : bool := endless (rev_stream s).

#[export] Instance ReverseStream_Stream : Stream (ReverseStream St T) T := {|
  front := ReverseStream_front;
  next := ReverseStream_next;
  endless := ReverseStream_endless
|}.

(** [reverse()] applied to [stream]:
    [return throw_if_endless(stream), ReverseStream(stream);] *)
Definition reverse (stream : St) : outcome (ReverseStream St T) :=
  match throw_if_endless stream with
  | Thrown e => Thrown e
  | Returned _ => Returned (ReverseStream_new stream)
  end.

(** [sort(compare)] applied to [stream]: no check of [endless()]. *)
Definition sort (compare : T -> T -> bool) (stream : St) : SortStream St T :=
  SortStream_new stream compare.
End ReverseStream.

(** ** Terminal builders

    A builder's [build] takes the stream by value.  Its embedding returns, next
    to the outcome, the state in which the local copy was left, so that what
    the builder did to the stream can be observed. *)

(** [std::min(a, b, comp)] and [std::max(a, b, comp)] of <algorithm>: both
    return [a] when the two are equivalent. *)
Definition std_min {T : Type} (a b : T) (comp : T -> T -> bool) : T :=
  if comp b a then b else a.

Definition std_max {T : Type} (a b : T) (comp : T -> T -> bool) : T :=
  if comp a b then b else a.

Section Terminals.
Context {St T : Type} `{Stream St T}.

(** [ForEachBuilder<Pred>::build].  The callback acts on its environment
    [E] (what it captured by reference). *)
Section ForEach.
Context {E : Type} (pred : T -> E -> E).

Fixpoint ForEachBuilder_loop (budget k : nat) (stream : St) (env : E)
  : option (E * St) :=
  match k with
  | O => None
  | S k' =>
      '(b, s') <- next budget stream ;;
      if b then x <- front s' ;; ForEachBuilder_loop budget k' s' (pred x env)
      else Some (env, s')
  end.

Definition ForEachBuilder_build (fuel : nat) (stream : St) (env : E)
  : option (outcome unit * E * St) :=
  match throw_if_endless stream with
  | Thrown e => Some (Thrown e, env, stream)
  | Returned _ =>
      '(env', s') <- ForEachBuilder_loop fuel fuel stream env ;;
      Some (Returned tt, env', s')
  end.
End ForEach.

(** [collect(container, collector)]: [for_each] with the collector bound to
    the container, then the container. *)
Definition collect {C : Type} (container : C) (collector : C -> T -> C)
    (fuel : nat) (stream : St) : option (outcome C * St) :=
  '(o, c, s') <- ForEachBuilder_build (fun x c => collector c x) fuel stream container ;;
  match o with
  | Thrown e => Some (Thrown e, s')
  | Returned _ => Some (Returned c, s')
  end.

(** [std::optional<T> init = stream.next() ? std::optional(stream.front())
    : std::nullopt;], shared by reduce, min and max. *)
Definition first_or_nullopt (fuel : nat) (stream : St) : option (option T * St) :=
  '(b, s') <- next fuel stream ;;
  if b then x <- front s' ;; Some (Some x, s') else Some (None, s').

(** [while(stream.next()) init = step(init.value(), stream.front());
    return init;] *)
Fixpoint fold_loop (step : T -> T -> T) (budget k : nat) (stream : St) (init : option T)
  : option (outcome (option T) * St) :=
  match k with
  | O => None
  | S k' =>
      '(b, s') <- next budget stream ;;
      if b then
        x <- front s' ;;
        match init with
        | None => Some (Thrown bad_optional_access, s')
        | Some i => fold_loop step budget k' s' (Some (step i x))
        end
      else Some (Returned init, s')
  end.

Definition fold_build (step : T -> T -> T) (fuel : nat) (stream : St)
  : option (outcome (option T) * St) :=
  match throw_if_endless stream with
  | Thrown e => Some (Thrown e, stream)
  | Returned _ =>
      '(init, s') <- first_or_nullopt fuel stream ;;
      fold_loop step fuel fuel s' init
  end.

(** [ReduceBuilder<BiPred>::build]: [init = biPred(init.value(), front())] *)
Definition ReduceBuilder_build (biPred : T -> T -> T) := fold_build biPred.

(** [MinBuilder<Compare>::build]: [init = std::min(front(), init.value(), compare)] *)
Definition MinBuilder_build (compare : T -> T -> bool) :=
  fold_build (fun i x => std_min x i compare).

(** [MaxBuilder<Compare>::build]: [init = std::max(front(), init.value(), compare)] *)
Definition MaxBuilder_build (compare : T -> T -> bool) :=
  fold_build (fun i x => std_max x i compare).

(** [MinMaxBuilder<Compare>::build] *)
Fixpoint MinMaxBuilder_loop (compare : T -> T -> bool) (budget k : nat) (stream : St)
    (min max : T) : option (T * T * St) :=
  match k with
  | O => None
  | S k' =>
      '(b, s') <- next budget stream ;;
      if b then
        x <- front s' ;;
        MinMaxBuilder_loop compare budget k' s' (std_min x min compare) (std_max x max compare)
      else Some (min, max, s')
  end.

Definition MinMaxBuilder_build (compare : T -> T -> bool) (fuel : nat) (stream : St)
  : option (outcome (option (T * T)) * St) :=
  match throw_if_endless stream with
  | Thrown e => Some (Thrown e, stream)
  | Returned _ =>
      '(b, s') <- next fuel stream ;;
      if b then
        x <- front s' ;;
        '(mn, mx, s'') <- MinMaxBuilder_loop compare fuel fuel s' x x ;;
        Some (Returned (Some (mn, mx)), s'')
      else Some (Returned None, s')
  end.

(** [AllMatchBuilder<Pred>::build]: [while(stream.next())
    if(!pred(stream.front())) return false; return true;] *)
Fixpoint AllMatchBuilder_loop (pred : T -> bool) (budget k : nat) (stream : St)
  : option (bool * St) :=
  match k with
  | O => None
  | S k' =>
      '(b, s') <- next budget stream ;;
      if b then
        x <- front s' ;;
        if negb (pred x) then Some (false, s') else AllMatchBuilder_loop pred budget k' s'
      else Some (true, s')
  end.

Definition AllMatchBuilder_build (pred : T -> bool) (fuel : nat) (stream : St)
  : option (outcome bool * St) :=
  match throw_if_endless stream with
  | Thrown e => Some (Thrown e, stream)
  | Returned _ =>
      '(r, s') <- AllMatchBuilder_loop pred fuel fuel stream ;;
      Some (Returned r, s')
  end.

(** [AnyMatchBuilder<Pred>::build]: [while(stream.next())
    if(pred(stream.front())) return true; return false;] *)
Fixpoint AnyMatchBuilder_loop (pred : T -> bool) (budget k : nat) (stream : St)
  : option (bool * St) :=
  match k with
  | O => None
  | S k' =>
      '(b, s') <- next budget stream ;;
      if b then
        x <- front s' ;;
        if pred x then Some (true, s') else AnyMatchBuilder_loop pred budget k' s'
      else Some (false, s')
  end.

Definition AnyMatchBuilder_build (pred : T -> bool) (fuel : nat) (stream : St)
  : option (outcome bool * St) :=
  match throw_if_endless stream with
  | Thrown e => Some (Thrown e, stream)
  | Returned _ =>
      '(r, s') <- AnyMatchBuilder_loop pred fuel fuel stream ;;
      Some (Returned r, s')
  end.

(** [NoneMatchBuilder<Pred>::build]: [while(stream.next())
    if(pred(stream.front())) return false; return true;] *)
Fixpoint NoneMatchBuilder_loop (pred : T -> bool) (budget k : nat) (stream : St)
  : option (bool * St) :=
  match k with
  | O => None
  | S k' =>
      '(b, s') <- next budget stream ;;
      if b then
        x <- front s' ;;
        if pred x then Some (false, s') else NoneMatchBuilder_loop pred budget k' s'
      else Some (true, s')
  end.

Definition NoneMatchBuilder_build (pred : T -> bool) (fuel : nat) (stream : St)
  : option (outcome bool * St) :=
  match throw_if_endless stream with
  | Thrown e => Some (Thrown e, stream)
  | Returned _ =>
      '(r, s') <- NoneMatchBuilder_loop pred fuel fuel stream ;;
      Some (Returned r, s')
  end.

(** [CountBuilder<Counter>::build]: [while(stream.next()) ++counter;
    return counter;] for a counter type [C] with increment [incr]. *)
Section Count.
Context {C : Type} (incr : C -> C).

Fixpoint CountBuilder_loop (budget k : nat) (stream : St) (counter : C)
  : option (C * St) :=
  match k with
  | O => None
  | S k' =>
      '(b, s') <- next budget stream ;;
      if b then CountBuilder_loop budget k' s' (incr counter)
      else Some (counter, s')
  end.

Definition CountBuilder_build (counter : C) (fuel : nat) (stream : St)
  : option (outcome C * St) :=
  match throw_if_endless stream with
  | Thrown e => Some (Thrown e, stream)
  | Returned _ =>
      '(c, s') <- CountBuilder_loop fuel fuel stream counter ;;
      Some (Returned c, s')
  end.
End Count.

(** [first()]: [stream.next() ? std::optional(stream.front()) : std::nullopt] *)
Definition first (fuel : nat) (stream : St) : option (outcome (option T) * St) :=
  '(r, s') <- first_or_nullopt fuel stream ;;
  Some (Returned r, s').
End Terminals.

(** [element_at(pos)]: [stream >> skip(pos) >> first()] *)
Definition element_at {St T : Type} `{Stream St T} {w : size_width} (pos : Z)
    (fuel : nat) (stream : St) : option (outcome (option T) * SkipStream St) :=
  first fuel (skip pos stream).

(** ** Observing a stream

    [Counted] wraps a stream and counts the calls of its [next()]; it is the
    device by which "the builder consumed no element" is stated. *)
Record Counted (St : Type) : Type := Build_Counted {
  counted_stream : St;
  next_calls : nat
}.

Section Counted.
Context {St T : Type} `{Stream St T}.

Definition Counted_next (fuel : nat) (c : Counted St) : option (bool * Counted St) :=
  '(b, st) <- next fuel (counted_stream c) ;;
  Some (b, {| counted_stream := st; next_calls := S (next_calls c) |}).

#[export] Instance Counted_Stream : Stream (Counted St) T := {|
  front := fun c => front (counted_stream c);
  next := Counted_next;
  endless := fun c => endless (counted_stream c)
|}.

Definition counted (stream : St) : Counted St :=
  {| counted_stream := stream; next_calls := O |}.
End Counted.

(** What a run of a terminal builder can look like. *)

(** The builder threw [endless_stream_exception] and left the stream as it
    got it, with no call of [next()]. *)
Definition refused {St R : Type} (r : option (outcome R * Counted St)) (stream : St) : Prop :=
  exists c : Counted St,
    r = Some (Thrown endless_stream_exception, c) /\
    counted_stream c = stream /\
    next_calls c = O.

(** The builder did not throw [endless_stream_exception]. *)
Definition not_refused {X R : Type} (r : option (outcome R * X)) : Prop :=
  forall o x, r = Some (o, x) -> o <> Thrown endless_stream_exception.

(** [drains s l s']: from [s], the calls of [next()] succeed once per element
    of [l], with [front()] giving that element, and the call after them fails
    and leaves the stream in [s']. *)
Inductive drains {St T : Type} `{Stream St T} : St -> list T -> St -> Prop :=
| drains_nil : forall s s',
    returns (fun fuel => next fuel s) (false, s') ->
    drains s [] s'
| drains_cons : forall s s1 x l s',
    returns (fun fuel => next fuel s) (true, s1) ->
    front s1 = Some x ->
    drains s1 l s' ->
    drains s (x :: l) s'.

(** [trace fuel n s]: what a caller sees who calls [next()] [n] times and
    reads [front()] after every call that succeeded. *)
Fixpoint trace {St T : Type} `{Stream St T} (fuel n : nat) (s : St)
  : option (list (bool * option T)) :=
  match n with
  | O => Some []
  | S n' =>
      '(b, s1) <- next fuel s ;;
      rest <- trace fuel n' s1 ;;
      Some ((b, if b then front s1 else None) :: rest)
  end.

(** [advance_n fuel n s]: the results of [n] calls of [next()] and the stream
    after them. *)
Fixpoint advance_n {St T : Type} `{Stream St T} (fuel n : nat) (s : St)
  : option (list bool * St) :=
  match n with
  | O => Some ([], s)
  | S n' =>
      '(b, s1) <- next fuel s ;;
      '(bs, s2) <- advance_n fuel n' s1 ;;
      Some (b :: bs, s2)
  end.

(** [after_next fuel s]: the stream after one call of [next()]. *)
Definition after_next {St T : Type} `{Stream St T} (fuel : nat) (s : St) : St :=
  match next fuel s with
  | Some (_, s') => s'
  | None => s
  end.

(** [exhausted s]: [next()] fails on [s] and leaves it as it is. *)
Definition exhausted {St T : Type} `{Stream St T} (s : St) : Prop :=
  returns (fun fuel => next fuel s) (false, s).

(** Streams and callables of the examples. *)
Definition two_sources (l1 l2 : list Z) : StreamTuple [Z : Type; Z : Type] :=
  tuple_cons _ (from l1) (tuple_cons _ (from l2) tuple_nil).

(** [[](int a, int b) -> std::optional<int> { if(a + b == 22) return {};
    return a + b; }] *)
Definition sum_unless_22 (xs : values [Z : Type; Z : Type]) : option Z :=
  let '(a, (b, _)) := xs in
  if a + b =? 22 then None else Some (a + b).

(** [[](int a) -> std::optional<int> { if(a == 2) return {}; return 11 * a; }] *)
Definition times_11_unless_2 (a : Z) : option Z :=
  if a =? 2 then None else Some (11 * a).

(** ** Comparators

    What <algorithm> requires of a [Compare]: a strict weak ordering.  Two
    elements neither of which is less than the other are equivalent. *)
Definition equivalent {T : Type} (comp : T -> T -> bool) (a b : T) : bool :=
  negb (comp a b) && negb (comp b a).

Record StrictWeakOrder {T : Type} (comp : T -> T -> bool) : Prop := {
  swo_irreflexive : forall a, comp a a = false;
  swo_transitive : forall a b c, comp a b = true -> comp b c = true -> comp a c = true;
  swo_equivalent_transitive : forall a b c,
    equivalent comp a b = true -> equivalent comp b c = true -> equivalent comp a c = true
}.

(** No element of [l] is less than [r]; [r] is less than no element of [l]. *)
Definition minimal {T : Type} (comp : T -> T -> bool) (l : list T) (r : T) : Prop :=
  forall x, In x l -> comp x r = false.

Definition maximal {T : Type} (comp : T -> T -> bool) (l : list T) (r : T) : Prop :=
  forall x, In x l -> comp r x = false.

(** [r] stands in [l] at a place where [P] holds, and at no later place
    (no earlier place) does [P] hold. *)
Definition last_of {T : Type} (P : T -> Prop) (l : list T) (r : T) : Prop :=
  exists l1 l2, l = l1 ++ r :: l2 /\ P r /\ forall y, In y l2 -> ~ P y.

Definition first_of {T : Type} (P : T -> Prop) (l : list T) (r : T) : Prop :=
  exists l1 l2, l = l1 ++ r :: l2 /\ P r /\ forall y, In y l1 -> ~ P y.

(** A comparator that looks at the first component only, as
    [[](auto a, auto b) { return a.first < b.first; }]. *)
Definition by_first (a b : nat * nat) : bool := Nat.ltb (fst a) (fst b).

(** Every builder that calls [throw_if_endless] throws on [s], before any call
    of [next()]. *)
Definition guarded_builders_refuse {St T : Type} `{Stream St T} (fuel : nat) (s : St) : Prop :=
  (forall (E : Type) (pred : T -> E -> E) (env : E),
      ForEachBuilder_build pred fuel (counted s) env
      = Some (Thrown endless_stream_exception, env, counted s)) /\
  (forall biPred, refused (ReduceBuilder_build biPred fuel (counted s)) s) /\
  (forall compare, refused (MinBuilder_build compare fuel (counted s)) s) /\
  (forall compare, refused (MaxBuilder_build compare fuel (counted s)) s) /\
  (forall compare, refused (MinMaxBuilder_build compare fuel (counted s)) s) /\
  (forall pred, refused (AllMatchBuilder_build pred fuel (counted s)) s) /\
  (forall pred, refused (AnyMatchBuilder_build pred fuel (counted s)) s) /\
  (forall pred, refused (NoneMatchBuilder_build pred fuel (counted s)) s) /\
  (forall (C : Type) (incr : C -> C) (counter : C),
      refused (CountBuilder_build incr counter fuel (counted s)) s) /\
  (forall (C : Type) (container : C) (collector : C -> T -> C),
      refused (collect container collector fuel (counted s)) s).

(** No builder that calls [throw_if_endless] throws
    [endless_stream_exception] on [s]. *)
Definition guarded_builders_run {St T : Type} `{Stream St T} (fuel : nat) (s : St) : Prop :=
  (forall (E : Type) (pred : T -> E -> E) (env : E) o env' s',
      ForEachBuilder_build pred fuel s env = Some (o, env', s') ->
      o <> Thrown endless_stream_exception) /\
  (forall biPred, not_refused (ReduceBuilder_build biPred fuel s)) /\
  (forall compare, not_refused (MinBuilder_build compare fuel s)) /\
  (forall compare, not_refused (MaxBuilder_build compare fuel s)) /\
  (forall compare, not_refused (MinMaxBuilder_build compare fuel s)) /\
  (forall pred, not_refused (AllMatchBuilder_build pred fuel s)) /\
  (forall pred, not_refused (AnyMatchBuilder_build pred fuel s)) /\
  (forall pred, not_refused (NoneMatchBuilder_build pred fuel s)) /\
  (forall (C : Type) (incr : C -> C) (counter : C),
      not_refused (CountBuilder_build incr counter fuel s)) /\
  (forall (C : Type) (container : C) (collector : C -> T -> C),
      not_refused (collect container collector fuel s)).

(** Neither [first()] nor [element_at(pos)] throws [endless_stream_exception]
    on [s], and [first()] calls [next()] once. *)
Definition unguarded_builders_run {St T : Type} `{Stream St T} (fuel : nat) (s : St) : Prop :=
  not_refused (first fuel s) /\
  (forall (w : size_width) (pos : Z), not_refused (element_at pos fuel s)) /\
  (forall o c, first fuel (counted s) = Some (o, c) -> next_calls c = 1%nat).

(** The loop invariant of min: no element read before the value held is less
    than it, and every element read after it is greater. *)
Definition held_min {T : Type} (comp : T -> T -> bool) (read : list T) (r : T) : Prop :=
  exists l1 l2, read = l1 ++ r :: l2 /\
                (forall x, In x l1 -> comp x r = false) /\
                (forall y, In y l2 -> comp r y = true).

(** A [SortStream] after its first [next()], with element [i] of the buffer at
    the front: the upstream is exhausted, the buffer is sorted. *)
Definition SortStream_serving {St T : Type} (comp : T -> T -> bool)
    (s' : St) (buffer : list T) (i : nat) : SortStream St T :=
  {| sort_stream := s'; sort_compare := comp; sort_sorted := buffer;
     sort_current := Z.of_nat i + 1 |}.

(** [std::set<T, Compare>::insert] of <set>, which [distinct] is given and the
    header does not define.  The set is modelled by the list of its elements
    in order; an element equivalent to one of the set is not inserted. *)
Definition std_set_insert {T : Type} (comp : T -> T -> bool) (x : T) (set : list T)
  : list T * bool :=
  if existsb (equivalent comp x) set then (set, false)
  else (stable_insert comp x set, true).

(** [DistinctStream<Stream, Set>], for a set type [Set_] with the member
    [insert], which returns the set and whether the element was new.
    [current] is the iterator to the element inserted last, kept as that
    element. *)
Record DistinctStream (St T Set_ : Type) : Type := Build_DistinctStream {
  distinct_stream : St;
  distinct_insert : T -> Set_ -> Set_ * bool;
  distinct_set : Set_;
  distinct_current : option T
}.

Section DistinctStream.
Context {St T Set_ : Type} `{Stream St T}.

Definition DistinctStream_new (stream : St) (insert : T -> Set_ -> Set_ * bool) (set : Set_)
  : DistinctStream St T Set_ :=
  {| distinct_stream := stream; distinct_insert := insert; distinct_set := set;
     distinct_current := None |}.

(** [return *current;] *)
Definition DistinctStream_front (s : DistinctStream St T Set_) : option T :=
  distinct_current s.

(** [while(stream.next())
    if(auto [next, success] = set.insert(stream.front()); success)
    return current = next, true; return false;] *)
Fixpoint DistinctStream_loop (budget k : nat) (s : DistinctStream St T Set_)
  : option (bool * DistinctStream St T Set_) :=
  match k with
  | O => None
  | S k' =>
      '(b, st) <- next budget (distinct_stream s) ;;
      if b then
        x <- front st ;;
        let '(set', success) := distinct_insert s x (distinct_set s) in
        if success
        then Some (true, {| distinct_stream := st; distinct_insert := distinct_insert s;
                            distinct_set := set'; distinct_current := Some x |})
        else DistinctStream_loop budget k'
               {| distinct_stream := st; distinct_insert := distinct_insert s;
                  distinct_set := set'; distinct_current := distinct_current s |}
      else Some (false, {| distinct_stream := st; distinct_insert := distinct_insert s;
                           distinct_set := distinct_set s;
                           distinct_current := distinct_current s |})
  end.

Definition DistinctStream_next (fuel : nat) (s : DistinctStream St T Set_) :=
  DistinctStream_loop fuel fuel s.

Definition DistinctStream_endless (s : DistinctStream St T Set_) : bool :=
  endless (distinct_stream s).

#[export] Instance DistinctStream_Stream : Stream (DistinctStream St T Set_) T := {|
  front := DistinctStream_front;
  next := DistinctStream_next;
  endless := DistinctStream_endless
|}.
End DistinctStream.


(** ** Sequences

    What the combinators do to the sequence a stream yields, as functions on
    lists. *)

(** [serves s l s']: from [s], the calls of [next()] succeed once per element
    of [l], with [front()] giving that element, and leave the stream in [s'];
    nothing is said of the call after them. *)
Inductive serves {St T : Type} `{Stream St T} : St -> list T -> St -> Prop :=
| serves_nil : forall s, serves s [] s
| serves_cons : forall s s1 x l s',
    returns (fun fuel => next fuel s) (true, s1) ->
    front s1 = Some x ->
    serves s1 l s' ->
    serves s (x :: l) s'.

(** [returns2 f a]: a loop with a budget for the calls it makes and a budget
    of its own reaches [a] as soon as both are large enough. *)
Definition returns2 {A : Type} (f : nat -> nat -> option A) (a : A) : Prop :=
  exists kb kk : nat, forall budget k : nat,
      (kb <= budget)%nat -> (kk <= k)%nat -> f budget k = Some a.

(** The results that are present, in order. *)
Fixpoint map_present {T R : Type} (f : T -> option R) (l : list T) : list R :=
  match l with
  | [] => []
  | x :: l' =>
      match f x with
      | Some v => v :: map_present f l'
      | None => map_present f l'
      end
  end.

(** The longest prefix on which [p] holds, and what follows it. *)
Fixpoint take_while_list {T : Type} (p : T -> bool) (l : list T) : list T :=
  match l with
  | [] => []
  | x :: l' => if p x then x :: take_while_list p l' else []
  end.

Fixpoint skip_while_list {T : Type} (p : T -> bool) (l : list T) : list T :=
  match l with
  | [] => []
  | x :: l' => if p x then skip_while_list p l' else x :: l'
  end.

(** The elements of [l] that are equivalent to no element of [seen] and to no
    earlier element of [l]. *)
Fixpoint first_occurrences {T : Type} (comp : T -> T -> bool) (seen l : list T) : list T :=
  match l with
  | [] => []
  | x :: l' =>
      if existsb (equivalent comp x) seen then first_occurrences comp seen l'
      else x :: first_occurrences comp (x :: seen) l'
  end.

(** [f] applied to the elements of two lists in step, up to the shorter. *)
Fixpoint zip_with {A B R : Type} (f : A -> B -> R) (la : list A) (lb : list B) : list R :=
  match la, lb with
  | a :: la', b :: lb' => f a b :: zip_with f la' lb'
  | _, _ => []
  end.


(** [init], [f init], [f (f init)], ...: [n] elements. *)
Fixpoint iterates {T : Type} (f : T -> T) (init : T) (n : nat) : list T :=
  match n with
  | O => []
  | S n' => init :: iterates f (f init) n'
  end.

(** A combining function of two arguments that returns no optional, as the
    callable [CombineStreams] is given. *)
Definition combine2_pred {TA TB R : Type} (f : TA -> TB -> R)
    (xs : values [TA; TB]) : option R :=
  let '(x, (y, _)) := xs in Some (f x y).

(** The state of a [FlatStream] in which the streams of [done] are used up and
    the stream at [current] is the first of [rest]. *)
Definition FlatStream_at {St Inner : Type} (outer : St) (done rest : list Inner)
  : FlatStream St Inner :=
  {| flat_stream := outer; flat_streams := done ++ rest;
     flat_current := Z.of_nat (length done) |}.


(** The state of an [EndlessFlatStream] over a range of inner streams in
    which the streams of [done] are used up, [cur] is the stream at hand and
    [rest] is still to come. *)
Definition EndlessFlatStream_at {Inner : Type} (done : list Inner) (cur : Inner)
    (rest : list Inner) : EndlessFlatStream (IteratorStream Inner) :=
  {| eflat_stream := {| it_range := done ++ cur :: rest;
                        it_current := length done;
                        it_upcoming := S (length done);
                        it_last := length done + S (length rest);
                        it_unchecked := false |};
     eflat_left := true |}.

(** [flat_map(pred)]: [map(pred).build(std::move(stream)) >> flat()], for a
    [pred] that returns a stream. *)
Definition flat_map {w : size_width} {St T Inner R : Type} `{Stream St T}
    `{Stream Inner R} (pred : T -> Inner) (fuel : nat) (stream : St)
  : option (FlatStream (MapStream St T Inner) Inner) :=
  FlatStream_new fuel (MapStream_new stream (fun x => Some (pred x))).

(** * Properties *)

(** ** The guard of the terminal builders *)

Section Guard.
Context {St T : Type} `{Stream St T}.

Lemma throw_if_endless_true (s : St) :
  endless s = true -> throw_if_endless s = Thrown endless_stream_exception.
Proof. intros E. unfold throw_if_endless. now rewrite E. Qed.

Lemma throw_if_endless_false (s : St) :
  endless s = false -> throw_if_endless s = Returned tt.
Proof. intros E. unfold throw_if_endless. now rewrite E. Qed.

Lemma bad_access_is_not_refusal :
  forall R : Type, @Thrown R bad_optional_access <> Thrown endless_stream_exception.
Proof. intros R; discriminate. Qed.

(** The loop of reduce, min and max throws nothing but [bad_optional_access]. *)
Lemma fold_loop_not_refused (step : T -> T -> T) (budget : nat) :
  forall (k : nat) (s : St) (init : option T),
    not_refused (fold_loop step budget k s init).
Proof.
  induction k as [|k IH]; intros s init o x; simpl.
  - discriminate.
  - destruct (next budget s) as [[[] s1]|]; simpl; try discriminate.
    + destruct (front s1) as [v|]; simpl; try discriminate.
      destruct init as [i|].
      * apply IH.
      * intros [= <- <-]. discriminate.
    + intros [= <- <-]. discriminate.
Qed.
End Guard.

(** Unfolds a guarded [build] whose guard is known to throw or to pass. *)
Ltac guard_trips E :=
  unfold refused; eexists; split;
  [ cbv [ReduceBuilder_build MinBuilder_build MaxBuilder_build fold_build
         MinMaxBuilder_build AllMatchBuilder_build AnyMatchBuilder_build
         NoneMatchBuilder_build CountBuilder_build collect ForEachBuilder_build];
    rewrite (throw_if_endless_true _ E); reflexivity
  | split; reflexivity ].

Ltac guard_passes E :=
  cbv [MinMaxBuilder_build AllMatchBuilder_build AnyMatchBuilder_build
       NoneMatchBuilder_build CountBuilder_build collect ForEachBuilder_build];
  rewrite (throw_if_endless_false _ E);
  intros o x;
  repeat match goal with
         | |- context [bind ?m _] => destruct m; simpl
         | |- context [let (_, _) := ?p in _] => destruct p; simpl
         | |- context [match ?m with Some _ => _ | None => _ end] => destruct m; simpl
         | |- context [if ?b then _ else _] => destruct b; simpl
         end;
  try discriminate; intros Heq; inversion Heq; discriminate.

Lemma endless_stream_is_refused {St T : Type} `{Stream St T} (fuel : nat) (s : St) :
  endless s = true -> guarded_builders_refuse fuel s.
Proof.
  intros E.
  assert (Ec : endless (counted s) = true) by exact E.
  unfold guarded_builders_refuse.
  repeat match goal with |- _ /\ _ => split end; intros;
    try (guard_trips Ec).
  unfold ForEachBuilder_build. now rewrite (throw_if_endless_true _ Ec).
Qed.

(** C1 (as amended).  The builders that call [throw_if_endless] (for-each,
    reduce, min, max, minmax, all/any/none-match, count, collect) throw
    [endless_stream_exception] on every stream whose [endless()] is true,
    without a call of its [next()], and never throw it on a stream whose
    [endless()] is false.  [first()] and [element_at(pos)] do not call
    [throw_if_endless]: they never throw it, whatever [endless()] says, and
    [first()] calls [next()] once. *)
Theorem terminal_builders_guard :
  forall (St T : Type) (inst : Stream St T) (s : St) (fuel : nat),
    (endless s = true -> guarded_builders_refuse fuel s) /\
    (endless s = false -> guarded_builders_run fuel s) /\
    unguarded_builders_run fuel s.
Proof.
  intros St T inst s fuel. split; [|split].
  - intros E. now apply endless_stream_is_refused.
  - intros E. unfold guarded_builders_run.
    repeat match goal with |- _ /\ _ => split end; intros.
    + revert H. unfold ForEachBuilder_build.
      rewrite (throw_if_endless_false _ E).
      destruct (ForEachBuilder_loop pred fuel fuel s env) as [[]|]; simpl;
        try discriminate.
      intros Heq. inversion Heq. discriminate.
    + unfold ReduceBuilder_build, fold_build.
      rewrite (throw_if_endless_false _ E).
      destruct (first_or_nullopt fuel s) as [[]|]; simpl.
      * apply fold_loop_not_refused.
      * intros o x; discriminate.
    + unfold MinBuilder_build, fold_build.
      rewrite (throw_if_endless_false _ E).
      destruct (first_or_nullopt fuel s) as [[]|]; simpl.
      * apply fold_loop_not_refused.
      * intros o x; discriminate.
    + unfold MaxBuilder_build, fold_build.
      rewrite (throw_if_endless_false _ E).
      destruct (first_or_nullopt fuel s) as [[]|]; simpl.
      * apply fold_loop_not_refused.
      * intros o x; discriminate.
    + guard_passes E.
    + guard_passes E.
    + guard_passes E.
    + guard_passes E.
    + guard_passes E.
    + unfold collect, ForEachBuilder_build.
      rewrite (throw_if_endless_false _ E).
      destruct (ForEachBuilder_loop _ fuel fuel s container) as [[c s1]|];
        intros o x; simpl; try discriminate.
      intros Heq; inversion Heq; discriminate.
  - split.
    + intros o x. unfold first.
      destruct (first_or_nullopt fuel s) as [[]|]; simpl; try discriminate.
      intros [= <- <-]. discriminate.
    + split.
      * intros w pos o x. unfold element_at, first.
        destruct (first_or_nullopt fuel (skip pos s)) as [[]|]; simpl; try discriminate.
        intros [= <- <-]. discriminate.
      * intros o c. unfold first, first_or_nullopt. simpl. unfold Counted_next. simpl.
        destruct (next fuel s) as [[[] s1]|]; simpl; try discriminate.
        -- destruct (front s1); simpl; try discriminate. now intros [= <- <-].
        -- now intros [= <- <-].
Qed.

(** C1, witness: the guard at [iota(0, 1)], whose [endless()] is true, and at
    [from({1, 2, 3})], whose [endless()] is false. *)
Lemma terminal_builders_guard_witness :
  refused (CountBuilder_build Z.succ 0 5 (counted (iota 0 1))) (iota 0 1) /\
  not_refused (CountBuilder_build Z.succ 0 5 (from [1; 2; 3])).
Proof.
  split.
  - destruct (terminal_builders_guard _ (iota 0 1) 5) as [Hyes _].
    apply (Hyes eq_refl).
  - destruct (terminal_builders_guard _ (from [1; 2; 3]) 5) as [_ [Hno _]].
    apply (Hno eq_refl).
Defined.

(** C1 as stated fails: [first()] on [iota(0, 1)], whose [endless()] is true,
    calls [next()] once and returns the first element; [element_at(2)] calls
    it three times. *)
Lemma first_on_endless_stream_runs :
  endless (counted (iota 0 1)) = true /\
  first 1 (counted (iota 0 1))
  = Some (Returned (Some 0),
          {| counted_stream := {| int_current := 0; int_step := 1 |};
             next_calls := 1 |}) /\
  element_at (w := 64%positive) 2 3 (counted (iota 0 1))
  = Some (Returned (Some 2),
          {| skip_stream := {| counted_stream := {| int_current := 2; int_step := 1 |};
                               next_calls := 3 |};
             skip_count := 0 |}) /\
  ~ refused (first 1 (counted (iota 0 1))) (iota 0 1).
Proof.
  repeat split; try reflexivity.
  intros (c & E & _). discriminate E.
Qed.

(** ** Strict weak orderings *)

Section Comparator.
Context {T : Type} (comp : T -> T -> bool) (SWO : StrictWeakOrder comp).

Lemma swo_asymmetric (a b : T) : comp a b = true -> comp b a = false.
Proof.
  intros Hab. destruct (comp b a) eqn:Hba; [|reflexivity].
  rewrite <- (swo_irreflexive SWO a). symmetry.
  exact (swo_transitive SWO _ _ _ Hab Hba).
Qed.

(** An element less than [c] is less than [b], or [b] is less than [c]. *)
Lemma swo_cotransitive (a b c : T) :
  comp a c = true -> comp a b = true \/ comp b c = true.
Proof.
  intros Hac.
  destruct (comp a b) eqn:Hab; [now left|].
  destruct (comp b c) eqn:Hbc; [now right|].
  exfalso.
  destruct (comp b a) eqn:Hba.
  { rewrite (swo_transitive SWO _ _ _ Hba Hac) in Hbc. discriminate. }
  destruct (comp c b) eqn:Hcb.
  { rewrite (swo_transitive SWO _ _ _ Hac Hcb) in Hab. discriminate. }
  assert (E : equivalent comp a c = true).
  { apply (swo_equivalent_transitive SWO a b c); unfold equivalent.
    - now rewrite Hab, Hba.
    - now rewrite Hbc, Hcb. }
  unfold equivalent in E. rewrite Hac in E. discriminate.
Qed.

Lemma swo_not_less_transitive (a b c : T) :
  comp a b = false -> comp b c = false -> comp a c = false.
Proof.
  intros Hab Hbc. destruct (comp a c) eqn:Hac; [|reflexivity].
  destruct (swo_cotransitive b Hac) as [E|E]; congruence.
Qed.

Lemma swo_flip : StrictWeakOrder (fun a b => comp b a).
Proof.
  split.
  - intros a. apply (swo_irreflexive SWO).
  - intros a b c Hab Hbc. exact (swo_transitive SWO _ _ _ Hbc Hab).
  - intros a b c Hab Hbc.
    unfold equivalent in *.
    rewrite andb_comm. rewrite andb_comm in Hab. rewrite andb_comm in Hbc.
    exact (swo_equivalent_transitive SWO _ _ _ Hab Hbc).
Qed.
End Comparator.

Lemma by_first_strict_weak_order : StrictWeakOrder by_first.
Proof.
  split; unfold equivalent, by_first.
  - intros a. apply Nat.ltb_irrefl.
  - intros a b c. rewrite !Nat.ltb_lt. lia.
  - intros a b c. rewrite !andb_true_iff, !negb_true_iff, !Nat.ltb_ge. lia.
Qed.

(** ** Min and max *)

Section MinMax.
Context {St T : Type} `{Stream St T}.

(** On a stream that drains, the loop of reduce, min and max is a left fold. *)
Lemma fold_loop_drains (step : T -> T -> T) :
  forall (s : St) (l : list T) (s' : St),
    drains s l s' ->
    forall init : T,
    exists kb : nat, forall budget k : nat,
        (kb <= budget)%nat -> (length l < k)%nat ->
        fold_loop step budget k s (Some init)
        = Some (Returned (Some (fold_left step l init)), s').
Proof.
  induction 1 as [s s' [k0 Hnext]|s s1 x l s' [k0 Hnext] Hfront _ IH]; intros init.
  - exists k0. intros budget k Hb Hk.
    destruct k as [|k]; [simpl in Hk; lia|].
    simpl. now rewrite (Hnext budget Hb).
  - destruct (IH (step init x)) as [kb Hloop].
    exists (Nat.max k0 kb). intros budget k Hb Hk.
    destruct k as [|k]; [simpl in Hk; lia|].
    simpl. rewrite (Hnext budget) by lia. simpl. rewrite Hfront. simpl.
    apply Hloop; simpl in Hk; lia.
Qed.

Lemma fold_build_drains (step : T -> T -> T) (s : St) (x : T) (l : list T) (s' : St) :
  endless s = false ->
  drains s (x :: l) s' ->
  returns (fun fuel => fold_build step fuel s)
          (Returned (Some (fold_left step l x)), s').
Proof.
  intros E D. inversion D as [|s0 s1 x0 l0 s0' [k0 Hnext] Hfront D']; subst.
  destruct (fold_loop_drains step D' x) as [kb Hloop].
  exists (Nat.max (Nat.max k0 kb) (S (length l))). intros fuel Hfuel.
  unfold fold_build. rewrite (throw_if_endless_false _ E).
  unfold first_or_nullopt. rewrite (Hnext fuel) by lia. simpl.
  rewrite Hfront. simpl. apply Hloop; lia.
Qed.
End MinMax.

Section MinMaxBias.
Context {T : Type} (comp : T -> T -> bool) (SWO : StrictWeakOrder comp).

Lemma held_min_step (read : list T) (r a : T) :
  held_min comp read r -> held_min comp (read ++ [a]) (std_min a r comp).
Proof.
  intros (l1 & l2 & -> & Hbefore & Hafter). unfold std_min.
  destruct (comp r a) eqn:Hra.
  - exists l1, (l2 ++ [a]). split; [now rewrite <- app_assoc|]. split; [exact Hbefore|].
    intros y Hy. apply in_app_or in Hy as [Hy|[<-|[]]]; auto.
  - exists (l1 ++ r :: l2), []. split; [reflexivity|]. split; [|intros y []].
    intros x Hx. apply in_app_or in Hx as [Hx|[<-|Hx]].
    + apply (swo_not_less_transitive SWO x r a); auto.
    + exact Hra.
    + destruct (comp x a) eqn:Hxa; [|reflexivity].
      rewrite (swo_transitive SWO _ _ _ (Hafter x Hx) Hxa) in Hra. discriminate.
Qed.

Lemma held_min_fold (l read : list T) (r : T) :
  held_min comp read r ->
  held_min comp (read ++ l) (fold_left (fun i x => std_min x i comp) l r).
Proof.
  revert read r. induction l as [|a l IH]; intros read r Hheld; simpl.
  - now rewrite app_nil_r.
  - replace (read ++ a :: l) with ((read ++ [a]) ++ l) by now rewrite <- app_assoc.
    apply IH. now apply held_min_step.
Qed.

Lemma held_min_is_last_minimal (l : list T) (r : T) :
  held_min comp l r -> last_of (minimal comp l) l r.
Proof.
  intros (l1 & l2 & -> & Hbefore & Hafter).
  exists l1, l2. split; [reflexivity|]. split.
  - intros x Hx. apply in_app_or in Hx as [Hx|[<-|Hx]].
    + now apply Hbefore.
    + apply (swo_irreflexive SWO).
    + apply (swo_asymmetric SWO). now apply Hafter.
  - intros y Hy Hmin.
    assert (E : comp r y = false) by (apply Hmin, in_or_app; right; now left).
    rewrite (Hafter y Hy) in E. discriminate.
Qed.

Lemma min_fold_is_last_minimal (x : T) (l : list T) :
  last_of (minimal comp (x :: l)) (x :: l)
          (fold_left (fun i y => std_min y i comp) l x).
Proof.
  apply held_min_is_last_minimal.
  apply (held_min_fold l (read := [x])).
  exists [], []. repeat split; intros ? [].
Qed.
End MinMaxBias.

(** ** Finite sources *)

Section FiniteSource.
Context {T : Type}.

Lemma skipn_nth_error (l : list T) (n : nat) (x : T) :
  nth_error l n = Some x -> skipn n l = x :: skipn (S n) l.
Proof.
  revert l. induction n as [|n IH]; intros [|y l]; simpl; try discriminate.
  - now intros [= ->].
  - intros E. now rewrite (IH l E).
Qed.

(** An [IteratorStream] yields the elements between [upcoming] and [last],
    and from then on [next()] fails and changes nothing. *)
Lemma IteratorStream_drains (n : nat) :
  forall s : IteratorStream T,
    (it_upcoming s + n = it_last s)%nat ->
    (it_last s <= length (it_range s))%nat ->
    exists s' : IteratorStream T,
      drains s (firstn n (skipn (it_upcoming s) (it_range s))) s' /\
      it_upcoming s' = it_last s' /\
      it_unchecked s' = it_unchecked s.
Proof.
  induction n as [|n IH]; intros s Hn Hlast.
  - exists s. split; [|split; [lia|reflexivity]].
    apply drains_nil. exists O. intros fuel _. simpl.
    unfold IteratorStream_next.
    replace (it_upcoming s =? it_last s)%nat with true
      by (symmetry; apply Nat.eqb_eq; lia).
    reflexivity.
  - destruct (nth_error (it_range s) (it_upcoming s)) as [x|] eqn:Hx.
    2: { apply nth_error_None in Hx. lia. }
    set (s1 := {| it_range := it_range s; it_current := it_upcoming s;
                  it_upcoming := S (it_upcoming s); it_last := it_last s;
                  it_unchecked := it_unchecked s |}).
    destruct (IH s1) as (s' & D & Hend & Hunchecked); simpl; try lia.
    exists s'. split; [|split; assumption].
    rewrite (skipn_nth_error _ _ Hx). simpl.
    apply drains_cons with (s1 := s1).
    + exists O. intros fuel _. simpl. unfold IteratorStream_next.
      replace (it_upcoming s =? it_last s)%nat with false
        by (symmetry; apply Nat.eqb_neq; lia).
      reflexivity.
    + exact Hx.
    + exact D.
Qed.

Lemma from_drains (l : list T) :
  exists s' : IteratorStream T,
    drains (from l) l s' /\ it_upcoming s' = it_last s'.
Proof.
  destruct (IteratorStream_drains (length l) (from l)) as (s' & D & Hend & _);
    simpl; try lia.
  exists s'. split; [|exact Hend].
  simpl in D. now rewrite firstn_all in D.
Qed.
End FiniteSource.

(** ** C2 *)

(** C2 (as amended).  On a stream that is not endless and yields a non-empty
    sequence, and for a comparator that is a strict weak ordering, the min
    builder returns the last encountered element among the minimal ones and
    the max builder the last encountered element among the maximal ones:
    [std::min(front, init)] and [std::max(front, init)] return their first
    argument, the newer element, when the two are equivalent. *)
Theorem min_max_keep_last_of_equals :
  forall (St T : Type) (inst : Stream St T) (comp : T -> T -> bool)
         (s : St) (x : T) (l : list T) (s' : St),
    StrictWeakOrder comp ->
    endless s = false ->
    drains s (x :: l) s' ->
    (exists r, returns (fun fuel => MinBuilder_build comp fuel s) (Returned (Some r), s') /\
               last_of (minimal comp (x :: l)) (x :: l) r) /\
    (exists r, returns (fun fuel => MaxBuilder_build comp fuel s) (Returned (Some r), s') /\
               last_of (maximal comp (x :: l)) (x :: l) r).
Proof.
  intros St T inst comp s x l s' SWO E D. split.
  - eexists. split.
    + apply fold_build_drains; eassumption.
    + now apply min_fold_is_last_minimal.
  - eexists. split.
    + apply fold_build_drains; eassumption.
    + apply (min_fold_is_last_minimal (swo_flip SWO) x l).
Qed.

(** Solves [drains] on a source given in full. *)
Ltac drain_source :=
  repeat (eapply drains_cons; [exists O; intros; reflexivity | reflexivity |]);
  apply drains_nil; exists O; intros; reflexivity.

(** C2, witness: four pairs compared by their first component. *)
Lemma min_max_keep_last_of_equals_witness :
  let l := [(1, 0); (0, 5); (0, 6); (1, 1)]%nat in
  let s' := {| it_range := l; it_current := 3; it_upcoming := 4; it_last := 4;
               it_unchecked := false |} in
  (exists r, returns (fun fuel => MinBuilder_build by_first fuel (from l))
                     (Returned (Some r), s') /\
             last_of (minimal by_first l) l r) /\
  (exists r, returns (fun fuel => MaxBuilder_build by_first fuel (from l))
                     (Returned (Some r), s') /\
             last_of (maximal by_first l) l r).
Proof.
  intros l s'.
  apply (min_max_keep_last_of_equals (s := from l) (s' := s')).
  - apply by_first_strict_weak_order.
  - reflexivity.
  - drain_source.
Defined.

(** C2 as stated fails: of two equivalent elements, min and max both return
    the one encountered later, which is not the first minimal (maximal) one. *)
Lemma min_max_not_left_biased :
  let l := [(1, 0); (1, 1)]%nat in
  let s' := {| it_range := l; it_current := 1; it_upcoming := 2; it_last := 2;
               it_unchecked := false |} in
  MinBuilder_build by_first 3 (from l) = Some (Returned (Some (1, 1)%nat), s') /\
  MaxBuilder_build by_first 3 (from l) = Some (Returned (Some (1, 1)%nat), s') /\
  ~ first_of (minimal by_first l) l (1, 1)%nat /\
  ~ first_of (maximal by_first l) l (1, 1)%nat.
Proof.
  intros l s'. repeat split; try reflexivity.
  - intros (l1 & l2 & E & _ & Hno).
    destruct l1 as [|a l1]; [discriminate E|].
    injection E as <- _.
    apply (Hno (1, 0)%nat); [now left|].
    intros x [<-|[<-|[]]]; reflexivity.
  - intros (l1 & l2 & E & _ & Hno).
    destruct l1 as [|a l1]; [discriminate E|].
    injection E as <- _.
    apply (Hno (1, 0)%nat); [now left|].
    intros x [<-|[<-|[]]]; reflexivity.
Qed.

(** Min and max of four pairs compared by their first component: the later of
    the two smallest and the later of the two largest. *)
Example min_max_example :
  let l := [(1, 0); (0, 5); (0, 6); (1, 1)]%nat in
  let s' := after_next 1 (after_next 1 (after_next 1 (after_next 1 (after_next 1 (from l))))) in
  MinBuilder_build by_first 5 (from l) = Some (Returned (Some (0, 6)%nat), s') /\
  MaxBuilder_build by_first 5 (from l) = Some (Returned (Some (1, 1)%nat), s') /\
  MinMaxBuilder_build by_first 5 (from l)
  = Some (Returned (Some ((0, 6), (1, 1))%nat), s').
Proof. repeat split; reflexivity. Qed.

(** ** Map and combine on an absent result *)

Section MapAbsent.
Context {St T R : Type} `{Stream St T}.

(** [MapStream::next] loops past an absent result: when it returns true, the
    cache holds a value. *)
Lemma MapStream_loop_true_has_value (budget : nat) :
  forall (k : nat) (s s' : MapStream St T R),
    MapStream_loop budget k s = Some (true, s') ->
    exists v, front s' = Some v.
Proof.
  induction k as [|k IH]; intros s s'; simpl; [discriminate|].
  destruct (next budget (map_stream s)) as [[[] st]|]; simpl; try discriminate.
  destruct (front st) as [x|]; simpl; try discriminate.
  destruct (map_pred s x) as [v|] eqn:Hv.
  - intros [= <-]. exists v. reflexivity.
  - apply IH.
Qed.
End MapAbsent.

(** C3, the code where it departs from the specification.  When all streams
    advanced and the combining function returned an absent result,
    [CombineStreams::next] does not go on to the next tick as [MapStream::next]
    does: it returns true with an empty cache, and [front()] dereferences the
    empty optional. *)
Theorem combine_surfaces_absent_result :
  forall (Ts : list Type) (R : Type) (c : CombineStreams Ts R) (fuel : nat)
         (streams' : StreamTuple Ts) (xs : values Ts),
    tuple_next fuel (combine_streams c) = Some (true, streams') ->
    tuple_front streams' = Some xs ->
    combine_pred c xs = None ->
    exists c' : CombineStreams Ts R,
      next fuel c = Some (true, c') /\
      front c' = None /\
      combine_streams c' = streams'.
Proof.
  intros Ts R c fuel streams' xs Hnext Hfront Hpred.
  eexists. split; [|split].
  - simpl. unfold CombineStreams_next. rewrite Hnext. simpl. rewrite Hfront. simpl.
    reflexivity.
  - simpl. unfold CombineStreams_front. simpl. exact Hpred.
  - reflexivity.
Qed.

(** C3, at the failing input: combining [{1, 2, 3}] and [{10, 20, 30}] with a
    sum that is absent at 22.  The second call of [next()] returns true and
    leaves nothing to read; map, on the same middle element, goes on to 33. *)
Lemma combine_surfaces_absent_result_witness :
  let c := CombineStreams_new sum_unless_22 (two_sources [1; 2; 3] [10; 20; 30]) in
  let c1 := {| combine_pred := sum_unless_22; combine_cache := Some 11;
               combine_streams :=
                 tuple_cons _ (snd (IteratorStream_next (from [1; 2; 3])))
                   (tuple_cons _ (snd (IteratorStream_next (from [10; 20; 30])))
                      tuple_nil) |} in
  next 1 c = Some (true, c1) /\
  (exists c2, next 1 c1 = Some (true, c2) /\ front c2 = None /\
              tuple_front (combine_streams c2) = Some (2, (20, tt))) /\
  trace 1 4 c = Some [(true, Some 11); (true, None); (true, Some 33); (false, None)] /\
  trace 2 3 (MapStream_new (from [1; 2; 3]) times_11_unless_2)
  = Some [(true, Some 11); (true, Some 33); (false, None)].
Proof.
  intros c c1. split; [reflexivity|]. split; [|split; reflexivity].
  destruct (@combine_surfaces_absent_result _ _ c1 1%nat
              (tuple_cons _ (snd (IteratorStream_next
                                    (snd (IteratorStream_next (from [1; 2; 3])))))
                 (tuple_cons _ (snd (IteratorStream_next
                                       (snd (IteratorStream_next (from [10; 20; 30])))))
                    tuple_nil))
              (2, (20, tt)) eq_refl eq_refl eq_refl) as (c2 & H1 & H2 & H3).
  exists c2. split; [exact H1|]. split; [exact H2|]. rewrite H3. reflexivity.
Defined.

(** ** C4: [endless()] of join and of combine *)

Lemma JoinStreams_endless_constituents (T : Type) :
  forall j : JoinStreams T,
    endless j = existsb (fun b => b) (JoinStreams_constituents j) /\
    (2 <= length (JoinStreams_constituents j))%nat.
Proof.
  fix IH 1. intros [A B instA instB ab|A instA [a b flag]].
  - simpl. unfold JoinStreamAB_endless. rewrite orb_false_r. split; [reflexivity|lia].
  - destruct (IH b) as [Hb Hlen]. simpl in *.
    unfold JoinStreamAB_endless. simpl. rewrite Hb. split; [reflexivity|lia].
Qed.

Lemma tuple_endless_constituents :
  forall (Ts : list Type) (streams : StreamTuple Ts),
    tuple_endless streams = forallb (fun b => b) (tuple_constituents streams).
Proof.
  induction streams as [|St T Ts inst s rest IH]; simpl; [reflexivity|].
  now rewrite IH.
Qed.

(** C4.  [endless()] of a join is true if and only if [endless()] of at least
    one of the streams joined is true; [endless()] of a combine is true if and
    only if [endless()] of every stream combined is true. *)
Theorem join_combine_endless :
  (forall (T : Type) (j : JoinStreams T),
      endless j = true <-> In true (JoinStreams_constituents j)) /\
  (forall (Ts : list Type) (R : Type) (c : CombineStreams Ts R),
      endless c = true <->
      forall b, In b (tuple_constituents (combine_streams c)) -> b = true).
Proof.
  split.
  - intros T j. rewrite (proj1 (JoinStreams_endless_constituents j)).
    rewrite existsb_exists. split.
    + intros (b & Hin & ->). exact Hin.
    + intros Hin. exists true. now split.
  - intros Ts R c. simpl. unfold CombineStreams_endless.
    rewrite tuple_endless_constituents, forallb_forall. reflexivity.
Qed.

(** [join_streams(from({1}), iota(0, 1), from({2}))] is endless, and yields
    1, 0, 1, 2, ...; [join_streams(from({1}), from({2}))] is not. *)
Example join_endless_example :
  let j3 := JoinStreams_more _ (JoinStreamAB_new (from [1])
              (JoinStreams_two _ _ (JoinStreamAB_new (iota 0 1) (from [2])))) in
  let j2 := JoinStreams_two _ _ (JoinStreamAB_new (from [1]) (from [2])) in
  endless j3 = true /\
  JoinStreams_constituents j3 = [false; true; false] /\
  trace 1 4 j3 = Some [(true, Some 1); (true, Some 0); (true, Some 1); (true, Some 2)] /\
  endless j2 = false /\
  collect [] (fun c x => c ++ [x]) 3 j2
  = Some (Returned [1; 2], after_next 1 (after_next 1 (after_next 1 j2))).
Proof. repeat split; reflexivity. Qed.

(** Scenario 5 of the specification: combining [{1, 2, 3}] and
    [{10, 20, 30, 40}] with a sum stops at the shorter one; combining with
    [iota(0, 1)] is endless only when every stream is. *)
Example combine_endless_example :
  let add (xs : values [Z : Type; Z : Type]) := let '(a, (b, _)) := xs in Some (a + b) in
  let c := CombineStreams_new add (two_sources [1; 2; 3] [10; 20; 30; 40]) in
  let mixed := CombineStreams_new add
                 (tuple_cons _ (iota 0 1) (tuple_cons _ (from [1]) tuple_nil)) in
  let both := CombineStreams_new add
                (tuple_cons _ (iota 0 1) (tuple_cons _ (iota 5 5) tuple_nil)) in
  endless c = false /\
  collect [] (fun c x => c ++ [x]) 4 c
  = Some (Returned [11; 22; 33],
          after_next 1 (after_next 1 (after_next 1 (after_next 1 c)))) /\
  endless mixed = false /\
  endless both = true.
Proof. repeat split; reflexivity. Qed.

(** The fold [(streams.next() && ...)] stops at the first stream that fails:
    the streams after it are not advanced in that call. *)
Lemma tuple_next_short_circuits :
  forall (St T : Type) (Ts : list Type) (inst : Stream St T) (s s1 : St)
         (rest : StreamTuple Ts) (fuel : nat),
    next fuel s = Some (false, s1) ->
    tuple_next fuel (tuple_cons inst s rest) = Some (false, tuple_cons inst s1 rest).
Proof. intros St T Ts inst s s1 rest fuel E. simpl. now rewrite E. Qed.

(** ** Take and skip *)

Section SizeT.
Context {w : size_width}.

Lemma size_modulus_pos : 0 < 2 ^ Z.pos size_bits.
Proof. apply Z.pow_pos_nonneg; lia. Qed.

Lemma size_max_nonneg : 0 <= size_max.
Proof. unfold size_max. pose proof size_modulus_pos. lia. Qed.

Lemma size_wrap_small (z : Z) : 0 <= z <= size_max -> size_wrap z = z.
Proof. unfold size_wrap, size_max. intros Hz. apply Z.mod_small. lia. Qed.

(** [size_t(-1) + 1] is 0. *)
Lemma size_wrap_max_succ : size_wrap (size_max + 1) = 0.
Proof.
  unfold size_wrap, size_max.
  replace (2 ^ Z.pos size_bits - 1 + 1) with (2 ^ Z.pos size_bits) by lia.
  apply Z.mod_same. pose proof size_modulus_pos. lia.
Qed.
End SizeT.

Lemma advance_n_fails {St T : Type} `{Stream St T} (fuel n : nat) (s s1 : St) :
  next fuel s = Some (false, s1) ->
  advance_n fuel (S n) s
  = '(bs, s2) <- advance_n fuel n s1 ;; Some (false :: bs, s2).
Proof. intros E. cbn [advance_n]. rewrite E. reflexivity. Qed.

(** C9.  [take(n)] keeps [n + 1] in a [size_t].  For [n] the largest value of
    [size_t] the counter is 0: every call of [next()] returns false and leaves
    the stream as it was, and the upstream's [next()] is never called. *)
Theorem take_size_max_yields_nothing :
  forall (w : size_width) (St T : Type) (inst : Stream St T) (s : St) (fuel n : nat),
    let t := take size_max (counted s) in
    take_count t = 0 /\
    next fuel t = Some (false, t) /\
    advance_n fuel n t = Some (repeat false n, t) /\
    next_calls (take_stream t) = O.
Proof.
  intros w St T inst s fuel n t.
  assert (Hcount : take_count t = 0) by apply size_wrap_max_succ.
  assert (Hnext : next fuel t = Some (false, t)).
  { simpl. unfold TakeStream_next. now rewrite Hcount. }
  repeat split; try assumption.
  induction n as [|n IH]; [reflexivity|].
  rewrite (@advance_n_fails _ _ _ fuel n t t Hnext), IH. reflexivity.
Qed.

Section Count.
Context {St T : Type} `{Stream St T} {C : Type} (incr : C -> C).

(** On a stream that drains, count increments once per element. *)
Lemma CountBuilder_loop_drains :
  forall (s : St) (l : list T) (s' : St),
    drains s l s' ->
    forall counter : C,
    exists kb : nat, forall budget k : nat,
        (kb <= budget)%nat -> (length l < k)%nat ->
        CountBuilder_loop incr budget k s counter
        = Some (Nat.iter (length l) incr counter, s').
Proof.
  induction 1 as [s s' [k0 Hnext]|s s1 x l s' [k0 Hnext] Hfront _ IH]; intros counter.
  - exists k0. intros budget k Hb Hk.
    destruct k as [|k]; [simpl in Hk; lia|].
    simpl. now rewrite (Hnext budget Hb).
  - destruct (IH (incr counter)) as [kb Hloop].
    exists (Nat.max k0 kb). intros budget k Hb Hk.
    destruct k as [|k]; [simpl in Hk; lia|].
    cbn [CountBuilder_loop]. rewrite (Hnext budget) by lia. cbn [bind].
    rewrite Hloop by (simpl in Hk; lia).
    cbn [length]. now rewrite Nat.iter_succ_r.
Qed.

Lemma CountBuilder_build_drains (s : St) (l : list T) (s' : St) (counter : C) :
  endless s = false ->
  drains s l s' ->
  returns (fun fuel => CountBuilder_build incr counter fuel s)
          (Returned (Nat.iter (length l) incr counter), s').
Proof.
  intros E D. destruct (CountBuilder_loop_drains D counter) as [kb Hloop].
  exists (Nat.max kb (S (length l))). intros fuel Hfuel.
  unfold CountBuilder_build. rewrite (throw_if_endless_false _ E).
  rewrite Hloop by lia. reflexivity.
Qed.
End Count.

Section Take.
Context {w : size_width} {St T : Type} `{Stream St T}.

(** A [TakeStream] whose counter is [c >= 1] yields the first [c - 1]
    elements of its upstream. *)
Lemma TakeStream_drains :
  forall (s : St) (l : list T) (s' : St),
    drains s l s' ->
    forall c : Z,
      1 <= c <= size_max ->
      exists t' : TakeStream St,
        drains {| take_stream := s; take_count := c |}
               (firstn (Z.to_nat (c - 1)) l) t'.
Proof.
  induction 1 as [s s' [k0 Hnext]|s s1 x l s' [k0 Hnext] Hfront _ IH]; intros c Hc.
  - rewrite firstn_nil. destruct (c - 1 =? 0) eqn:Hc1.
    + eexists. apply drains_nil.
      exists O. intros fuel _. simpl. unfold TakeStream_next. simpl.
      replace (c =? 0) with false by (symmetry; apply Z.eqb_neq; lia).
      rewrite size_wrap_small by lia. rewrite Hc1. reflexivity.
    + eexists. apply drains_nil.
      exists k0. intros fuel Hfuel. simpl. unfold TakeStream_next. simpl.
      replace (c =? 0) with false by (symmetry; apply Z.eqb_neq; lia).
      rewrite size_wrap_small by lia. rewrite Hc1.
      rewrite (Hnext fuel Hfuel). reflexivity.
  - destruct (Z.eq_dec c 1) as [->|Hc1].
    + eexists. simpl. apply drains_nil.
      exists O. intros fuel _. simpl. unfold TakeStream_next. simpl.
      rewrite size_wrap_small by lia. reflexivity.
    + destruct (IH (c - 1)) as [t' D]; [lia|].
      exists t'.
      replace (Z.to_nat (c - 1)) with (S (Z.to_nat (c - 1 - 1))) by lia.
      simpl.
      apply drains_cons with (s1 := {| take_stream := s1; take_count := c - 1 |});
        [|exact Hfront|exact D].
      exists k0. intros fuel Hfuel. simpl. unfold TakeStream_next. simpl.
      replace (c =? 0) with false by (symmetry; apply Z.eqb_neq; lia).
      rewrite size_wrap_small by lia.
      replace (c - 1 =? 0) with false by (symmetry; apply Z.eqb_neq; lia).
      rewrite (Hnext fuel Hfuel). reflexivity.
Qed.

(** [take(n)] for [n] below the largest [size_t] yields the first [n]
    elements. *)
Lemma take_drains (s : St) (l : list T) (s' : St) (n : Z) :
  drains s l s' ->
  0 <= n < size_max ->
  exists t' : TakeStream St, drains (take n s) (firstn (Z.to_nat n) l) t'.
Proof.
  intros D Hn. unfold take, TakeStream_new.
  rewrite size_wrap_small by lia.
  destruct (TakeStream_drains D (c := n + 1)) as [t' D']; [lia|].
  exists t'. now replace (n + 1 - 1) with n in D' by lia.
Qed.

(** The law of C5 where the counter does not wrap: [take(n)] then count gives
    [min(n, L)] increments. *)
Lemma take_then_count (C : Type) (incr : C -> C) (counter : C)
    (s : St) (l : list T) (s' : St) (n : Z) :
  drains s l s' ->
  0 <= n < size_max ->
  exists t' : TakeStream St,
    returns (fun fuel => CountBuilder_build incr counter fuel (take n s))
            (Returned (Nat.iter (Nat.min (Z.to_nat n) (length l)) incr counter), t').
Proof.
  intros D Hn. destruct (take_drains D Hn) as [t' D'].
  exists t'. rewrite <- length_firstn.
  now apply CountBuilder_build_drains.
Qed.
End Take.

Section Skip.
Context {w : size_width} {St T : Type} `{Stream St T}.

(** Once its counter is 0, a [SkipStream] hands every call to its upstream. *)
Lemma SkipStream_pass_through :
  forall (s : St) (l : list T) (s' : St),
    drains s l s' ->
    drains {| skip_stream := s; skip_count := 0 |} l
           {| skip_stream := s'; skip_count := 0 |}.
Proof.
  induction 1 as [s s' [k0 Hnext]|s s1 x l s' [k0 Hnext] Hfront _ IH].
  - apply drains_nil. exists (S k0). intros fuel Hfuel.
    destruct fuel as [|fuel]; [lia|].
    simpl. unfold SkipStream_next. simpl. rewrite (Hnext (S fuel)) by lia. reflexivity.
  - apply drains_cons with (s1 := {| skip_stream := s1; skip_count := 0 |});
      [|exact Hfront|exact IH].
    exists (S k0). intros fuel Hfuel.
    destruct fuel as [|fuel]; [lia|].
    simpl. unfold SkipStream_next. simpl. rewrite (Hnext (S fuel)) by lia. reflexivity.
Qed.

(** The skipping loop, started with counter [c >= 1] on a stream that drains:
    it stops with counter 0 after [c - 1] elements, or on the exhausted
    upstream when there are fewer. *)
Lemma SkipStream_loop_drains :
  forall (s : St) (l : list T) (s' : St),
    drains s l s' ->
    forall c : Z,
      1 <= c <= size_max ->
      exists (kb : nat) (sk : SkipStream St),
        (forall budget k : nat,
            (kb <= budget)%nat -> (length l < k)%nat ->
            SkipStream_loop budget k {| skip_stream := s; skip_count := c |} = Some sk) /\
        ((skip_count sk = 0 /\
          drains (skip_stream sk) (skipn (Z.to_nat (c - 1)) l) s') \/
         (skip_stream sk = s' /\ (length l < Z.to_nat (c - 1))%nat)).
Proof.
  induction 1 as [s s' [k0 Hnext]|s s1 x l s' [k0 Hnext] Hfront D IH]; intros c Hc.
  - destruct (c - 1 =? 0) eqn:Hc1.
    + exists O, {| skip_stream := s; skip_count := 0 |}. split.
      * intros budget k _ Hk. destruct k as [|k]; [simpl in Hk; lia|].
        simpl. replace (c =? 0) with false by (symmetry; apply Z.eqb_neq; lia).
        rewrite size_wrap_small by lia. rewrite Hc1.
        apply Z.eqb_eq in Hc1. now rewrite Hc1.
      * left. split; [reflexivity|]. rewrite skipn_nil.
        apply drains_nil. now exists k0.
    + exists k0, {| skip_stream := s'; skip_count := c - 1 |}. split.
      * intros budget k Hb Hk. destruct k as [|k]; [simpl in Hk; lia|].
        simpl. replace (c =? 0) with false by (symmetry; apply Z.eqb_neq; lia).
        rewrite size_wrap_small by lia. rewrite Hc1.
        rewrite (Hnext budget Hb). reflexivity.
      * right. split; [reflexivity|]. apply Z.eqb_neq in Hc1. simpl. lia.
  - destruct (c - 1 =? 0) eqn:Hc1.
    + exists O, {| skip_stream := s; skip_count := 0 |}. split.
      * intros budget k _ Hk. destruct k as [|k]; [simpl in Hk; lia|].
        simpl. replace (c =? 0) with false by (symmetry; apply Z.eqb_neq; lia).
        rewrite size_wrap_small by lia. rewrite Hc1.
        apply Z.eqb_eq in Hc1. now rewrite Hc1.
      * left. split; [reflexivity|].
        apply Z.eqb_eq in Hc1. rewrite Hc1. simpl.
        apply drains_cons with (s1 := s1); [now exists k0|exact Hfront|exact D].
    + apply Z.eqb_neq in Hc1.
      destruct (IH (c - 1)) as (kb & sk & Hloop & Hsk); [lia|].
      exists (Nat.max k0 kb), sk. split.
      * intros budget k Hb Hk. destruct k as [|k]; [simpl in Hk; lia|].
        simpl. replace (c =? 0) with false by (symmetry; apply Z.eqb_neq; lia).
        rewrite size_wrap_small by lia.
        replace (c - 1 =? 0) with false by (symmetry; apply Z.eqb_neq; lia).
        rewrite (Hnext budget) by lia. simpl.
        apply Hloop; simpl in Hk; lia.
      * replace (Z.to_nat (c - 1)) with (S (Z.to_nat (c - 1 - 1))) by lia.
        simpl. destruct Hsk as [Hsk|[Hsk Hlen]]; [now left|right].
        split; [exact Hsk|lia].
Qed.

(** [skip(n)] for [n] below the largest [size_t] yields what follows the first
    [n] elements. *)
Lemma skip_drains (s : St) (l : list T) (s' : St) (n : Z) :
  drains s l s' ->
  exhausted s' ->
  0 <= n < size_max ->
  exists t' : SkipStream St, drains (skip n s) (skipn (Z.to_nat n) l) t'.
Proof.
  intros D [ke Hex] Hn. unfold skip, SkipStream_new.
  rewrite size_wrap_small by lia.
  destruct (SkipStream_loop_drains D (c := n + 1)) as (kb & [st cnt] & Hloop & Hsk);
    [lia|].
  replace (n + 1 - 1) with n in Hsk by lia. simpl in Hsk.
  destruct Hsk as [[-> D2]|[-> Hlen]].
  - inversion D2 as [s0 s0' [k0 Hnext] E1 E2|s0 s1 y rest s0' [k0 Hnext] Hfront D3 E1 E2];
      subst.
    + eexists. apply drains_nil.
      exists (Nat.max (Nat.max kb k0) (S (length l))). intros fuel Hfuel.
      simpl. unfold SkipStream_next. rewrite Hloop by lia. simpl.
      rewrite (Hnext fuel) by lia. reflexivity.
    + eexists.
      apply drains_cons with (s1 := {| skip_stream := s1; skip_count := 0 |});
        [|exact Hfront|exact (SkipStream_pass_through D3)].
      exists (Nat.max (Nat.max kb k0) (S (length l))). intros fuel Hfuel.
      simpl. unfold SkipStream_next. rewrite Hloop by lia. simpl.
      rewrite (Hnext fuel) by lia. reflexivity.
  - rewrite skipn_all2 by lia. eexists. apply drains_nil.
    exists (Nat.max (Nat.max kb ke) (S (length l))). intros fuel Hfuel.
    simpl. unfold SkipStream_next. rewrite Hloop by lia. simpl.
    rewrite (Hex fuel) by lia. reflexivity.
Qed.

(** The law of C6 where no counter wraps: [skip(n)] then [take(m)]
    yields [firstn m (skipn n l)], which has [min(m, L - n)] elements, none
    when [n] exceeds [L]. *)
Lemma skip_then_take (s : St) (l : list T) (s' : St) (n m : Z) :
  drains s l s' ->
  exhausted s' ->
  0 <= n < size_max ->
  0 <= m < size_max ->
  exists (yielded : list T) (t' : TakeStream (SkipStream St)),
    drains (take m (skip n s)) yielded t' /\
    yielded = firstn (Z.to_nat m) (skipn (Z.to_nat n) l) /\
    Z.of_nat (length yielded) = Z.max 0 (Z.min m (Z.of_nat (length l) - n)).
Proof.
  intros D Hex Hn Hm.
  destruct (skip_drains D Hex Hn) as [k' Dk].
  destruct (take_drains Dk Hm) as [t' Dt].
  exists (firstn (Z.to_nat m) (skipn (Z.to_nat n) l)), t'.
  split; [exact Dt|]. split; [reflexivity|].
  rewrite length_firstn, length_skipn. lia.
Qed.
End Skip.

(** C5, the code where it departs from the specification.  For [n] the largest
    value of [size_t], [take(n)] then count returns the counter as it was
    given, whatever the length of the source; the specification has
    [min(n, L)] increments, which is [L]. *)
Theorem take_size_max_counts_nothing :
  forall (w : size_width) (T : Type) (l : list T)
         (C : Type) (incr : C -> C) (counter : C) (fuel : nat),
    CountBuilder_build incr counter (S fuel) (take size_max (from l))
    = Some (Returned counter, take size_max (from l)).
Proof.
  intros w T l C incr counter fuel.
  unfold CountBuilder_build. simpl. unfold TakeStream_next. simpl.
  rewrite size_wrap_max_succ. reflexivity.
Qed.

Section TakeExamples.
#[local] Existing Instance size_t_64.

(** C5 at the failing input, [size_t] of 64 bits: three elements, none
    counted. *)
Lemma take_size_max_counts_nothing_example :
  CountBuilder_build Z.succ 0 4
    (take (2 ^ 64 - 1) (from [1; 2; 3]))
  = Some (Returned 0, take (2 ^ 64 - 1) (from [1; 2; 3])) /\
  Z.min (2 ^ 64 - 1) (Z.of_nat (length [1; 2; 3])) = 3.
Proof. split; reflexivity. Qed.

(** C5 away from the failing input: [take(2)] and [take(5)] of three
    elements. *)
Lemma take_then_count_example :
  exists t2 t5,
    returns (fun fuel => CountBuilder_build Z.succ 0 fuel
                           (take 2 (from [1; 2; 3])))
            (Returned 2, t2) /\
    returns (fun fuel => CountBuilder_build Z.succ 0 fuel
                           (take 5 (from [1; 2; 3])))
            (Returned 3, t5).
Proof.
  destruct (from_drains [1; 2; 3]) as (s' & D & _).
  destruct (take_then_count Z.succ 0 (n := 2) D) as [t2 H2];
    [unfold size_max; simpl; lia|].
  destruct (take_then_count Z.succ 0 (n := 5) D) as [t5 H5];
    [unfold size_max; simpl; lia|].
  exists t2, t5. split; assumption.
Qed.
End TakeExamples.

(** C6, the code where it departs from the specification.  For [n] the largest
    value of [size_t], [skip(n)] skips nothing: it yields all that its upstream
    yields, where the specification has [max(0, min(m, L - n))], which is 0.  For [m]
    the largest value of [size_t], [take(m)] after any [skip(n)] yields
    nothing, where the specification has [min(m, L - n)], which is [L - n]. *)
Theorem skip_take_at_size_max :
  forall (w : size_width) (St T : Type) (inst : Stream St T)
         (s : St) (l : list T) (s' : St),
    drains s l s' ->
    drains (skip size_max s) l {| skip_stream := s'; skip_count := 0 |} /\
    (forall n : Z, drains (take size_max (skip n s)) [] (take size_max (skip n s))).
Proof.
  intros w St T inst s l s' D. split.
  - unfold skip, SkipStream_new. rewrite size_wrap_max_succ.
    now apply SkipStream_pass_through.
  - intros n. apply drains_nil. exists O. intros fuel _.
    simpl. unfold TakeStream_next. simpl. rewrite size_wrap_max_succ. reflexivity.
Qed.

Section SkipExamples.
#[local] Existing Instance size_t_64.

(** C6 at the failing inputs, [size_t] of 64 bits and the source
    [{1, 2, 3}]: [skip(2^64 - 1)] then [take(2)] yields [1, 2], and [skip(1)]
    then [take(2^64 - 1)] yields nothing. *)
Lemma skip_take_at_size_max_witness :
  let l := [1; 2; 3] in
  let s' := {| it_range := l; it_current := 2%nat; it_upcoming := 3%nat;
               it_last := 3%nat; it_unchecked := false |} in
  (drains (skip (2 ^ 64 - 1) (from l)) l
          {| skip_stream := s'; skip_count := 0 |} /\
   forall n : Z,
     drains (take (2 ^ 64 - 1) (skip n (from l))) []
            (take (2 ^ 64 - 1) (skip n (from l)))) /\
  collect [] (fun c x => c ++ [x]) 4
    (take 2 (skip (2 ^ 64 - 1) (from l)))
  = Some (Returned [1; 2],
          {| take_stream := {| skip_stream :=
                                 {| it_range := l; it_current := 1%nat;
                                    it_upcoming := 2%nat; it_last := 3%nat;
                                    it_unchecked := false |};
                               skip_count := 0 |};
             take_count := 0 |}) /\
  Z.max 0 (Z.min 2 (3 - (2 ^ 64 - 1))) = 0 /\
  collect [] (fun c x => c ++ [x]) 4
    (take (2 ^ 64 - 1) (skip 1 (from l)))
  = Some (Returned [],
          take (2 ^ 64 - 1) (skip 1 (from l))) /\
  Z.max 0 (Z.min (2 ^ 64 - 1) (3 - 1)) = 2.
Proof.
  intros l s'. split; [|repeat split; reflexivity].
  apply (@skip_take_at_size_max size_t_64 _ _ _ (from l) l s').
  drain_source.
Defined.

(** C6 away from the failing inputs: [skip(1)] then [take(5)], and [skip(0)]
    then [take(0)], of three elements. *)
Lemma skip_then_take_example :
  collect [] (fun c x => c ++ [x]) 4
    (take 5 (skip 1 (from [1; 2; 3])))
  = Some (Returned [2; 3],
          {| take_stream := {| skip_stream :=
                                 {| it_range := [1; 2; 3]; it_current := 2%nat;
                                    it_upcoming := 3%nat; it_last := 3%nat;
                                    it_unchecked := false |};
                               skip_count := 0 |};
             take_count := 3 |}) /\
  collect [] (fun c x => c ++ [x]) 4
    (take 0 (skip 0 (from [1; 2; 3])))
  = Some (Returned [],
          {| take_stream := skip 0 (from [1; 2; 3]);
             take_count := 0 |}).
Proof. split; reflexivity. Qed.
End SkipExamples.

(** ** Sort *)

Section StableSort.
Context {T : Type} (comp : T -> T -> bool).

Lemma stable_insert_permutation (x : T) (l : list T) :
  Permutation (stable_insert comp x l) (x :: l).
Proof.
  induction l as [|y l IH]; simpl; [reflexivity|].
  destruct (comp y x); [|reflexivity].
  rewrite IH. apply perm_swap.
Qed.

Lemma stable_sort_permutation (l : list T) : Permutation (stable_sort comp l) l.
Proof.
  induction l as [|x l IH]; simpl; [reflexivity|].
  rewrite stable_insert_permutation. now apply perm_skip.
Qed.

Lemma stable_sort_length (l : list T) : length (stable_sort comp l) = length l.
Proof. apply Permutation_length, stable_sort_permutation. Qed.

Context (SWO : StrictWeakOrder comp).

Lemma equivalent_symmetric (a b : T) : equivalent comp a b = equivalent comp b a.
Proof. unfold equivalent. apply andb_comm. Qed.

Lemma stable_insert_sorted (x : T) (l : list T) :
  StronglySorted (fun a b => comp b a = false) l ->
  StronglySorted (fun a b => comp b a = false) (stable_insert comp x l).
Proof.
  induction 1 as [|y l Hsorted IH Hy]; simpl.
  - constructor; constructor.
  - destruct (comp y x) eqn:Hyx.
    + constructor; [exact IH|].
      apply (Permutation_Forall (Permutation_sym (stable_insert_permutation x l))).
      constructor; [|exact Hy].
      now apply (swo_asymmetric SWO).
    + constructor; [now constructor|].
      constructor; [exact Hyx|].
      apply Forall_forall. intros z Hz.
      rewrite Forall_forall in Hy.
      apply (swo_not_less_transitive SWO z y x); auto.
Qed.

Lemma stable_sort_sorted (l : list T) :
  StronglySorted (fun a b => comp b a = false) (stable_sort comp l).
Proof.
  induction l as [|x l IH]; simpl; [constructor|].
  now apply stable_insert_sorted.
Qed.

(** Inserting [x] changes the order of no two equivalent elements: among the
    elements equivalent to any [a], [x] comes first and the rest is as it
    was. *)
Lemma stable_insert_stable (a x : T) (l : list T) :
  filter (equivalent comp a) (stable_insert comp x l)
  = filter (equivalent comp a) (x :: l).
Proof.
  induction l as [|y l IH]; [reflexivity|].
  cbn [stable_insert]. destruct (comp y x) eqn:Hyx; [|reflexivity].
  cbn [filter] in *. rewrite IH.
  destruct (equivalent comp a x) eqn:Hax; [|reflexivity].
  destruct (equivalent comp a y) eqn:Hay; [|reflexivity].
  exfalso.
  rewrite equivalent_symmetric in Hay.
  pose proof (swo_equivalent_transitive SWO _ _ _ Hay Hax) as Hyx'.
  unfold equivalent in Hyx'. rewrite Hyx in Hyx'. discriminate.
Qed.

Lemma stable_sort_stable (a : T) (l : list T) :
  filter (equivalent comp a) (stable_sort comp l) = filter (equivalent comp a) l.
Proof.
  induction l as [|x l IH]; [reflexivity|].
  cbn [stable_sort fold_right]. rewrite stable_insert_stable.
  cbn [filter]. fold (stable_sort comp l). now rewrite IH.
Qed.
End StableSort.

Section Sort.
Context {w : size_width} {St T : Type} `{Stream St T} (comp : T -> T -> bool).

(** The filling loop appends what the upstream yields and stops on the
    upstream's first failure. *)
Lemma SortStream_fill_drains :
  forall (s : St) (l : list T) (s' : St),
    drains s l s' ->
    forall sorted : list T,
    exists kb : nat, forall budget k : nat,
        (kb <= budget)%nat -> (length l < k)%nat ->
        SortStream_fill budget k s sorted = Some (sorted ++ l, s').
Proof.
  induction 1 as [s s' [k0 Hnext]|s s1 x l s' [k0 Hnext] Hfront _ IH]; intros sorted.
  - exists k0. intros budget k Hb Hk.
    destruct k as [|k]; [simpl in Hk; lia|].
    simpl. rewrite (Hnext budget Hb). simpl. now rewrite app_nil_r.
  - destruct (IH (sorted ++ [x])) as [kb Hloop].
    exists (Nat.max k0 kb). intros budget k Hb Hk.
    destruct k as [|k]; [simpl in Hk; lia|].
    simpl. rewrite (Hnext budget) by lia. simpl. rewrite Hfront. simpl.
    rewrite Hloop by (simpl in Hk; lia).
    now rewrite <- app_assoc.
Qed.

Lemma SortStream_first_next (s : St) (l : list T) (s' : St) :
  drains s l s' ->
  Z.of_nat (length l) + 1 < size_max ->
  returns (fun fuel => next fuel (SortStream_new s comp))
          (Nat.ltb 0 (length l), SortStream_serving comp s' (stable_sort comp l) 0).
Proof.
  intros D Hlen. destruct (SortStream_fill_drains D []) as [kb Hfill].
  exists (Nat.max kb (S (length l))). intros fuel Hfuel.
  change (SortStream_next fuel (SortStream_new s comp)
          = Some (Nat.ltb 0 (length l), SortStream_serving comp s' (stable_sort comp l) 0)).
  unfold SortStream_next, SortStream_new, SortStream_serving.
  cbn [sort_current sort_stream sort_compare sort_sorted].
  rewrite Hfill by lia. cbn [Z.eqb bind app].
  rewrite (size_wrap_small (z := 0 + 1)) by lia.
  rewrite size_wrap_small by lia.
  rewrite stable_sort_length.
  f_equal. f_equal.
  destruct l; reflexivity.
Qed.

Lemma SortStream_serving_next (s' : St) (buffer : list T) (i : nat) (fuel : nat) :
  Z.of_nat (length buffer) + 1 < size_max ->
  (i <= length buffer)%nat ->
  next fuel (SortStream_serving comp s' buffer i)
  = Some (Nat.ltb (S i) (length buffer), SortStream_serving comp s' buffer (S i)).
Proof.
  intros Hlen Hi.
  change (SortStream_next fuel (SortStream_serving comp s' buffer i)
          = Some (Nat.ltb (S i) (length buffer), SortStream_serving comp s' buffer (S i))).
  unfold SortStream_next, SortStream_serving.
  cbn [sort_current sort_stream sort_compare sort_sorted].
  replace (Z.of_nat i + 1 =? 0) with false by (symmetry; apply Z.eqb_neq; lia).
  rewrite (size_wrap_small (z := Z.of_nat i + 1 + 1)) by lia.
  rewrite size_wrap_small by lia.
  f_equal. f_equal.
  - destruct (Nat.ltb_spec (S i) (length buffer)).
    + apply Z.ltb_lt. lia.
    + apply Z.ltb_ge. lia.
  - f_equal. lia.
Qed.

Lemma SortStream_serving_front (s' : St) (buffer : list T) (i : nat) :
  Z.of_nat (length buffer) + 1 < size_max ->
  (i <= length buffer)%nat ->
  front (SortStream_serving comp s' buffer i) = nth_error buffer i.
Proof.
  intros Hlen Hi.
  change (SortStream_front (SortStream_serving comp s' buffer i) = nth_error buffer i).
  unfold SortStream_front, SortStream_serving. cbn [sort_current sort_sorted].
  rewrite size_wrap_small by lia. f_equal. lia.
Qed.

(** After the first call the stream hands out the rest of the buffer, one
    element a call, and no call touches the upstream. *)
Lemma SortStream_serving_drains (s' : St) (buffer : list T) :
  Z.of_nat (length buffer) + 1 < size_max ->
  forall n i : nat,
    (S i + n = length buffer)%nat ->
    drains (SortStream_serving comp s' buffer i) (skipn (S i) buffer)
           (SortStream_serving comp s' buffer (length buffer)).
Proof.
  intros Hlen. induction n as [|n IH]; intros i Hn.
  - rewrite skipn_all2 by lia. apply drains_nil. exists O. intros fuel _.
    rewrite SortStream_serving_next by lia.
    replace (S i) with (length buffer) by lia.
    now rewrite Nat.ltb_irrefl.
  - destruct (nth_error buffer (S i)) as [x|] eqn:Hx.
    2: { apply nth_error_None in Hx. lia. }
    rewrite (skipn_nth_error _ _ Hx).
    apply drains_cons with (s1 := SortStream_serving comp s' buffer (S i)).
    + exists O. intros fuel _. rewrite SortStream_serving_next by lia.
      replace (Nat.ltb (S i) (length buffer)) with true
        by (symmetry; apply Nat.ltb_lt; lia).
      reflexivity.
    + rewrite SortStream_serving_front by lia. exact Hx.
    + apply IH. lia.
Qed.

Lemma SortStream_drains (s : St) (l : list T) (s' : St) :
  drains s l s' ->
  Z.of_nat (length l) + 1 < size_max ->
  drains (SortStream_new s comp) (stable_sort comp l)
         (SortStream_serving comp s' (stable_sort comp l) (length l)).
Proof.
  intros D Hlen.
  pose proof (SortStream_first_next D Hlen) as Hfirst.
  pose proof (stable_sort_length comp l) as Hsl.
  destruct (stable_sort comp l) as [|y buffer] eqn:Hbuffer.
  - destruct l; [|discriminate Hsl].
    apply drains_nil. exact Hfirst.
  - destruct l as [|x l]; [discriminate Hsl|].
    apply drains_cons with (s1 := SortStream_serving comp s' (y :: buffer) 0).
    + exact Hfirst.
    + rewrite SortStream_serving_front; [reflexivity|simpl in *; lia|simpl; lia].
    + rewrite <- Hsl.
      assert (Hlen' : Z.of_nat (length (y :: buffer)) + 1 < size_max)
        by (simpl in *; lia).
      apply (@SortStream_serving_drains s' (y :: buffer) Hlen' (length buffer) O).
      reflexivity.
Qed.
End Sort.

(** C7.  On an upstream that yields a finite sequence, and for a comparator
    that is a strict weak ordering, the first [next()] of [sort(comp)] drains
    the upstream to its end and sorts what it yielded; the stream then serves
    that buffer in order and fails after its last element.  The buffer is a
    permutation of what the upstream yielded, no element of it is less than an
    earlier one, and elements equivalent under [comp] keep the order in which
    the upstream yielded them.  (The buffer's length and one more fit in a
    [size_t], as for every [std::vector].) *)
Theorem sort_serves_stably_sorted :
  forall (w : size_width) (St T : Type) (inst : Stream St T) (comp : T -> T -> bool)
         (s : St) (l : list T) (s' : St),
    StrictWeakOrder comp ->
    drains s l s' ->
    Z.of_nat (length l) + 1 < size_max ->
    let sorted := stable_sort comp l in
    returns (fun fuel => next fuel (SortStream_new s comp))
            (Nat.ltb 0 (length l), SortStream_serving comp s' sorted 0) /\
    drains (SortStream_new s comp) sorted (SortStream_serving comp s' sorted (length l)) /\
    Permutation sorted l /\
    StronglySorted (fun a b => comp b a = false) sorted /\
    (forall a, filter (equivalent comp a) sorted = filter (equivalent comp a) l).
Proof.
  intros w St T inst comp s l s' SWO D Hlen sorted.
  split; [now apply SortStream_first_next|].
  split; [now apply SortStream_drains|].
  split; [apply stable_sort_permutation|].
  split; [now apply stable_sort_sorted|].
  intros a. now apply stable_sort_stable.
Qed.

Section SortExamples.
#[local] Existing Instance size_t_64.

(** C7, witness: four pairs sorted by their first component. *)
Lemma sort_serves_stably_sorted_witness :
  let l := [(1, 0); (0, 5); (0, 6); (1, 1)]%nat in
  let sorted := [(0, 5); (0, 6); (1, 0); (1, 1)]%nat in
  let s' := {| it_range := l; it_current := 3; it_upcoming := 4; it_last := 4;
               it_unchecked := false |} in
  returns (fun fuel => next fuel (SortStream_new (from l) by_first))
          (true, SortStream_serving by_first s' sorted 0) /\
  drains (SortStream_new (from l) by_first) sorted
         (SortStream_serving by_first s' sorted 4) /\
  Permutation sorted l /\
  StronglySorted (fun a b => by_first b a = false) sorted /\
  (forall a, filter (equivalent by_first a) sorted = filter (equivalent by_first a) l).
Proof.
  intros l sorted s'.
  apply (@sort_serves_stably_sorted size_t_64 _ _ _ by_first (from l) l s').
  - apply by_first_strict_weak_order.
  - drain_source.
  - unfold size_max. simpl. lia.
Defined.

(** Scenario 4 of the specification, on numbers: [{2, 1, 3, 1}] sorted with
    [std::less]. *)
Lemma sort_example :
  collect [] (fun c x => c ++ [x]) 5 (SortStream_new (from [2; 1; 3; 1]) Z.ltb)
  = Some (Returned [1; 1; 2; 3],
          SortStream_serving Z.ltb
            {| it_range := [2; 1; 3; 1]; it_current := 3%nat; it_upcoming := 4%nat;
               it_last := 4%nat; it_unchecked := false |}
            [1; 1; 2; 3] 4).
Proof. reflexivity. Qed.
End SortExamples.

(** ** Flattening *)

(** C8.  When the outer stream yields no inner stream, the [FlatStream] built
    of it has an empty buffer, its [endless()] is the [std::all_of] over
    nothing, which is true, and every builder that calls [throw_if_endless]
    throws on it, although its [next()] fails at once. *)
Theorem flat_of_nothing_is_endless :
  forall (w : size_width) (St Inner T : Type)
         (instO : Stream St Inner) (instI : Stream Inner T) (outer s' : St),
    drains outer [] s' ->
    let flat := {| flat_stream := outer; flat_streams := []; flat_current := 0 |} in
    returns (fun fuel => FlatStream_new fuel outer) flat /\
    endless flat = true /\
    (forall fuel : nat, guarded_builders_refuse fuel flat) /\
    (forall fuel n : nat, advance_n (S fuel) n flat = Some (repeat false n, flat)).
Proof.
  intros w St Inner T instO instI outer s' D flat.
  inversion D as [s0 s0' [k0 Hnext] E1 E2|]; subst.
  split; [|split; [reflexivity|split]].
  - exists (S k0). intros fuel Hfuel.
    destruct fuel as [|fuel]; [lia|].
    unfold FlatStream_new. simpl. rewrite (Hnext (S fuel)) by lia. reflexivity.
  - intros fuel. now apply endless_stream_is_refused.
  - intros fuel n.
    assert (Hfail : next (S fuel) flat = Some (false, flat)) by reflexivity.
    induction n as [|n IH]; [reflexivity|].
    rewrite (@advance_n_fails _ _ _ (S fuel) n flat flat Hfail), IH. reflexivity.
Qed.

(** C8, witness: [flat()] of a source of no sources. *)
Lemma flat_of_nothing_is_endless_witness :
  let outer := from (@nil (IteratorStream Z)) in
  let flat := {| flat_stream := outer; flat_streams := []; flat_current := 0 |} in
  returns (fun fuel => FlatStream_new fuel outer) flat /\
  endless (Stream := FlatStream_Stream (w := size_t_64)) flat = true /\
  (forall fuel : nat,
      guarded_builders_refuse (H := FlatStream_Stream (w := size_t_64)) fuel flat) /\
  (forall fuel n : nat,
      advance_n (H := FlatStream_Stream (w := size_t_64)) (S fuel) n flat
      = Some (repeat false n, flat)).
Proof.
  intros outer flat.
  apply (@flat_of_nothing_is_endless size_t_64 _ _ Z _ _ outer outer).
  drain_source.
Defined.

(** C10.  In [EndlessFlatStream::next], when the inner stream at hand is
    exhausted (or there is none yet), the outer stream yields another inner
    stream, and that one fails on its first [next()], the call returns false
    with [left] set.  That false is not final: when, on the call after it, the
    outer stream yields an inner stream whose first [next()] succeeds, that
    call returns true. *)
Theorem endless_flat_false_is_not_final :
  forall (St Inner T : Type) (instO : Stream St Inner) (ref : FrontRef St Inner)
         (instI : Stream Inner T) (e : EndlessFlatStream St) (fuel : nat)
         (s1 s2 s3 : St),
    (if eflat_left e then front_next fuel (eflat_stream e)
     else Some (false, eflat_stream e)) = Some (false, s1) ->
    next fuel s1 = Some (true, s2) ->
    front_next fuel s2 = Some (false, s3) ->
    next fuel e = Some (false, {| eflat_stream := s3; eflat_left := true |}) /\
    forall s4 s5 s6 : St,
      front_next fuel s3 = Some (false, s4) ->
      next fuel s4 = Some (true, s5) ->
      front_next fuel s5 = Some (true, s6) ->
      next fuel {| eflat_stream := s3; eflat_left := true |}
      = Some (true, {| eflat_stream := s6; eflat_left := true |}).
Proof.
  intros St Inner T instO ref instI e fuel s1 s2 s3 H1 H2 H3. split.
  - simpl. unfold EndlessFlatStream_next. rewrite H1. simpl.
    rewrite H2. simpl. rewrite H3. reflexivity.
  - intros s4 s5 s6 H4 H5 H6.
    simpl. unfold EndlessFlatStream_next. simpl. rewrite H4. simpl.
    rewrite H5. simpl. rewrite H6. reflexivity.
Qed.

(** C10, witness: [endless_flat()] over a vector of the sources [{1}], [{}]
    and [{2}], walked with [from_iterator(v.begin(), v.end())].  The second
    call of [next()] returns false on the empty source, the third returns true
    with 2 at the front. *)
Lemma endless_flat_false_is_not_final_witness :
  let e := EndlessFlatStream_new (from_iterator [from [1]; from []; from [2]] 0 3) in
  let e1 := after_next 1 e in
  let e2 := after_next 1 e1 in
  let e3 := after_next 1 e2 in
  next 1 e = Some (true, e1) /\
  next 1 e1 = Some (false, e2) /\
  eflat_left e2 = true /\
  next 1 e2 = Some (true, e3) /\
  front e3 = Some 2 /\
  trace 1 5 e
  = Some [(true, Some 1); (false, None); (true, Some 2); (false, None); (false, None)].
Proof.
  intros e e1 e2 e3.
  edestruct (@endless_flat_false_is_not_final _ _ Z _ _ _ e1 1%nat) as [Hfalse Hagain];
    [reflexivity|reflexivity|reflexivity|].
  split; [reflexivity|].
  split; [exact Hfalse|].
  split; [reflexivity|].
  split; [exact (Hagain _ _ _ eq_refl eq_refl eq_refl)|].
  split; reflexivity.
Defined.

(** * Further properties *)

(** ** Loops that skip elements *)

Lemma returns2_returns {A : Type} (f : nat -> nat -> option A) (a : A) :
  returns2 f a -> returns (fun fuel => f fuel fuel) a.
Proof.
  intros (kb & kk & Hf). exists (Nat.max kb kk). intros fuel Hfuel. apply Hf; lia.
Qed.

(** A stream drains [l] when its first [next()] fails and [l] is empty, or
    succeeds with the head of [l] at the front and the rest drains. *)
Lemma drains_of_head {St T : Type} `{Stream St T} (s : St) (l : list T) (s' : St)
    (r : bool * St) :
  returns (fun fuel => next fuel s) r ->
  match l with
  | [] => r = (false, s')
  | y :: rest => exists s1, r = (true, s1) /\ front s1 = Some y /\ drains s1 rest s'
  end ->
  drains s l s'.
Proof.
  intros Hr Hl. destruct l as [|y rest].
  - subst r. now apply drains_nil.
  - destruct Hl as (s1 & -> & Hfront & D). now apply drains_cons with (s1 := s1).
Qed.

Section Filter.
Context {St T : Type} `{Stream St T} (p : T -> bool).

Lemma FilterStream_head :
  forall (s : St) (l : list T) (s' : St),
    drains s l s' ->
    exists r : bool * FilterStream St T,
      returns2 (fun b k => FilterStream_loop b k (FilterStream_new s p)) r /\
      match filter p l with
      | [] => r = (false, FilterStream_new s' p)
      | y :: rest =>
          exists w1, r = (true, w1) /\ front w1 = Some y /\
                     drains w1 rest (FilterStream_new s' p)
      end.
Proof.
  induction 1 as [s s' [k0 Hnext]|s s1 x l s' [k0 Hnext] Hfront _ IH].
  - exists (false, FilterStream_new s' p). split; [|reflexivity].
    exists k0, 1%nat. intros b k Hb Hk. destruct k as [|k]; [lia|].
    simpl. now rewrite (Hnext b Hb).
  - destruct IH as (r1 & Hr1 & Hl). simpl. destruct (p x) eqn:Hp.
    + exists (true, FilterStream_new s1 p). split.
      * exists k0, 1%nat. intros b k Hb Hk. destruct k as [|k]; [lia|].
        simpl. rewrite (Hnext b Hb). simpl. rewrite Hfront. simpl. now rewrite Hp.
      * exists (FilterStream_new s1 p). split; [reflexivity|]. split; [exact Hfront|].
        apply drains_of_head with (r := r1); [exact (returns2_returns Hr1)|exact Hl].
    + exists r1. split; [|exact Hl].
      destruct Hr1 as (kb & kk & Hloop).
      exists (Nat.max k0 kb), (S kk). intros b k Hb Hk. destruct k as [|k]; [lia|].
      simpl. rewrite (Hnext b) by lia. simpl. rewrite Hfront. simpl. rewrite Hp.
      apply Hloop; lia.
Qed.

Lemma FilterStream_drains (s : St) (l : list T) (s' : St) :
  drains s l s' ->
  drains (FilterStream_new s p) (filter p l) (FilterStream_new s' p).
Proof.
  intros D. destruct (FilterStream_head D) as (r & Hr & Hl).
  apply drains_of_head with (r := r); [exact (returns2_returns Hr)|exact Hl].
Qed.
End Filter.

(** X1.  [filter(pred)] yields the elements of its upstream on which [pred]
    holds, in their order, and [filter(q)] after [filter(p)] yields what
    [filter] with both predicates yields. *)
Theorem filter_yields_matching :
  forall (St T : Type) (inst : Stream St T) (p q : T -> bool)
         (s : St) (l : list T) (s' : St),
    drains s l s' ->
    drains (FilterStream_new s p) (filter p l) (FilterStream_new s' p) /\
    drains (FilterStream_new (FilterStream_new s p) q)
           (filter (fun x => p x && q x) l)
           (FilterStream_new (FilterStream_new s' p) q).
Proof.
  intros St T inst p q s l s' D. split.
  - now apply FilterStream_drains.
  - replace (filter (fun x => p x && q x) l) with (filter q (filter p l)).
    + now apply FilterStream_drains, FilterStream_drains.
    + clear D. induction l as [|x l IH]; [reflexivity|].
      simpl. destruct (p x); simpl; [destruct (q x)|]; now rewrite IH.
Qed.

(** X1, witness: the even numbers of [{1, 2, 3, 4, 5}], and of them those
    above 2. *)
Lemma filter_yields_matching_witness :
  let l := [1; 2; 3; 4; 5] in
  let s' := {| it_range := l; it_current := 4%nat; it_upcoming := 5%nat;
               it_last := 5%nat; it_unchecked := false |} in
  drains (FilterStream_new (from l) Z.even) [2; 4] (FilterStream_new s' Z.even) /\
  drains (FilterStream_new (FilterStream_new (from l) Z.even) (Z.ltb 2)) [4]
         (FilterStream_new (FilterStream_new s' Z.even) (Z.ltb 2)).
Proof.
  intros l s'.
  apply (@filter_yields_matching _ _ _ Z.even (Z.ltb 2) (from l) l s').
  drain_source.
Defined.

Section Map.
Context {St T R : Type} `{Stream St T} (f : T -> option R).

Lemma MapStream_head :
  forall (s : St) (l : list T) (s' : St),
    drains s l s' ->
    forall c : option R,
    exists (final : MapStream St T R) (r : bool * MapStream St T R),
      map_stream final = s' /\
      returns2 (fun b k => MapStream_loop b k
                  {| map_stream := s; map_pred := f; map_cache_value := c |}) r /\
      match map_present f l with
      | [] => r = (false, final)
      | y :: rest =>
          exists w1, r = (true, w1) /\ front w1 = Some y /\ drains w1 rest final
      end.
Proof.
  induction 1 as [s s' [k0 Hnext]|s s1 x l s' [k0 Hnext] Hfront _ IH]; intros c.
  - exists {| map_stream := s'; map_pred := f; map_cache_value := c |}.
    eexists. split; [reflexivity|]. split; [|reflexivity].
    exists k0, 1%nat. intros b k Hb Hk. destruct k as [|k]; [lia|].
    simpl. now rewrite (Hnext b Hb).
  - destruct (IH (f x)) as (final & r1 & Hfinal & Hr1 & Hl).
    simpl. destruct (f x) as [v|] eqn:Hf.
    + exists final, (true, {| map_stream := s1; map_pred := f; map_cache_value := Some v |}).
      split; [exact Hfinal|]. split.
      * exists k0, 1%nat. intros b k Hb Hk. destruct k as [|k]; [lia|].
        simpl. rewrite (Hnext b Hb). simpl. rewrite Hfront. simpl. now rewrite Hf.
      * eexists. split; [reflexivity|]. split; [reflexivity|].
        apply drains_of_head with (r := r1); [exact (returns2_returns Hr1)|exact Hl].
    + exists final, r1. split; [exact Hfinal|]. split; [|exact Hl].
      destruct Hr1 as (kb & kk & Hloop).
      exists (Nat.max k0 kb), (S kk). intros b k Hb Hk. destruct k as [|k]; [lia|].
      simpl. rewrite (Hnext b) by lia. simpl. rewrite Hfront. simpl. rewrite Hf.
      apply Hloop; lia.
Qed.

Lemma MapStream_drains (s : St) (l : list T) (s' : St) :
  drains s l s' ->
  exists final : MapStream St T R,
    drains (MapStream_new s f) (map_present f l) final /\ map_stream final = s'.
Proof.
  intros D. destruct (MapStream_head D None) as (final & r & Hfinal & Hr & Hl).
  exists final. split; [|exact Hfinal].
  apply drains_of_head with (r := r); [exact (returns2_returns Hr)|exact Hl].
Qed.
End Map.

Lemma map_present_compose {T R Q : Type} (f : T -> option R) (g : R -> option Q)
    (l : list T) :
  map_present g (map_present f l) = map_present (fun x => bind (f x) g) l.
Proof.
  induction l as [|x l IH]; [reflexivity|].
  simpl. destruct (f x) as [v|]; simpl; [destruct (g v)|]; now rewrite IH.
Qed.

Lemma map_present_total {T R : Type} (f : T -> R) (l : list T) :
  map_present (fun x => Some (f x)) l = map f l.
Proof. induction l as [|x l IH]; [reflexivity|]. simpl. now rewrite IH. Qed.

(** X2.  [map(pred)] yields the results of [pred] on the elements of its
    upstream that are not absent, in their order: an absent result is skipped.
    [map(g)] after [map(f)] yields what [map] with [g] applied to the results
    of [f] yields, and for functions that return no optional, [map] yields
    the list mapped. *)
Theorem map_yields_present_results :
  forall (St T R Q : Type) (inst : Stream St T) (f : T -> option R) (g : R -> option Q)
         (h : T -> R) (s : St) (l : list T) (s' : St),
    drains s l s' ->
    (exists final, drains (MapStream_new s f) (map_present f l) final /\
                   map_stream final = s') /\
    (exists final, drains (MapStream_new (MapStream_new s f) g)
                          (map_present (fun x => bind (f x) g) l) final /\
                   map_stream (map_stream final) = s') /\
    (exists final, drains (MapStream_new s (fun x => Some (h x))) (map h l) final /\
                   map_stream final = s').
Proof.
  intros St T R Q inst f g h s l s' D. split; [|split].
  - now apply MapStream_drains.
  - destruct (MapStream_drains f D) as (final1 & D1 & H1).
    destruct (MapStream_drains g D1) as (final2 & D2 & H2).
    exists final2. rewrite <- map_present_compose. split; [exact D2|].
    now rewrite H2.
  - rewrite <- map_present_total. now apply MapStream_drains.
Qed.

(** X2, witness: scenario 1 of the specification, [{1, 2, 3, 4, 5}] filtered
    for the even numbers by a function that is absent on the odd ones, then
    multiplied by 10. *)
Lemma map_yields_present_results_witness :
  let l := [1; 2; 3; 4; 5] in
  let s' := {| it_range := l; it_current := 4%nat; it_upcoming := 5%nat;
               it_last := 5%nat; it_unchecked := false |} in
  let even x := if Z.even x then Some x else None in
  let tenfold x := Some (10 * x) in
  (exists final, drains (MapStream_new (from l) even) [2; 4] final /\
                 map_stream final = s') /\
  (exists final, drains (MapStream_new (MapStream_new (from l) even) tenfold)
                        [20; 40] final /\
                 map_stream (map_stream final) = s') /\
  (exists final, drains (MapStream_new (from l) (fun x => Some (10 * x)))
                        [10; 20; 30; 40; 50] final /\
                 map_stream final = s').
Proof.
  intros l s' even tenfold.
  apply (@map_yields_present_results _ _ _ _ _ even tenfold (Z.mul 10) (from l) l s').
  drain_source.
Defined.

(** ** Take-while and skip-while *)

Section TakeWhile.
Context {St T : Type} `{Stream St T} (p : T -> bool).

(** Once [left] is false, [next()] fails and touches nothing. *)
Lemma TakeWhileStream_latched (st : St) (fuel : nat) :
  next fuel {| tw_stream := st; tw_pred := p; tw_left := false |}
  = Some (false, {| tw_stream := st; tw_pred := p; tw_left := false |}).
Proof. reflexivity. Qed.

Lemma TakeWhileStream_drains :
  forall (s : St) (l : list T) (s' : St),
    drains s l s' ->
    exists final : TakeWhileStream St T,
      drains (TakeWhileStream_new s p) (take_while_list p l) final /\
      tw_left final = false /\
      tw_pred final = p /\
      match skip_while_list p l with
      | [] => tw_stream final = s'
      | _ :: rest => drains (tw_stream final) rest s'
      end.
Proof.
  induction 1 as [s s' [k0 Hnext]|s s1 x l s' [k0 Hnext] Hfront D IH].
  - exists {| tw_stream := s'; tw_pred := p; tw_left := false |}.
    split; [|repeat split].
    apply drains_nil. exists k0. intros fuel Hfuel.
    simpl. unfold TakeWhileStream_next. simpl. now rewrite (Hnext fuel Hfuel).
  - simpl. destruct (p x) eqn:Hp.
    + destruct IH as (final & Dw & Hleft & Hpred & Hrest).
      exists final. split; [|repeat split; assumption].
      apply drains_cons with (s1 := TakeWhileStream_new s1 p); [|exact Hfront|exact Dw].
      exists k0. intros fuel Hfuel.
      simpl. unfold TakeWhileStream_next. simpl. rewrite (Hnext fuel Hfuel). simpl.
      rewrite Hfront. simpl. now rewrite Hp.
    + exists {| tw_stream := s1; tw_pred := p; tw_left := false |}.
      split; [|repeat split; exact D].
      apply drains_nil. exists k0. intros fuel Hfuel.
      simpl. unfold TakeWhileStream_next. simpl. rewrite (Hnext fuel Hfuel). simpl.
      rewrite Hfront. simpl. now rewrite Hp.
Qed.
End TakeWhile.

(** X3.  [take_while(pred)] yields the longest prefix of its upstream on which
    [pred] holds.  It then stays failed: every later [next()] returns false
    and leaves the stream, and so the upstream, as it is.  The element on
    which [pred] failed was taken from the upstream and is not yielded: the
    upstream is left after it. *)
Theorem take_while_yields_prefix :
  forall (St T : Type) (inst : Stream St T) (p : T -> bool)
         (s : St) (l : list T) (s' : St),
    drains s l s' ->
    exists final : TakeWhileStream St T,
      drains (TakeWhileStream_new s p) (take_while_list p l) final /\
      (forall fuel n : nat, advance_n fuel n final = Some (repeat false n, final)) /\
      match skip_while_list p l with
      | [] => tw_stream final = s'
      | _ :: rest => drains (tw_stream final) rest s'
      end.
Proof.
  intros St T inst p s l s' D.
  destruct (TakeWhileStream_drains p D) as ([st q left] & Dw & Hleft & Hpred & Hrest).
  simpl in Hleft, Hpred. subst left q.
  eexists. split; [exact Dw|]. split; [|exact Hrest].
  intros fuel n. induction n as [|n IH]; [reflexivity|].
  rewrite (@advance_n_fails _ _ _ fuel n _ _ (TakeWhileStream_latched p st fuel)), IH.
  reflexivity.
Qed.

(** X3, witness: [{1, 2, 5, 1, 7}] while below 3. *)
Lemma take_while_yields_prefix_witness :
  let l := [1; 2; 5; 1; 7] in
  let s' := {| it_range := l; it_current := 4%nat; it_upcoming := 5%nat;
               it_last := 5%nat; it_unchecked := false |} in
  exists final : TakeWhileStream (IteratorStream Z) Z,
    drains (TakeWhileStream_new (from l) (fun x => x <? 3)) [1; 2] final /\
    (forall fuel n : nat, advance_n fuel n final = Some (repeat false n, final)) /\
    drains (tw_stream final) [1; 7] s'.
Proof.
  intros l s'.
  apply (@take_while_yields_prefix _ _ _ (fun x => x <? 3) (from l) l s').
  drain_source.
Defined.

Section SkipWhile.
Context {St T : Type} `{Stream St T} (p : T -> bool).

(** Once [left] is false, a [SkipWhileStream] hands every call to its
    upstream. *)
Lemma SkipWhileStream_pass_through :
  forall (s : St) (l : list T) (s' : St),
    drains s l s' ->
    drains {| sw_stream := s; sw_pred := p; sw_left := false |} l
           {| sw_stream := s'; sw_pred := p; sw_left := false |}.
Proof.
  induction 1 as [s s' [k0 Hnext]|s s1 x l s' [k0 Hnext] Hfront _ IH].
  - apply drains_nil. exists (S k0). intros fuel Hfuel.
    destruct fuel as [|fuel]; [lia|].
    simpl. unfold SkipWhileStream_next. simpl.
    rewrite (Hnext (S fuel)) by lia. reflexivity.
  - apply drains_cons
      with (s1 := {| sw_stream := s1; sw_pred := p; sw_left := false |});
      [|exact Hfront|exact IH].
    exists (S k0). intros fuel Hfuel.
    destruct fuel as [|fuel]; [lia|].
    simpl. unfold SkipWhileStream_next. simpl.
    rewrite (Hnext (S fuel)) by lia. reflexivity.
Qed.

Lemma SkipWhileStream_head :
  forall (s : St) (l : list T) (s' : St),
    drains s l s' ->
    exists r : bool * SkipWhileStream St T,
      returns2 (fun b k => SkipWhileStream_loop b k (SkipWhileStream_new s p)) r /\
      match skip_while_list p l with
      | [] => r = (false, {| sw_stream := s'; sw_pred := p; sw_left := false |})
      | y :: rest =>
          exists w1, r = (true, w1) /\ front w1 = Some y /\
                     drains w1 rest {| sw_stream := s'; sw_pred := p; sw_left := false |}
      end.
Proof.
  induction 1 as [s s' [k0 Hnext]|s s1 x l s' [k0 Hnext] Hfront D IH].
  - eexists. split; [|reflexivity].
    exists k0, 1%nat. intros b k Hb Hk. destruct k as [|k]; [lia|].
    simpl. now rewrite (Hnext b Hb).
  - simpl. destruct (p x) eqn:Hp.
    + destruct IH as (r1 & (kb & kk & Hloop) & Hl).
      exists r1. split; [|exact Hl].
      exists (Nat.max k0 kb), (S kk). intros b k Hb Hk. destruct k as [|k]; [lia|].
      simpl. rewrite (Hnext b) by lia. simpl. rewrite Hfront. simpl. rewrite Hp.
      apply Hloop; lia.
    + exists (true, {| sw_stream := s1; sw_pred := p; sw_left := false |}). split.
      * exists k0, 1%nat. intros b k Hb Hk. destruct k as [|k]; [lia|].
        simpl. rewrite (Hnext b Hb). simpl. rewrite Hfront. simpl. now rewrite Hp.
      * eexists. split; [reflexivity|]. split; [exact Hfront|].
        now apply SkipWhileStream_pass_through.
Qed.

Lemma SkipWhileStream_drains (s : St) (l : list T) (s' : St) :
  drains s l s' ->
  drains (SkipWhileStream_new s p) (skip_while_list p l)
         {| sw_stream := s'; sw_pred := p; sw_left := false |}.
Proof.
  intros D. destruct (SkipWhileStream_head D) as (r & Hr & Hl).
  apply drains_of_head with (r := r); [exact (returns2_returns Hr)|exact Hl].
Qed.
End SkipWhile.

Lemma take_while_skip_while_list {T : Type} (p : T -> bool) (l : list T) :
  take_while_list p l ++ skip_while_list p l = l.
Proof.
  induction l as [|x l IH]; [reflexivity|].
  simpl. destruct (p x); [simpl; now rewrite IH|reflexivity].
Qed.

(** X4.  [skip_while(pred)] yields what is left of its upstream from the first
    element on which [pred] fails, that element included; what it drops and
    what it yields make up the upstream's sequence, and when [pred] holds on
    every element it yields nothing. *)
Theorem skip_while_yields_rest :
  forall (St T : Type) (inst : Stream St T) (p : T -> bool)
         (s : St) (l : list T) (s' : St),
    drains s l s' ->
    drains (SkipWhileStream_new s p) (skip_while_list p l)
           {| sw_stream := s'; sw_pred := p; sw_left := false |} /\
    take_while_list p l ++ skip_while_list p l = l /\
    (forallb p l = true -> skip_while_list p l = []).
Proof.
  intros St T inst p s l s' D. split; [now apply SkipWhileStream_drains|].
  split; [apply take_while_skip_while_list|].
  clear D. induction l as [|x l IH]; [reflexivity|].
  simpl. destruct (p x); [exact IH|discriminate].
Qed.

(** X4, witness: [{1, 2, 5, 1, 7}] skipped while below 3. *)
Lemma skip_while_yields_rest_witness :
  let l := [1; 2; 5; 1; 7] in
  let s' := {| it_range := l; it_current := 4%nat; it_upcoming := 5%nat;
               it_last := 5%nat; it_unchecked := false |} in
  drains (SkipWhileStream_new (from l) (fun x => x <? 3)) [5; 1; 7]
         {| sw_stream := s'; sw_pred := fun x => x <? 3; sw_left := false |} /\
  [1; 2] ++ [5; 1; 7] = l.
Proof.
  intros l s'.
  assert (D : drains (from l) l s') by drain_source.
  destruct (@skip_while_yields_rest _ _ _ (fun x => x <? 3) (from l) l s' D)
    as (Hyields & Hparts & _).
  split; [exact Hyields|exact Hparts].
Defined.

(** ** Reverse *)

Section Reverse.
Context {w : size_width} {St T : Type} `{Stream St T}.





End Reverse.


Section ReverseExamples.
#[local] Existing Instance size_t_64.


(** [reverse()] of [iota(0, 1)] throws; [sort()] of it does not, and is
    refused only by the terminal builder. *)
Example reverse_of_endless :
  reverse (iota 0 1) = Thrown endless_stream_exception /\
  endless (sort Z.ltb (iota 0 1)) = true.
Proof. split; reflexivity. Qed.
End ReverseExamples.

(** ** Peek *)

Lemma PeekStream_drains {St T E : Type} `{Stream St T} (peeker : T -> E -> E) :
  forall (s : St) (l : list T) (s' : St),
    drains s l s' ->
    forall env : E,
      drains (PeekStream_new s peeker env) l
             (PeekStream_new s' peeker (fold_left (fun e x => peeker x e) l env)).
Proof.
  induction 1 as [s s' [k0 Hnext]|s s1 x l s' [k0 Hnext] Hfront _ IH]; intros env.
  - apply drains_nil. exists k0. intros fuel Hfuel.
    simpl. unfold PeekStream_next. simpl. now rewrite (Hnext fuel Hfuel).
  - apply drains_cons with (s1 := PeekStream_new s1 peeker (peeker x env));
      [|exact Hfront|apply IH].
    exists k0. intros fuel Hfuel.
    simpl. unfold PeekStream_next. simpl. rewrite (Hnext fuel Hfuel). simpl.
    now rewrite Hfront.
Qed.

(** X7.  [peek(peeker)] yields what its upstream yields, unchanged, and has
    called the peeker once on every element, in their order, when the stream
    is drained; a stream that is built and not advanced has not called it. *)
Theorem peek_passes_and_calls :
  forall (St T E : Type) (inst : Stream St T) (peeker : T -> E -> E) (env : E)
         (s : St) (l : list T) (s' : St),
    drains s l s' ->
    peek_env (PeekStream_new s peeker env) = env /\
    drains (PeekStream_new s peeker env) l
           (PeekStream_new s' peeker (fold_left (fun e x => peeker x e) l env)).
Proof.
  intros St T E inst peeker env s l s' D. split; [reflexivity|].
  now apply PeekStream_drains.
Qed.

(** X7, witness: a peeker that appends what it sees to a log. *)
Lemma peek_passes_and_calls_witness :
  let l := [1; 2; 3] in
  let s' := {| it_range := l; it_current := 2%nat; it_upcoming := 3%nat;
               it_last := 3%nat; it_unchecked := false |} in
  let log (x : Z) (e : list Z) := e ++ [x] in
  peek_env (PeekStream_new (from l) log []) = [] /\
  drains (PeekStream_new (from l) log []) l (PeekStream_new s' log [1; 2; 3]).
Proof.
  intros l s' log.
  apply (@peek_passes_and_calls _ _ _ _ log [] (from l) l s').
  drain_source.
Defined.

(** ** Distinct *)

Section FirstOccurrences.
Context {T : Type} (comp : T -> T -> bool).

Lemma existsb_permutation (q : T -> bool) (l l' : list T) :
  Permutation l l' -> existsb q l = existsb q l'.
Proof.
  intros P. destruct (existsb q l') eqn:E'.
  - apply existsb_exists in E' as (x & Hin & Hq).
    apply existsb_exists. exists x. split; [|exact Hq].
    now apply (Permutation_in _ (Permutation_sym P)).
  - destruct (existsb q l) eqn:E; [|reflexivity].
    apply existsb_exists in E as (x & Hin & Hq).
    rewrite <- E'. symmetry. apply existsb_exists. exists x. split; [|exact Hq].
    now apply (Permutation_in _ P).
Qed.

(** What is yielded is equivalent to nothing seen before. *)
Lemma first_occurrences_not_seen :
  forall (l seen : list T) (y : T),
    In y (first_occurrences comp seen l) ->
    existsb (equivalent comp y) seen = false.
Proof.
  induction l as [|x l IH]; intros seen y; simpl; [intros []|].
  destruct (existsb (equivalent comp x) seen) eqn:Hx.
  - apply IH.
  - intros [<-|Hin]; [exact Hx|].
    apply IH in Hin. simpl in Hin. now apply orb_false_elim in Hin.
Qed.

(** No element yielded is equivalent to an element yielded before it. *)
Lemma first_occurrences_distinct :
  forall l seen : list T,
    ForallOrdPairs (fun a b => equivalent comp b a = false)
                   (first_occurrences comp seen l).
Proof.
  induction l as [|x l IH]; intros seen; simpl; [constructor|].
  destruct (existsb (equivalent comp x) seen); [apply IH|].
  constructor; [|apply IH].
  apply Forall_forall. intros b Hb.
  apply first_occurrences_not_seen in Hb. simpl in Hb.
  now apply orb_false_elim in Hb.
Qed.

(** Every element is equivalent to something seen before or yielded. *)
Lemma first_occurrences_cover :
  (forall a, comp a a = false) ->
  forall (l seen : list T) (x : T),
    In x l ->
    exists y, In y (seen ++ first_occurrences comp seen l) /\
              equivalent comp x y = true.
Proof.
  intros Hirr. induction l as [|x0 l IH]; intros seen x; simpl; [intros []|].
  intros [<-|Hin].
  - destruct (existsb (equivalent comp x0) seen) eqn:Hx.
    + apply existsb_exists in Hx as (y & Hy & Heq).
      exists y. split; [apply in_or_app; now left|exact Heq].
    + exists x0. split; [apply in_or_app; right; now left|].
      unfold equivalent. now rewrite Hirr.
  - destruct (existsb (equivalent comp x0) seen) eqn:Hx.
    + now apply IH.
    + destruct (IH (x0 :: seen) x Hin) as (y & Hy & Heq).
      exists y. split; [|exact Heq].
      apply in_app_or in Hy as [[<-|Hy]|Hy]; apply in_or_app.
      * right. now left.
      * now left.
      * right. now right.
Qed.
End FirstOccurrences.

Section Distinct.
Context {St T : Type} `{Stream St T} (comp : T -> T -> bool).

Lemma DistinctStream_head :
  forall (s : St) (l : list T) (s' : St),
    drains s l s' ->
    forall (set seen : list T) (c : option T),
      Permutation set seen ->
      exists (final : DistinctStream St T (list T)) (r : bool * DistinctStream St T (list T)),
        distinct_stream final = s' /\
        returns2 (fun b k => DistinctStream_loop b k
                    {| distinct_stream := s; distinct_insert := std_set_insert comp;
                       distinct_set := set; distinct_current := c |}) r /\
        match first_occurrences comp seen l with
        | [] => r = (false, final)
        | y :: rest =>
            exists w1, r = (true, w1) /\ front w1 = Some y /\ drains w1 rest final
        end.
Proof.
  induction 1 as [s s' [k0 Hnext]|s s1 x l s' [k0 Hnext] Hfront _ IH];
    intros set seen c P.
  - eexists. eexists. split; [|split; [|reflexivity]].
    2: { exists k0, 1%nat. intros b k Hb Hk. destruct k as [|k]; [lia|].
         simpl. now rewrite (Hnext b Hb). }
    reflexivity.
  - simpl. rewrite <- (existsb_permutation (equivalent comp x) P).
    destruct (existsb (equivalent comp x) set) eqn:Hx.
    + destruct (IH set seen c P) as (final & r1 & Hfinal & (kb & kk & Hloop) & Hl).
      exists final, r1. split; [exact Hfinal|]. split; [|exact Hl].
      exists (Nat.max k0 kb), (S kk). intros b k Hb Hk. destruct k as [|k]; [lia|].
      simpl. rewrite (Hnext b) by lia. simpl. rewrite Hfront. simpl.
      unfold std_set_insert at 1. rewrite Hx. apply Hloop; lia.
    + assert (P' : Permutation (stable_insert comp x set) (x :: seen)).
      { rewrite stable_insert_permutation. now apply perm_skip. }
      destruct (IH _ _ (Some x) P') as (final & r1 & Hfinal & Hr1 & Hl).
      exists final. eexists. split; [exact Hfinal|]. split.
      * exists k0, 1%nat. intros b k Hb Hk. destruct k as [|k]; [lia|].
        simpl. rewrite (Hnext b Hb). simpl. rewrite Hfront. simpl.
        unfold std_set_insert at 1. rewrite Hx. reflexivity.
      * eexists. split; [reflexivity|]. split; [reflexivity|].
        apply drains_of_head with (r := r1); [exact (returns2_returns Hr1)|exact Hl].
Qed.
End Distinct.

(** X6.  [distinct(set)], given an empty [std::set] ordered by [comp], yields
    the elements of its upstream that are equivalent to no earlier element, in
    their order: no element yielded is equivalent to another, and every
    element of the upstream is equivalent to one that is yielded.  It takes
    one element of the upstream at a time. *)
Theorem distinct_yields_first_occurrences :
  forall (St T : Type) (inst : Stream St T) (comp : T -> T -> bool)
         (s : St) (l : list T) (s' : St),
    StrictWeakOrder comp ->
    drains s l s' ->
    let yielded := first_occurrences comp [] l in
    (exists final, drains (DistinctStream_new s (std_set_insert comp) []) yielded final /\
                   distinct_stream final = s') /\
    ForallOrdPairs (fun a b => equivalent comp b a = false) yielded /\
    (forall x, In x l -> exists y, In y yielded /\ equivalent comp x y = true).
Proof.
  intros St T inst comp s l s' SWO D yielded. split; [|split].
  - destruct (DistinctStream_head comp D (set := []) (seen := []) None (Permutation_refl _))
      as (final & r & Hfinal & Hr & Hl).
    exists final. split; [|exact Hfinal].
    apply drains_of_head with (r := r); [exact (returns2_returns Hr)|exact Hl].
  - apply first_occurrences_distinct.
  - intros x Hin.
    destruct (first_occurrences_cover comp (swo_irreflexive SWO) l [] x Hin)
      as (y & Hy & Heq).
    exists y. split; [exact Hy|exact Heq].
Qed.

(** X6, witness: scenario 4 of the specification on numbers, [{2, 1, 3, 1}]. *)
Lemma distinct_yields_first_occurrences_witness :
  let l := [2; 1; 3; 1] in
  let s' := {| it_range := l; it_current := 3%nat; it_upcoming := 4%nat;
               it_last := 4%nat; it_unchecked := false |} in
  (exists final, drains (DistinctStream_new (from l) (std_set_insert Z.ltb) [])
                        [2; 1; 3] final /\
                 distinct_stream final = s') /\
  ForallOrdPairs (fun a b => equivalent Z.ltb b a = false) [2; 1; 3] /\
  (forall x, In x l -> exists y, In y [2; 1; 3] /\ equivalent Z.ltb x y = true).
Proof.
  intros l s'.
  assert (SWO : StrictWeakOrder Z.ltb).
  { split; unfold equivalent.
    - intros a. apply Z.ltb_irrefl.
    - intros a b c. rewrite !Z.ltb_lt. lia.
    - intros a b c. rewrite !andb_true_iff, !negb_true_iff, !Z.ltb_ge. lia. }
  assert (D : drains (from l) l s') by drain_source.
  exact (@distinct_yields_first_occurrences _ _ _ Z.ltb (from l) l s' SWO D).
Defined.

(** ** Streams that do not end: loop *)

Section Serves.
Context {St T : Type} `{Stream St T}.


(** With two or more on its counter, [TakeStream::next] hands the call to the
    upstream. *)
Lemma TakeStream_next_delegates {w : size_width} (s s1 : St) (c : Z) (b : bool)
    (fuel : nat) :
  2 <= c <= size_max ->
  next fuel s = Some (b, s1) ->
  next fuel {| take_stream := s; take_count := c |}
  = Some (b, {| take_stream := s1; take_count := c - 1 |}).
Proof.
  intros Hc Hnext.
  change (TakeStream_next fuel {| take_stream := s; take_count := c |}
          = Some (b, {| take_stream := s1; take_count := c - 1 |})).
  unfold TakeStream_next. cbn [take_count take_stream].
  replace (c =? 0) with false by (symmetry; apply Z.eqb_neq; lia).
  rewrite size_wrap_small by lia.
  replace (c - 1 =? 0) with false by (symmetry; apply Z.eqb_neq; lia).
  rewrite Hnext. reflexivity.
Qed.

(** [take(n)] of a stream that serves [n] elements yields them and stops
    without asking for more. *)
Lemma TakeStream_serves {w : size_width} :
  forall (s : St) (l : list T) (s1 : St),
    serves s l s1 ->
    Z.of_nat (length l) < size_max ->
    drains {| take_stream := s; take_count := Z.of_nat (length l) + 1 |} l
           {| take_stream := s1; take_count := 0 |}.
Proof.
  induction 1 as [s|s s1 x l s' [k0 Hnext] Hfront _ IH]; intros Hlen.
  - apply drains_nil. exists O. intros fuel _.
    change (TakeStream_next fuel {| take_stream := s; take_count := 0 + 1 |}
            = Some (false, {| take_stream := s; take_count := 0 |})).
    unfold TakeStream_next. cbn [take_count take_stream Z.add Z.eqb].
    rewrite size_wrap_small by (pose proof size_max_nonneg; lia). reflexivity.
  - assert (Hlen' : Z.of_nat (length l) + 1 < size_max)
      by (cbn [length] in Hlen; lia).
    apply drains_cons
      with (s1 := {| take_stream := s1; take_count := Z.of_nat (length l) + 1 |});
      [|exact Hfront|apply IH; lia].
    exists k0. intros fuel Hfuel.
    rewrite (@TakeStream_next_delegates _ s s1 _ true fuel);
      [|cbn [length]; lia|now apply Hnext].
    do 3 f_equal. cbn [length]. lia.
Qed.

Lemma take_serves {w : size_width} (s : St) (l : list T) (s1 : St) :
  serves s l s1 ->
  Z.of_nat (length l) < size_max ->
  drains (take (Z.of_nat (length l)) s) l {| take_stream := s1; take_count := 0 |}.
Proof.
  intros S1 Hlen. unfold take, TakeStream_new.
  rewrite size_wrap_small by lia. now apply TakeStream_serves.
Qed.
End Serves.

Section Loop.
Context {St T : Type} `{Stream St T} (cache : St).




End Loop.



Section LoopExamples.
#[local] Existing Instance size_t_64.

End LoopExamples.

(** ** Join and combine on finite streams *)

Section Join.
Context {A B T : Type} `{Stream A T} `{Stream B T}.

(** Once [B] is set: the first stream is asked again on every call, fails
    again, and the second stream's result is handed on. *)
Lemma JoinStreamAB_second (a' : A) :
  exhausted a' ->
  forall (b : B) (lb : list T) (b' : B),
    drains b lb b' ->
    drains {| join_streamA := a'; join_streamB := b; join_B := true |} lb
           {| join_streamA := a'; join_streamB := b'; join_B := true |}.
Proof.
  intros [ke Hex].
  induction 1 as [b b' [k0 Hnext]|b b1 x lb b' [k0 Hnext] Hfront _ IH].
  - apply drains_nil. exists (Nat.max ke k0). intros fuel Hfuel.
    simpl. unfold JoinStreamAB_next. simpl.
    rewrite (Hex fuel) by lia. simpl. now rewrite (Hnext fuel) by lia.
  - apply drains_cons
      with (s1 := {| join_streamA := a'; join_streamB := b1; join_B := true |});
      [|exact Hfront|exact IH].
    exists (Nat.max ke k0). intros fuel Hfuel.
    simpl. unfold JoinStreamAB_next. simpl.
    rewrite (Hex fuel) by lia. simpl. now rewrite (Hnext fuel) by lia.
Qed.

Lemma JoinStreamAB_drains :
  forall (a : A) (la : list T) (a' : A),
    drains a la a' ->
    exhausted a' ->
    forall (b : B) (lb : list T) (b' : B),
      drains b lb b' ->
      drains (JoinStreamAB_new a b) (la ++ lb)
             {| join_streamA := a'; join_streamB := b'; join_B := true |}.
Proof.
  induction 1 as [a a' [k0 Hnext]|a a1 x la a' [k0 Hnext] Hfront _ IH];
    intros Hex b lb b' Db.
  - simpl.
    inversion Db as [b0 b0' [k1 Hb] E1 E2|b0 b1 y rest b0' [k1 Hb] Hfb Db' E1 E2]; subst.
    + apply drains_nil. exists (Nat.max k0 k1). intros fuel Hfuel.
      simpl. unfold JoinStreamAB_next. simpl.
      rewrite (Hnext fuel) by lia. simpl. now rewrite (Hb fuel) by lia.
    + apply drains_cons
        with (s1 := {| join_streamA := a'; join_streamB := b1; join_B := true |});
        [|exact Hfb|now apply JoinStreamAB_second].
      exists (Nat.max k0 k1). intros fuel Hfuel.
      simpl. unfold JoinStreamAB_next. simpl.
      rewrite (Hnext fuel) by lia. simpl. now rewrite (Hb fuel) by lia.
  - simpl.
    apply drains_cons with (s1 := JoinStreamAB_new a1 b);
      [|exact Hfront|now apply IH].
    exists k0. intros fuel Hfuel.
    simpl. unfold JoinStreamAB_next. simpl. now rewrite (Hnext fuel Hfuel).
Qed.
End Join.

(** A source that reached its end is exhausted. *)
Lemma IteratorStream_at_end_exhausted {T : Type} (s : IteratorStream T) :
  it_upcoming s = it_last s -> exhausted s.
Proof.
  intros E. exists O. intros fuel _. simpl. unfold IteratorStream_next.
  rewrite E, Nat.eqb_refl. reflexivity.
Qed.

(** X9.  A join of two streams yields what the first yields and then what the
    second yields, when the first, once it failed, fails again on every later
    call: [next()] asks the first stream again on every call.  Joins nest: a
    join of three yields the three sequences one after the other. *)
Theorem join_yields_one_after_the_other :
  forall (A B C T : Type) (instA : Stream A T) (instB : Stream B T) (instC : Stream C T)
         (a a' : A) (b b' : B) (c c' : C) (la lb lc : list T),
    drains a la a' -> exhausted a' ->
    drains b lb b' -> exhausted b' ->
    drains c lc c' ->
    drains (JoinStreamAB_new a b) (la ++ lb)
           {| join_streamA := a'; join_streamB := b'; join_B := true |} /\
    drains (JoinStreamAB_new a (JoinStreamAB_new b c)) (la ++ lb ++ lc)
           {| join_streamA := a';
              join_streamB := {| join_streamA := b'; join_streamB := c'; join_B := true |};
              join_B := true |}.
Proof.
  intros A B C T instA instB instC a a' b b' c c' la lb lc Da Ha Db Hb Dc. split.
  - now apply JoinStreamAB_drains.
  - apply JoinStreamAB_drains; [exact Da|exact Ha|].
    now apply JoinStreamAB_drains.
Qed.

(** X9, witness: [{1, 2}], [{}] and [{3}] joined. *)
Lemma join_yields_one_after_the_other_witness :
  let a' := {| it_range := [1; 2]; it_current := 1%nat; it_upcoming := 2%nat;
               it_last := 2%nat; it_unchecked := false |} in
  let c' := {| it_range := [3]; it_current := 0%nat; it_upcoming := 1%nat;
               it_last := 1%nat; it_unchecked := false |} in
  drains (JoinStreamAB_new (from [1; 2]) (from [])) ([1; 2] ++ [])
         {| join_streamA := a'; join_streamB := from []; join_B := true |} /\
  drains (JoinStreamAB_new (from [1; 2]) (JoinStreamAB_new (from []) (from [3])))
         ([1; 2] ++ [] ++ [3])
         {| join_streamA := a';
            join_streamB := {| join_streamA := from []; join_streamB := c';
                               join_B := true |};
            join_B := true |}.
Proof.
  intros a' c'.
  apply (@join_yields_one_after_the_other _ _ _ Z _ _ _
           (from [1; 2]) a' (from []) (from []) (from [3]) c').
  - drain_source.
  - now apply IteratorStream_at_end_exhausted.
  - drain_source.
  - now apply IteratorStream_at_end_exhausted.
  - drain_source.
Defined.

Section Combine.
Context {A B TA TB R : Type} (instA : Stream A TA) (instB : Stream B TB)
        (f : TA -> TB -> R).

Lemma CombineStreams_drains :
  forall (a : A) (la : list TA) (a' : A),
    drains a la a' ->
    forall (b : B) (lb : list TB) (b' : B) (cache : option R),
      drains b lb b' ->
      exists final : CombineStreams [TA; TB] R,
        drains {| combine_pred := combine2_pred f; combine_cache := cache;
                  combine_streams := tuple_cons instA a (tuple_cons instB b tuple_nil) |}
               (zip_with f la lb) final.
Proof.
  induction 1 as [a a' [k0 Hnext]|a a1 x la a' [k0 Hnext] Hfront _ IH];
    intros b lb b' cache Db.
  - eexists. simpl. apply drains_nil. exists k0. intros fuel Hfuel.
    simpl. unfold CombineStreams_next. simpl. now rewrite (Hnext fuel Hfuel).
  - inversion Db as [b0 b0' [k1 Hb] E1 E2|b0 b1 y rest b0' [k1 Hb] Hfb Db' E1 E2]; subst.
    + eexists. simpl. apply drains_nil. exists (Nat.max k0 k1). intros fuel Hfuel.
      simpl. unfold CombineStreams_next. simpl.
      rewrite (Hnext fuel) by lia. simpl. now rewrite (Hb fuel) by lia.
    + destruct (IH b1 rest b' (Some (f x y)) Db') as [final D].
      exists final. simpl.
      eapply drains_cons; [| |exact D].
      * exists (Nat.max k0 k1). intros fuel Hfuel.
        simpl. unfold CombineStreams_next. simpl.
        rewrite (Hnext fuel) by lia. simpl. rewrite (Hb fuel) by lia. simpl.
        rewrite Hfront. simpl. rewrite Hfb. simpl. reflexivity.
      * reflexivity.
Qed.
End Combine.

Lemma zip_with_length {A B R : Type} (f : A -> B -> R) (la : list A) (lb : list B) :
  length (zip_with f la lb) = Nat.min (length la) (length lb).
Proof.
  revert lb. induction la as [|a la IH]; intros [|b lb]; simpl; auto.
Qed.

(** X10.  A combine of two streams with a function that returns no optional
    yields the function's results on the elements of the two in step, and
    stops with the shorter: it yields as many elements as the shorter stream. *)
Theorem combine_yields_in_step :
  forall (A B TA TB R : Type) (instA : Stream A TA) (instB : Stream B TB)
         (f : TA -> TB -> R) (a a' : A) (b b' : B) (la : list TA) (lb : list TB),
    drains a la a' ->
    drains b lb b' ->
    (exists final : CombineStreams [TA; TB] R,
        drains (CombineStreams_new (combine2_pred f)
                  (tuple_cons instA a (tuple_cons instB b tuple_nil)))
               (zip_with f la lb) final) /\
    length (zip_with f la lb) = Nat.min (length la) (length lb).
Proof.
  intros A B TA TB R instA instB f a a' b b' la lb Da Db. split.
  - exact (@CombineStreams_drains _ _ _ _ _ instA instB f a la a' Da b lb b' None Db).
  - apply zip_with_length.
Qed.

(** X10, witness: scenario 5 of the specification, [{1, 2, 3}] and
    [{10, 20, 30, 40}] added. *)
Lemma combine_yields_in_step_witness :
  let a' := {| it_range := [1; 2; 3]; it_current := 2%nat; it_upcoming := 3%nat;
               it_last := 3%nat; it_unchecked := false |} in
  let b' := {| it_range := [10; 20; 30; 40]; it_current := 3%nat; it_upcoming := 4%nat;
               it_last := 4%nat; it_unchecked := false |} in
  (exists final : CombineStreams [Z : Type; Z : Type] Z,
      drains (CombineStreams_new (combine2_pred Z.add)
                (two_sources [1; 2; 3] [10; 20; 30; 40]))
             [11; 22; 33] final) /\
  length [11; 22; 33] = 3%nat.
Proof.
  intros a' b'.
  assert (Da : drains (from [1; 2; 3]) [1; 2; 3] a') by drain_source.
  assert (Db : drains (from [10; 20; 30; 40]) [10; 20; 30; 40] b') by drain_source.
  exact (@combine_yields_in_step _ _ _ _ _ _ _ Z.add _ a' _ b' _ _ Da Db).
Defined.

(** ** Flat on finite streams *)

Lemma nth_error_middle {A : Type} (done rest : list A) (x : A) :
  nth_error (done ++ x :: rest) (length done) = Some x.
Proof. induction done as [|d done IH]; [reflexivity|exact IH]. Qed.

Lemma list_update_middle {A : Type} (done rest : list A) (x v : A) :
  list_update (done ++ x :: rest) (length done) v = done ++ v :: rest.
Proof. induction done as [|d done IH]; [reflexivity|]. simpl. now rewrite IH. Qed.

Section Flat.
Context {w : size_width} {St Inner T : Type} {instO : Stream St Inner}
        {instI : Stream Inner T}.

Lemma FlatStream_fill_drains :
  forall (s : St) (l : list Inner) (s' : St),
    drains s l s' ->
    forall streams : list Inner,
    exists kb : nat, forall budget k : nat,
        (kb <= budget)%nat -> (length l < k)%nat ->
        FlatStream_fill budget k s streams = Some (streams ++ l, s').
Proof.
  induction 1 as [s s' [k0 Hnext]|s s1 x l s' [k0 Hnext] Hfront _ IH]; intros streams.
  - exists k0. intros budget k Hb Hk.
    destruct k as [|k]; [simpl in Hk; lia|].
    simpl. rewrite (Hnext budget Hb). simpl. now rewrite app_nil_r.
  - destruct (IH (streams ++ [x])) as [kb Hloop].
    exists (Nat.max k0 kb). intros budget k Hb Hk.
    destruct k as [|k]; [simpl in Hk; lia|].
    simpl. rewrite (Hnext budget) by lia. simpl. rewrite Hfront. simpl.
    rewrite Hloop by (simpl in Hk; lia).
    now rewrite <- app_assoc.
Qed.

Lemma FlatStream_head :
  forall (rest : list Inner) (lrest : list (list T)),
    Forall2 (fun inner li => exists fin, drains inner li fin) rest lrest ->
    forall (outer : St) (done : list Inner),
      Z.of_nat (length (done ++ rest)) < size_max ->
      exists (final : FlatStream St Inner) (r : bool * FlatStream St Inner),
        flat_current final = Z.of_nat (length (done ++ rest)) /\
        returns2 (fun b k => FlatStream_next_loop b k (FlatStream_at outer done rest)) r /\
        match concat lrest with
        | [] => r = (false, final)
        | y :: ys => exists w1, r = (true, w1) /\ front w1 = Some y /\ drains w1 ys final
        end.
Proof.
  induction 1 as [|inner li rest lrest [fin D] _ IH]; intros outer done Hlen.
  - exists (FlatStream_at outer done []), (false, FlatStream_at outer done []).
    split; [unfold FlatStream_at; simpl; now rewrite app_nil_r|].
    split; [|reflexivity].
    exists O, 1%nat. intros b k _ Hk. destruct k as [|k]; [lia|].
    unfold FlatStream_at. cbn [FlatStream_next_loop flat_current flat_streams].
    rewrite app_nil_r, Z.eqb_refl. reflexivity.
  - revert done Hlen.
    induction D as [inner fin [k0 Hnext]|inner in1 x l fin [k0 Hnext] Hfront _ IHD];
      intros done Hlen.
    + assert (Hlen' : Z.of_nat (length ((done ++ [fin]) ++ rest)) < size_max).
      { rewrite !length_app in *. simpl in *. lia. }
      destruct (IH outer (done ++ [fin]) Hlen')
        as (final & r & Hfinal & (kb & kk & Hloop) & Hl).
      exists final, r. split.
      { rewrite Hfinal. rewrite !length_app. simpl. f_equal. lia. }
      split; [|exact Hl].
      exists (Nat.max k0 kb), (S kk). intros b k Hb Hk. destruct k as [|k]; [lia|].
      unfold FlatStream_at. cbn [FlatStream_next_loop flat_current flat_streams flat_stream].
      replace (Z.of_nat (length done) =? Z.of_nat (length (done ++ inner :: rest)))
        with false
        by (symmetry; apply Z.eqb_neq; rewrite length_app; simpl; lia).
      rewrite Nat2Z.id, nth_error_middle. cbn [bind].
      rewrite (Hnext b) by lia. cbn [bind].
      rewrite list_update_middle.
      rewrite size_wrap_small by (rewrite length_app in Hlen; simpl in Hlen; lia).
      replace (Z.of_nat (length done) + 1 =? 0) with false
        by (symmetry; apply Z.eqb_neq; lia).
      specialize (Hloop b k ltac:(lia) ltac:(lia)).
      unfold FlatStream_at in Hloop.
      rewrite <- app_assoc in Hloop. simpl in Hloop.
      rewrite length_app in Hloop. simpl in Hloop.
      replace (Z.of_nat (length done) + 1) with (Z.of_nat (length done + 1)) by lia.
      exact Hloop.
    + assert (Hlen' : Z.of_nat (length (done ++ in1 :: rest)) < size_max).
      { rewrite !length_app in *. simpl in *. lia. }
      destruct (IHD done Hlen') as (final & r1 & Hfinal & Hr1 & Hl).
      exists final, (true, FlatStream_at outer done (in1 :: rest)).
      split.
      { rewrite Hfinal. rewrite !length_app. reflexivity. }
      split.
      * exists k0, 1%nat. intros b k Hb Hk. destruct k as [|k]; [lia|].
        unfold FlatStream_at.
        cbn [FlatStream_next_loop flat_current flat_streams flat_stream].
        replace (Z.of_nat (length done) =? Z.of_nat (length (done ++ inner :: rest)))
          with false
          by (symmetry; apply Z.eqb_neq; rewrite length_app; simpl; lia).
        rewrite Nat2Z.id, nth_error_middle. cbn [bind].
        rewrite (Hnext b) by lia. cbn [bind].
        now rewrite list_update_middle.
      * cbn [concat app].
        exists (FlatStream_at outer done (in1 :: rest)).
        split; [reflexivity|]. split.
        -- change (FlatStream_front (FlatStream_at outer done (in1 :: rest)) = Some x).
           unfold FlatStream_front, FlatStream_at. cbn [flat_current flat_streams].
           rewrite Nat2Z.id, nth_error_middle. exact Hfront.
        -- apply drains_of_head with (r := r1); [exact (returns2_returns Hr1)|exact Hl].
Qed.
End Flat.

(** X11.  A [FlatStream] built over an outer stream that yields finitely many
    inner streams, each of them finite, is constructed, yields the elements
    of the inner streams one inner stream after the other (empty inner
    streams are passed over), and then reports the end; its [endless()] is
    the conjunction of the inner streams' [endless()]. *)
Theorem flat_yields_concatenation {w : size_width} {St Inner T : Type}
        {instO : Stream St Inner} {instI : Stream Inner T}
        (outer outer' : St) (inners : list Inner) (ls : list (list T)) :
  drains outer inners outer' ->
  Forall2 (fun inner li => exists fin, drains inner li fin) inners ls ->
  Z.of_nat (length inners) < size_max ->
  exists flat final : FlatStream St Inner,
    returns (fun fuel => FlatStream_new fuel outer) flat /\
    drains flat (concat ls) final /\
    flat_current final = Z.of_nat (length inners) /\
    endless flat = forallb endless inners.
Proof.
  intros Do Di Hlen.
  destruct (FlatStream_fill_drains Do []) as [kb Hfill].
  destruct (FlatStream_head Di outer [] Hlen) as (final & r & Hfinal & Hr & Hl).
  exists (FlatStream_at outer [] inners), final.
  split; [|split; [|split]].
  - exists (Nat.max kb (S (length inners))). intros fuel Hfuel.
    unfold FlatStream_new. rewrite Hfill by lia. reflexivity.
  - apply drains_of_head with (r := r); [exact (returns2_returns Hr)|exact Hl].
  - exact Hfinal.
  - reflexivity.
Qed.

Section FlatExamples.
#[local] Existing Instance size_t_64.

Lemma flat_yields_concatenation_witness :
  let outer := from [from [1; 2]; from []; from [3]] in
  exists flat final : FlatStream _ _,
    returns (fun fuel => FlatStream_new fuel outer) flat /\
    drains flat [1; 2; 3] final /\
    flat_current final = 3 /\
    endless flat = false.
Proof.
  intros outer.
  assert (Do : drains outer [from [1; 2]; from []; from [3]]
                      {| it_range := [from [1; 2]; from []; from [3]];
                         it_current := 2%nat; it_upcoming := 3%nat;
                         it_last := 3%nat; it_unchecked := false |})
    by drain_source.
  assert (Di : Forall2 (fun inner li => exists fin : IteratorStream Z, drains inner li fin)
                       [from [1; 2]; from []; from [3]] [[1; 2]; []; [3]]).
  { repeat constructor; eexists; drain_source. }
  assert (Hlen : Z.of_nat (length [from [1; 2]; from []; from [3]]) < size_max)
    by (vm_compute; reflexivity).
  exact (flat_yields_concatenation Do Di Hlen).
Defined.
End FlatExamples.

(** ** Terminal builders on finite streams *)

Lemma fold_left_snoc {T : Type} (l acc : list T) :
  fold_left (fun c x => c ++ [x]) l acc = acc ++ l.
Proof.
  revert acc. induction l as [|x l IH]; intros acc; simpl.
  - now rewrite app_nil_r.
  - rewrite IH. now rewrite <- app_assoc.
Qed.

Section FiniteTerminals.
Context {St T : Type} {inst : Stream St T}.

Lemma ForEachBuilder_loop_drains {E : Type} (pred : T -> E -> E) :
  forall (s : St) (l : list T) (s' : St),
    drains s l s' ->
    forall env : E,
    exists kb : nat, forall budget k : nat,
        (kb <= budget)%nat -> (length l < k)%nat ->
        ForEachBuilder_loop pred budget k s env
        = Some (fold_left (fun e x => pred x e) l env, s').
Proof.
  induction 1 as [s s' [k0 Hnext]|s s1 x l s' [k0 Hnext] Hfront _ IH]; intros env.
  - exists k0. intros budget k Hb Hk.
    destruct k as [|k]; [simpl in Hk; lia|].
    simpl. now rewrite (Hnext budget Hb).
  - destruct (IH (pred x env)) as [kb Hloop].
    exists (Nat.max k0 kb). intros budget k Hb Hk.
    destruct k as [|k]; [simpl in Hk; lia|].
    simpl. rewrite (Hnext budget) by lia. simpl. rewrite Hfront. simpl.
    apply Hloop; simpl in Hk; lia.
Qed.

Lemma ForEachBuilder_build_drains {E : Type} (pred : T -> E -> E)
    (s : St) (l : list T) (s' : St) (env : E) :
  endless s = false ->
  drains s l s' ->
  returns (fun fuel => ForEachBuilder_build pred fuel s env)
          (Returned tt, fold_left (fun e x => pred x e) l env, s').
Proof.
  intros E0 D. destruct (ForEachBuilder_loop_drains pred D env) as [kb Hloop].
  exists (Nat.max kb (S (length l))). intros fuel Hfuel.
  unfold ForEachBuilder_build. rewrite (throw_if_endless_false _ E0).
  rewrite Hloop by lia. reflexivity.
Qed.

Lemma collect_drains {C : Type} (container : C) (collector : C -> T -> C)
    (s : St) (l : list T) (s' : St) :
  endless s = false ->
  drains s l s' ->
  returns (fun fuel => collect container collector fuel s)
          (Returned (fold_left collector l container), s').
Proof.
  intros E0 D.
  destruct (ForEachBuilder_build_drains (fun x c => collector c x) container E0 D)
    as [k0 Hbuild].
  exists k0. intros fuel Hfuel. unfold collect. rewrite (Hbuild fuel Hfuel). reflexivity.
Qed.

Lemma first_or_nullopt_drains (s : St) (l : list T) (s' : St) :
  drains s l s' ->
  exists s1 : St,
    returns (fun fuel => first_or_nullopt fuel s) (hd_error l, s1) /\
    match l with
    | [] => s1 = s'
    | _ :: rest => drains s1 rest s'
    end.
Proof.
  intros D. inversion D as [s0 s0' [k0 Hnext]|s0 s1 x rest s0' [k0 Hnext] Hfront D']; subst.
  - exists s'. split; [|reflexivity].
    exists k0. intros fuel Hfuel. unfold first_or_nullopt.
    now rewrite (Hnext fuel Hfuel).
  - exists s1. split; [|exact D'].
    exists k0. intros fuel Hfuel. unfold first_or_nullopt.
    rewrite (Hnext fuel Hfuel). simpl. now rewrite Hfront.
Qed.

Lemma fold_build_drains_empty (step : T -> T -> T) (s s' : St) :
  endless s = false ->
  drains s [] s' ->
  exhausted s' ->
  returns (fun fuel => fold_build step fuel s) (Returned None, s').
Proof.
  intros E0 D [ke Hex].
  inversion D as [s0 s0' [k0 Hnext]|]; subst.
  exists (S (Nat.max k0 ke)). intros fuel Hfuel.
  unfold fold_build. rewrite (throw_if_endless_false _ E0).
  unfold first_or_nullopt. rewrite (Hnext fuel) by lia. simpl.
  destruct fuel as [|fuel]; [lia|].
  simpl. rewrite (Hex (S fuel)) by lia. reflexivity.
Qed.

Lemma AllMatchBuilder_loop_drains (pred : T -> bool) :
  forall (s : St) (l : list T) (s' : St),
    drains s l s' ->
    exists (kb : nat) (r : St),
      (forall budget k : nat,
          (kb <= budget)%nat -> (length l < k)%nat ->
          AllMatchBuilder_loop pred budget k s = Some (forallb pred l, r)) /\
      match skip_while_list pred l with
      | [] => r = s'
      | _ :: rest => drains r rest s'
      end.
Proof.
  induction 1 as [s s' [k0 Hnext]|s s1 x l s' [k0 Hnext] Hfront D IH].
  - exists k0, s'. split; [|reflexivity].
    intros budget k Hb Hk. destruct k as [|k]; [simpl in Hk; lia|].
    simpl. now rewrite (Hnext budget Hb).
  - destruct IH as (kb & r & Hloop & Hr).
    destruct (pred x) eqn:Hp.
    + exists (Nat.max k0 kb), r. split.
      * intros budget k Hb Hk. destruct k as [|k]; [simpl in Hk; lia|].
        simpl. rewrite (Hnext budget) by lia. simpl. rewrite Hfront. simpl.
        rewrite Hp. simpl. apply Hloop; simpl in Hk; lia.
      * simpl. now rewrite Hp.
    + exists k0, s1. split.
      * intros budget k Hb Hk. destruct k as [|k]; [simpl in Hk; lia|].
        simpl. rewrite (Hnext budget) by lia. simpl. rewrite Hfront. simpl.
        rewrite Hp. reflexivity.
      * simpl. rewrite Hp. exact D.
Qed.

Lemma AnyMatchBuilder_loop_drains (pred : T -> bool) :
  forall (s : St) (l : list T) (s' : St),
    drains s l s' ->
    exists (kb : nat) (r : St),
      (forall budget k : nat,
          (kb <= budget)%nat -> (length l < k)%nat ->
          AnyMatchBuilder_loop pred budget k s = Some (existsb pred l, r) /\
          NoneMatchBuilder_loop pred budget k s = Some (negb (existsb pred l), r)) /\
      match skip_while_list (fun x => negb (pred x)) l with
      | [] => r = s'
      | _ :: rest => drains r rest s'
      end.
Proof.
  induction 1 as [s s' [k0 Hnext]|s s1 x l s' [k0 Hnext] Hfront D IH].
  - exists k0, s'. split; [|reflexivity].
    intros budget k Hb Hk. destruct k as [|k]; [simpl in Hk; lia|].
    simpl. now rewrite (Hnext budget Hb).
  - destruct IH as (kb & r & Hloop & Hr).
    destruct (pred x) eqn:Hp.
    + exists k0, s1. split.
      * intros budget k Hb Hk. destruct k as [|k]; [simpl in Hk; lia|].
        simpl. rewrite (Hnext budget) by lia. simpl. rewrite Hfront. simpl.
        rewrite Hp. split; reflexivity.
      * simpl. rewrite Hp. exact D.
    + exists (Nat.max k0 kb), r. split.
      * intros budget k Hb Hk. destruct k as [|k]; [simpl in Hk; lia|].
        simpl. rewrite (Hnext budget) by lia. simpl. rewrite Hfront. simpl.
        rewrite Hp. simpl. apply Hloop; simpl in Hk; lia.
      * simpl. now rewrite Hp.
Qed.

Lemma MinMaxBuilder_loop_drains (compare : T -> T -> bool) :
  forall (s : St) (l : list T) (s' : St),
    drains s l s' ->
    forall mn mx : T,
    exists kb : nat, forall budget k : nat,
        (kb <= budget)%nat -> (length l < k)%nat ->
        MinMaxBuilder_loop compare budget k s mn mx
        = Some (fold_left (fun i x => std_min x i compare) l mn,
                fold_left (fun i x => std_max x i compare) l mx, s').
Proof.
  induction 1 as [s s' [k0 Hnext]|s s1 x l s' [k0 Hnext] Hfront _ IH]; intros mn mx.
  - exists k0. intros budget k Hb Hk.
    destruct k as [|k]; [simpl in Hk; lia|].
    simpl. now rewrite (Hnext budget Hb).
  - destruct (IH (std_min x mn compare) (std_max x mx compare)) as [kb Hloop].
    exists (Nat.max k0 kb). intros budget k Hb Hk.
    destruct k as [|k]; [simpl in Hk; lia|].
    simpl. rewrite (Hnext budget) by lia. simpl. rewrite Hfront. simpl.
    apply Hloop; simpl in Hk; lia.
Qed.
End FiniteTerminals.

(** X12.  On a stream whose [endless()] is false and that yields [l],
    [for_each] calls its callback once on each element, in the order the
    stream yields them, and [collect] returns the container after the
    collector was called on each element in that order; a collector that
    appends gives the container followed by [l].  The builder's copy of the
    stream is left where the failing [next()] left it. *)
Theorem collect_gathers_in_order :
  forall (St T : Type) (inst : Stream St T) (s : St) (l : list T) (s' : St),
    endless s = false ->
    drains s l s' ->
    (forall (E : Type) (pred : T -> E -> E) (env : E),
        returns (fun fuel => ForEachBuilder_build pred fuel s env)
                (Returned tt, fold_left (fun e x => pred x e) l env, s')) /\
    (forall (C : Type) (container : C) (collector : C -> T -> C),
        returns (fun fuel => collect container collector fuel s)
                (Returned (fold_left collector l container), s')) /\
    (forall container : list T,
        returns (fun fuel => collect container (fun c x => c ++ [x]) fuel s)
                (Returned (container ++ l), s')).
Proof.
  intros St T inst s l s' E0 D. split; [|split].
  - intros E pred env. now apply ForEachBuilder_build_drains.
  - intros C container collector. now apply collect_drains.
  - intros container. rewrite <- fold_left_snoc. now apply collect_drains.
Qed.

(** X12, witness: [{1, 2, 3}]. *)
Lemma collect_gathers_in_order_witness :
  let s := from [1; 2; 3] in
  let s' := {| it_range := [1; 2; 3]; it_current := 2%nat; it_upcoming := 3%nat;
               it_last := 3%nat; it_unchecked := false |} in
  (forall (E : Type) (pred : Z -> E -> E) (env : E),
      returns (fun fuel => ForEachBuilder_build pred fuel s env)
              (Returned tt, pred 3 (pred 2 (pred 1 env)), s')) /\
  (forall (C : Type) (container : C) (collector : C -> Z -> C),
      returns (fun fuel => collect container collector fuel s)
              (Returned (collector (collector (collector container 1) 2) 3), s')) /\
  (forall container : list Z,
      returns (fun fuel => collect container (fun c x => c ++ [x]) fuel s)
              (Returned (container ++ [1; 2; 3]), s')).
Proof.
  intros s s'.
  apply (@collect_gathers_in_order _ _ _ s [1; 2; 3] s').
  - reflexivity.
  - drain_source.
Defined.

(** X13.  The sources over a container.  [from] and [from_unchecked] both
    build a checked stream ([from_unchecked] passes [unchecked = false] as
    [from] does): collecting it gives back the container's elements in order.
    [from_unchecked_iterator] over the same range yields the same elements,
    but its [endless()] is true and every builder that calls
    [throw_if_endless] refuses it. *)
Theorem container_sources_round_trip :
  forall (T : Type) (l : list T),
    (exists s',
        returns (fun fuel => collect [] (fun c x => c ++ [x]) fuel (from l))
                (Returned l, s') /\
        returns (fun fuel => collect [] (fun c x => c ++ [x]) fuel (from_unchecked l))
                (Returned l, s')) /\
    (exists s', drains (from_unchecked_iterator l 0 (length l)) l s') /\
    (forall fuel, guarded_builders_refuse fuel (from_unchecked_iterator l 0 (length l))).
Proof.
  intros T l. split; [|split].
  - destruct (from_drains l) as (s' & D & _).
    exists s'.
    assert (R : returns (fun fuel => collect [] (fun c x => c ++ [x]) fuel (from l))
                        (Returned ([] ++ l), s'))
      by (rewrite <- fold_left_snoc; now apply collect_drains).
    split; exact R.
  - destruct (IteratorStream_drains (length l) (from_unchecked_iterator l 0 (length l)))
      as (s' & D & _); simpl; try lia.
    exists s'. simpl in D. now rewrite firstn_all in D.
  - intros fuel. now apply endless_stream_is_refused.
Qed.

(** X14.  On a stream whose [endless()] is false, [reduce] folds from the
    left with the first element as the seed, and returns the empty optional
    when the stream yields nothing (and fails again when asked again, which
    the builder does). *)
Theorem reduce_folds_from_first :
  forall (St T : Type) (inst : Stream St T) (biPred : T -> T -> T)
         (s : St) (l : list T) (s' : St),
    endless s = false ->
    drains s l s' ->
    (l = [] -> exhausted s') ->
    returns (fun fuel => ReduceBuilder_build biPred fuel s)
            (Returned match l with
                      | [] => None
                      | x :: rest => Some (fold_left biPred rest x)
                      end, s').
Proof.
  intros St T inst biPred s l s' E0 D Hex. destruct l as [|x rest].
  - apply fold_build_drains_empty; auto.
  - now apply fold_build_drains.
Qed.

(** X14, witness: [{1, 2, 3}] and the empty container under subtraction:
    [(1 - 2) - 3], and nothing. *)
Lemma reduce_folds_from_first_witness :
  returns (fun fuel => ReduceBuilder_build Z.sub fuel (from [1; 2; 3]))
          (Returned (Some (-4)),
           {| it_range := [1; 2; 3]; it_current := 2%nat; it_upcoming := 3%nat;
              it_last := 3%nat; it_unchecked := false |}) /\
  returns (fun fuel => ReduceBuilder_build Z.sub fuel (from []))
          (Returned None, from []).
Proof.
  split.
  - apply (@reduce_folds_from_first _ _ _ Z.sub (from [1; 2; 3]) [1; 2; 3]).
    + reflexivity.
    + drain_source.
    + discriminate.
  - apply (@reduce_folds_from_first _ _ _ Z.sub (from []) [] (from [])).
    + reflexivity.
    + drain_source.
    + intros _. now apply IteratorStream_at_end_exhausted.
Defined.

(** X15.  On a stream whose [endless()] is false and that yields [l], the
    match builders decide [pred] over [l]: all-match is true iff [pred] holds
    of every element, any-match iff it holds of some element, none-match is
    the negation of any-match.  Each stops at the first element that decides
    it: the elements after that one are left in the stream. *)
Theorem match_builders_decide_and_stop :
  forall (St T : Type) (inst : Stream St T) (pred : T -> bool)
         (s : St) (l : list T) (s' : St),
    endless s = false ->
    drains s l s' ->
    exists r_all r_any : St,
      returns (fun fuel => AllMatchBuilder_build pred fuel s)
              (Returned (forallb pred l), r_all) /\
      returns (fun fuel => AnyMatchBuilder_build pred fuel s)
              (Returned (existsb pred l), r_any) /\
      returns (fun fuel => NoneMatchBuilder_build pred fuel s)
              (Returned (negb (existsb pred l)), r_any) /\
      match skip_while_list pred l with
      | [] => r_all = s'
      | _ :: rest => drains r_all rest s'
      end /\
      match skip_while_list (fun x => negb (pred x)) l with
      | [] => r_any = s'
      | _ :: rest => drains r_any rest s'
      end.
Proof.
  intros St T inst pred s l s' E0 D.
  destruct (AllMatchBuilder_loop_drains pred D) as (ka & r_all & Hall & Pall).
  destruct (AnyMatchBuilder_loop_drains pred D) as (kn & r_any & Hany & Pany).
  exists r_all, r_any. repeat split; try assumption.
  - exists (Nat.max ka (S (length l))). intros fuel Hfuel.
    unfold AllMatchBuilder_build. rewrite (throw_if_endless_false _ E0).
    rewrite Hall by lia. reflexivity.
  - exists (Nat.max kn (S (length l))). intros fuel Hfuel.
    unfold AnyMatchBuilder_build. rewrite (throw_if_endless_false _ E0).
    destruct (Hany fuel fuel) as [-> _]; try lia. reflexivity.
  - exists (Nat.max kn (S (length l))). intros fuel Hfuel.
    unfold NoneMatchBuilder_build. rewrite (throw_if_endless_false _ E0).
    destruct (Hany fuel fuel) as [_ ->]; try lia. reflexivity.
Qed.

(** X15, witness: [{1, 2, 5, 1, 7}] and "below 3": all-match fails at 5,
    any-match succeeds at the first element. *)
Lemma match_builders_decide_and_stop_witness :
  let l := [1; 2; 5; 1; 7] in
  let s' := {| it_range := l; it_current := 4%nat; it_upcoming := 5%nat;
               it_last := 5%nat; it_unchecked := false |} in
  exists r_all r_any : IteratorStream Z,
    returns (fun fuel => AllMatchBuilder_build (fun x => x <? 3) fuel (from l))
            (Returned false, r_all) /\
    returns (fun fuel => AnyMatchBuilder_build (fun x => x <? 3) fuel (from l))
            (Returned true, r_any) /\
    returns (fun fuel => NoneMatchBuilder_build (fun x => x <? 3) fuel (from l))
            (Returned false, r_any) /\
    drains r_all [1; 7] s' /\
    drains r_any [2; 5; 1; 7] s'.
Proof.
  intros l s'.
  apply (@match_builders_decide_and_stop _ _ _ (fun x => x <? 3) (from l) l s').
  - reflexivity.
  - drain_source.
Defined.

(** X16.  On a stream whose [endless()] is false, [minmax] returns the empty
    optional when the stream yields nothing, and otherwise the pair of what
    [min] and [max] return on the same stream: with a strict weak ordering,
    the last of the minimal elements and the last of the maximal elements. *)
Theorem minmax_pairs_min_and_max :
  forall (St T : Type) (inst : Stream St T) (comp : T -> T -> bool)
         (s : St) (l : list T) (s' : St),
    StrictWeakOrder comp ->
    endless s = false ->
    drains s l s' ->
    match l with
    | [] => returns (fun fuel => MinMaxBuilder_build comp fuel s) (Returned None, s')
    | _ :: _ =>
        exists mn mx : T,
          returns (fun fuel => MinMaxBuilder_build comp fuel s)
                  (Returned (Some (mn, mx)), s') /\
          returns (fun fuel => MinBuilder_build comp fuel s) (Returned (Some mn), s') /\
          returns (fun fuel => MaxBuilder_build comp fuel s) (Returned (Some mx), s') /\
          last_of (minimal comp l) l mn /\
          last_of (maximal comp l) l mx
    end.
Proof.
  intros St T inst comp s l s' SWO E0 D. destruct l as [|x rest].
  - inversion D as [s0 s0' [k0 Hnext]|]; subst.
    exists k0. intros fuel Hfuel.
    unfold MinMaxBuilder_build. rewrite (throw_if_endless_false _ E0).
    now rewrite (Hnext fuel Hfuel).
  - exists (fold_left (fun i y => std_min y i comp) rest x),
           (fold_left (fun i y => std_max y i comp) rest x).
    split; [|split; [|split; [|split]]].
    + inversion D as [|s0 s1 x0 l0 s0' [k0 Hnext] Hfront D']; subst.
      destruct (MinMaxBuilder_loop_drains comp D' x x) as [kb Hloop].
      exists (Nat.max (Nat.max k0 kb) (S (length rest))). intros fuel Hfuel.
      unfold MinMaxBuilder_build. rewrite (throw_if_endless_false _ E0).
      rewrite (Hnext fuel) by lia. simpl. rewrite Hfront. simpl.
      rewrite Hloop by lia. reflexivity.
    + now apply fold_build_drains.
    + now apply fold_build_drains.
    + now apply min_fold_is_last_minimal.
    + apply (min_fold_is_last_minimal (swo_flip SWO) x rest).
Qed.

(** X16, witness: pairs compared by their first component. *)
Lemma minmax_pairs_min_and_max_witness :
  let l := [(1, 0); (2, 0); (1, 1); (2, 1)]%nat in
  let s' := {| it_range := l; it_current := 3%nat; it_upcoming := 4%nat;
               it_last := 4%nat; it_unchecked := false |} in
  exists mn mx : nat * nat,
    returns (fun fuel => MinMaxBuilder_build by_first fuel (from l))
            (Returned (Some (mn, mx)), s') /\
    returns (fun fuel => MinBuilder_build by_first fuel (from l))
            (Returned (Some mn), s') /\
    returns (fun fuel => MaxBuilder_build by_first fuel (from l))
            (Returned (Some mx), s') /\
    last_of (minimal by_first l) l mn /\
    last_of (maximal by_first l) l mx.
Proof.
  intros l s'.
  assert (D : drains (from l) l s') by drain_source.
  exact (@minmax_pairs_min_and_max _ _ _ by_first (from l) l s'
           by_first_strict_weak_order eq_refl D).
Defined.

(** ** First and element-at *)

Lemma hd_error_skipn {T : Type} (l : list T) (n : nat) :
  hd_error (skipn n l) = nth_error l n.
Proof.
  revert l. induction n as [|n IH]; intros [|x l]; simpl; auto.
Qed.

(** X17.  On a stream that yields [l] and then keeps failing, [first()]
    returns the first element of [l] and [element_at(pos)], for [pos] below
    the largest [size_t], the element at index [pos] counted from 0; both
    return the empty optional where there is no such element.  Neither asks
    [endless()]. *)
Theorem element_at_is_nth :
  forall (w : size_width) (St T : Type) (inst : Stream St T)
         (s : St) (l : list T) (s' : St) (pos : Z),
    drains s l s' ->
    exhausted s' ->
    0 <= pos < size_max ->
    (exists s1, returns (fun fuel => first fuel s) (Returned (hd_error l), s1)) /\
    (exists t, returns (fun fuel => element_at pos fuel s)
                       (Returned (nth_error l (Z.to_nat pos)), t)).
Proof.
  intros w St T inst s l s' pos D Hex Hpos. split.
  - destruct (first_or_nullopt_drains D) as (s1 & [k0 Hfirst] & _).
    exists s1, k0. intros fuel Hfuel. unfold first.
    now rewrite (Hfirst fuel Hfuel).
  - destruct (skip_drains D Hex Hpos) as [t' Dk].
    destruct (first_or_nullopt_drains Dk) as (t & [k0 Hfirst] & _).
    exists t, k0. intros fuel Hfuel. unfold element_at, first.
    rewrite (Hfirst fuel Hfuel). simpl. now rewrite hd_error_skipn.
Qed.

Section ElementAtExamples.
#[local] Existing Instance size_t_64.

(** X17, witness: the elements at 0, at 2 and at 3 of [{5, 6, 7}]. *)
Lemma element_at_is_nth_witness :
  (exists s1, returns (fun fuel => first fuel (from [5; 6; 7])) (Returned (Some 5), s1)) /\
  (exists t, returns (fun fuel => element_at 2 fuel (from [5; 6; 7]))
                     (Returned (Some 7), t)) /\
  (exists t, returns (fun fuel => element_at 3 fuel (from [5; 6; 7]))
                     (Returned None, t)).
Proof.
  assert (D : drains (from [5; 6; 7]) [5; 6; 7]
                     {| it_range := [5; 6; 7]; it_current := 2%nat; it_upcoming := 3%nat;
                        it_last := 3%nat; it_unchecked := false |})
    by drain_source.
  assert (Hex : exhausted {| it_range := [5; 6; 7]; it_current := 2%nat;
                             it_upcoming := 3%nat; it_last := 3%nat;
                             it_unchecked := false |})
    by now apply IteratorStream_at_end_exhausted.
  assert (H2 : 0 <= 2 < size_max) by (vm_compute; split; [discriminate|reflexivity]).
  assert (H3 : 0 <= 3 < size_max) by (vm_compute; split; [discriminate|reflexivity]).
  split; [|split].
  - exact (proj1 (@element_at_is_nth _ _ _ _ _ _ _ 2 D Hex H2)).
  - exact (proj2 (@element_at_is_nth _ _ _ _ _ _ _ 2 D Hex H2)).
  - exact (proj2 (@element_at_is_nth _ _ _ _ _ _ _ 3 D Hex H3)).
Defined.
End ElementAtExamples.

(** ** Generating sources *)

Lemma iterates_length {T : Type} (f : T -> T) (n : nat) :
  forall init : T, length (iterates f init n) = n.
Proof. induction n as [|n IH]; intros init; simpl; [reflexivity|now rewrite IH]. Qed.

Lemma iterates_snoc {T : Type} (f : T -> T) (n : nat) :
  forall init : T, iterates f init (S n) = iterates f init n ++ [Nat.iter n f init].
Proof.
  induction n as [|n IH]; intros init; [reflexivity|].
  change (iterates f init (S (S n))) with (init :: iterates f (f init) (S n)).
  rewrite (IH (f init)), Nat.iter_succ_r. reflexivity.
Qed.


Lemma iterate_serves_on {T : Type} (f : T -> T) (n : nat) :
  forall (v : T) (c : option T),
  exists final : GenerateStream (bool * T) T,
    serves {| gen_getter := (false, v); gen_call := iterate_call f; gen_cache := c |}
           (iterates f (f v) n) final.
Proof.
  induction n as [|n IH]; intros v c.
  - eexists. apply serves_nil.
  - destruct (IH (f v) (Some (f v))) as [final S1].
    exists final. simpl.
    eapply serves_cons; [exists O; intros; reflexivity|reflexivity|exact S1].
Qed.

Lemma iterate_serves {T : Type} (init : T) (f : T -> T) (n : nat) :
  exists final : GenerateStream (bool * T) T,
    serves (iterate init f) (iterates f init n) final.
Proof.
  destruct n as [|n].
  - eexists. apply serves_nil.
  - destruct (iterate_serves_on f n init (Some init)) as [final S1].
    exists final. simpl.
    eapply serves_cons; [exists O; intros; reflexivity|reflexivity|exact S1].
Qed.



Section TakeWhileServes.
Context {St T : Type} {inst : Stream St T} (p : T -> bool).

(** [take_while] over a stream that need not end: it stops at the first
    element on which [pred] fails. *)
Lemma TakeWhileStream_serves :
  forall (l : list T) (s : St) (x : T) (s1 : St),
    serves s (l ++ [x]) s1 ->
    forallb p l = true ->
    p x = false ->
    drains (TakeWhileStream_new s p) l
           {| tw_stream := s1; tw_pred := p; tw_left := false |}.
Proof.
  induction l as [|a l IH]; intros s x s1 S1 Hall Hx.
  - inversion S1 as [|s0 st x0 l0 s0' [k0 Hnext] Hfront S2]; subst.
    inversion S2; subst.
    apply drains_nil. exists k0. intros fuel Hfuel.
    simpl. unfold TakeWhileStream_next. simpl.
    rewrite (Hnext fuel Hfuel). simpl. rewrite Hfront. simpl. now rewrite Hx.
  - simpl in S1. inversion S1 as [|s0 st x0 l0 s0' [k0 Hnext] Hfront S2]; subst.
    simpl in Hall. apply andb_true_iff in Hall as [Ha Hall].
    apply drains_cons with (s1 := TakeWhileStream_new st p).
    + exists k0. intros fuel Hfuel.
      simpl. unfold TakeWhileStream_next. simpl.
      rewrite (Hnext fuel Hfuel). simpl. rewrite Hfront. simpl. now rewrite Ha.
    + exact Hfront.
    + now apply IH with (x := x).
Qed.
End TakeWhileServes.

(** X18.  [iterate(init, pred)] yields [init], [pred(init)],
    [pred(pred(init))], ... and never fails: every finite prefix is served,
    [take(n)] of it yields the first [n] iterates, and its [endless()] is
    true. *)
Theorem iterate_yields_iterates :
  forall (w : size_width) (T : Type) (init : T) (f : T -> T) (n : nat),
    Z.of_nat n < size_max ->
    (exists final, serves (iterate init f) (iterates f init n) final) /\
    (exists t, drains (take (Z.of_nat n) (iterate init f)) (iterates f init n) t) /\
    endless (iterate init f) = true.
Proof.
  intros w T init f n Hn.
  destruct (iterate_serves init f n) as [final S1].
  split; [now exists final|]. split; [|reflexivity].
  eexists. rewrite <- (iterates_length f n init) at 1.
  apply take_serves; [exact S1|]. now rewrite iterates_length.
Qed.

Section IterateExamples.
#[local] Existing Instance size_t_64.

(** X18, witness: the powers of 2. *)
Lemma iterate_yields_iterates_witness :
  (exists final, serves (iterate 1 (Z.mul 2)) [1; 2; 4; 8] final) /\
  (exists t, drains (take 4 (iterate 1 (Z.mul 2))) [1; 2; 4; 8] t) /\
  endless (iterate 1 (Z.mul 2)) = true.
Proof.
  assert (Hn : Z.of_nat 4 < size_max) by (vm_compute; reflexivity).
  exact (@iterate_yields_iterates _ Z 1 (Z.mul 2) 4%nat Hn).
Defined.
End IterateExamples.

(** X19.  The three-argument [iterate(init, pred0, pred)] yields the iterates
    up to the first one on which [pred0] fails, that one left out, and then
    fails; yet its [endless()] is that of the generator, true, so every
    builder that calls [throw_if_endless] refuses it. *)
Theorem iterate_while_stops_but_is_endless :
  forall (T : Type) (init : T) (pred0 : T -> bool) (f : T -> T) (n : nat),
    forallb pred0 (iterates f init n) = true ->
    pred0 (Nat.iter n f init) = false ->
    (exists final, drains (iterate_while init pred0 f) (iterates f init n) final) /\
    endless (iterate_while init pred0 f) = true /\
    (forall fuel, guarded_builders_refuse fuel (iterate_while init pred0 f)).
Proof.
  intros T init pred0 f n Hall Hstop.
  destruct (iterate_serves init f (S n)) as [final S1].
  rewrite iterates_snoc in S1.
  split; [|split].
  - eexists. unfold iterate_while.
    exact (@TakeWhileStream_serves _ _ _ pred0 _ _ _ _ S1 Hall Hstop).
  - reflexivity.
  - intros fuel. now apply endless_stream_is_refused.
Qed.

(** X19, witness: the powers of 2 below 10. *)
Lemma iterate_while_stops_but_is_endless_witness :
  (exists final, drains (iterate_while 1 (fun x => x <? 10) (Z.mul 2)) [1; 2; 4; 8] final) /\
  endless (iterate_while 1 (fun x => x <? 10) (Z.mul 2)) = true /\
  (forall fuel, guarded_builders_refuse fuel (iterate_while 1 (fun x => x <? 10) (Z.mul 2))).
Proof.
  exact (@iterate_while_stops_but_is_endless Z 1 (fun x => x <? 10) (Z.mul 2) 4%nat
           eq_refl eq_refl).
Defined.

(** ** Integer ranges and singletons *)

Section IntRange.
Context {w : size_width}.



End IntRange.


Section IntRangeExamples.
#[local] Existing Instance size_t_64.

End IntRangeExamples.


Section IntRangeStepExamples.
#[local] Existing Instance size_t_64.

End IntRangeStepExamples.


Section IntRangeBackwardsExamples.
#[local] Existing Instance size_t_64.

End IntRangeBackwardsExamples.

(** X23.  [singleton(opt)] yields the value of an engaged [opt] once and
    then fails; for an empty [opt] it yields nothing, and the getter, which
    dereferences [opt], is not called.  [singleton(std::nullopt)] yields
    nothing.  Their [endless()] is false although they are built on a
    generator. *)
Theorem singleton_yields_the_value :
  forall (w : size_width) (T : Type),
    1 < size_max ->
    (forall v : T, exists t, drains (singleton (Some v)) [v] t) /\
    (exists t, drains (singleton (@None T)) [] t) /\
    (forall opt : option T, endless (singleton opt) = false) /\
    drains (singleton_nullopt T) [] (singleton_nullopt T) /\
    endless (singleton_nullopt T) = false.
Proof.
  intros w T Hw. split; [|split; [|split; [|split]]].
  - intros v. eexists.
    apply (@take_serves _ _ _ w _ [v]); [|simpl; lia].
    eapply serves_cons; [exists O; intros; reflexivity|reflexivity|apply serves_nil].
  - eexists.
    apply (@take_serves _ _ _ w _ []); [apply serves_nil|simpl; lia].
  - reflexivity.
  - apply drains_nil. exists O. intros; reflexivity.
  - reflexivity.
Qed.

Section SingletonExamples.
#[local] Existing Instance size_t_64.

(** X23, witness: at a [size_t] of 64 bits. *)
Lemma singleton_yields_the_value_witness :
  (forall v : Z, exists t, drains (singleton (Some v)) [v] t) /\
  (exists t, drains (singleton (@None Z)) [] t) /\
  (forall opt : option Z, endless (singleton opt) = false) /\
  drains (singleton_nullopt Z) [] (singleton_nullopt Z) /\
  endless (singleton_nullopt Z) = false.
Proof.
  assert (Hw : 1 < size_max) by (vm_compute; reflexivity).
  exact (@singleton_yields_the_value _ Z Hw).
Defined.
End SingletonExamples.

(** ** Tail repeat *)


Section TailRepeat.
Context {St T : Type} {inst : Stream St T}.




End TailRepeat.



(** ** Iterable *)

Section IterableLoop.
Context {St T E : Type} {inst : Stream St T} (body : T -> E -> E).

Lemma range_for_loop_drains :
  forall (s1 : St) (l : list T) (s' : St),
    drains s1 l s' ->
    forall (x : T) (env : E),
      front s1 = Some x ->
      exists kb : nat, forall budget k : nat,
          (kb <= budget)%nat -> (S (length l) < k)%nat ->
          range_for_loop body budget k
            {| iter_at_stream := true; iter_next := true |} s1 env
          = Some (fold_left (fun e y => body y e) (x :: l) env, s').
Proof.
  induction 1 as [s s' [k0 Hnext]|s s1 y l s' [k0 Hnext] Hfront _ IH];
    intros x env Hx.
  - exists k0. intros budget k Hb Hk.
    destruct k as [|[|k]]; try (simpl in Hk; lia).
    cbn [range_for_loop]. unfold Iterator_neq at 1, Iterable_end at 1.
    cbn [iter_next iter_at_stream negb andb].
    unfold Iterator_deref, Iterator_incr. cbn [iter_at_stream].
    rewrite Hx. cbn [bind]. rewrite (Hnext budget Hb). cbn [bind].
    reflexivity.
  - destruct (IH y (body x env) Hfront) as [kb Hloop].
    exists (Nat.max k0 kb). intros budget k Hb Hk.
    destruct k as [|k]; [simpl in Hk; lia|].
    cbn [range_for_loop]. unfold Iterator_neq at 1, Iterable_end at 1.
    cbn [iter_next iter_at_stream negb andb].
    unfold Iterator_deref at 1, Iterator_incr at 1. cbn [iter_at_stream].
    rewrite Hx. cbn [bind]. rewrite (Hnext budget) by lia. cbn [bind].
    rewrite Hloop by (simpl in Hk; lia). reflexivity.
Qed.
End IterableLoop.

(** X25.  A range-based [for] over [stream >> iterable()] runs its body once
    on each element the stream yields, in order, and ends at the first
    [next()] that fails, as [for_each] does; it does not ask [endless()], so
    it also runs on a stream that the builders refuse. *)
Theorem range_for_visits_in_order :
  forall (St T E : Type) (inst : Stream St T) (body : T -> E -> E)
         (s : St) (l : list T) (s' : St) (env : E),
    drains s l s' ->
    returns (fun fuel => range_for body fuel s env)
            (fold_left (fun e x => body x e) l env, s') /\
    returns (fun fuel => ForEachBuilder_build body fuel s env)
            (if endless s
             then (Thrown endless_stream_exception, env, s)
             else (Returned tt, fold_left (fun e x => body x e) l env, s')).
Proof.
  intros St T E inst body s l s' env D. split.
  - inversion D as [s0 s0' [k0 Hnext]|s0 s1 x rest s0' [k0 Hnext] Hfront D']; subst.
    + exists (S k0). intros fuel Hfuel. unfold range_for, Iterable_begin.
      rewrite (Hnext fuel) by lia. cbn [bind].
      destruct fuel as [|fuel]; [lia|]. reflexivity.
    + destruct (range_for_loop_drains body D' env Hfront) as [kb Hloop].
      exists (Nat.max (Nat.max k0 kb) (S (S (length rest)))). intros fuel Hfuel.
      unfold range_for, Iterable_begin.
      rewrite (Hnext fuel) by lia. cbn [bind].
      apply Hloop; lia.
  - destruct (endless s) eqn:E0.
    + exists O. intros fuel _. unfold ForEachBuilder_build.
      now rewrite (throw_if_endless_true _ E0).
    + now apply ForEachBuilder_build_drains.
Qed.

(** X25, witness: summing an unchecked range, which [for_each] refuses. *)
Lemma range_for_visits_in_order_witness :
  let s := from_unchecked_iterator [1; 2; 3] 0 3 in
  let s' := {| it_range := [1; 2; 3]; it_current := 2%nat; it_upcoming := 3%nat;
               it_last := 3%nat; it_unchecked := true |} in
  returns (fun fuel => range_for Z.add fuel s 0) (6, s') /\
  returns (fun fuel => ForEachBuilder_build Z.add fuel s 0)
          (Thrown endless_stream_exception, 0, s).
Proof.
  intros s s'.
  assert (D : drains s [1; 2; 3] s') by drain_source.
  exact (@range_for_visits_in_order _ _ _ _ Z.add s [1; 2; 3] s' 0 D).
Defined.

(** ** Endless flat over non-empty inner streams *)

Section EndlessFlat.
Context {Inner T : Type} {instI : Stream Inner T}.

(** While the inner stream at hand yields, the flat stream yields. *)
Lemma EndlessFlatStream_at_next_inner (done rest : list Inner) (cur cur1 : Inner)
    (fuel : nat) :
  next fuel cur = Some (true, cur1) ->
  next fuel (EndlessFlatStream_at done cur rest)
  = Some (true, EndlessFlatStream_at done cur1 rest).
Proof.
  intros Hnext.
  change (EndlessFlatStream_next fuel (EndlessFlatStream_at done cur rest)
          = Some (true, EndlessFlatStream_at done cur1 rest)).
  unfold EndlessFlatStream_next, EndlessFlatStream_at, front_next.
  cbn [eflat_left eflat_stream front IteratorStream_Stream].
  unfold IteratorStream_front at 1. cbn [it_range it_current].
  rewrite nth_error_middle. cbn [bind]. rewrite Hnext. cbn [bind].
  unfold put_front, IteratorStream_FrontRef. cbn [it_range it_current it_upcoming
                                                  it_last it_unchecked].
  now rewrite list_update_middle.
Qed.

Lemma EndlessFlatStream_at_front (done rest : list Inner) (cur : Inner) :
  front (EndlessFlatStream_at done cur rest) = front cur.
Proof.
  change (EndlessFlatStream_front (EndlessFlatStream_at done cur rest) = front cur).
  unfold EndlessFlatStream_front, EndlessFlatStream_at.
  cbn [eflat_stream front IteratorStream_Stream].
  unfold IteratorStream_front. cbn [it_range it_current].
  now rewrite nth_error_middle.
Qed.

(** When the inner stream at hand fails and none is to come, the flat stream
    fails. *)
Lemma EndlessFlatStream_at_next_end (done : list Inner) (cur fin : Inner) (fuel : nat) :
  next fuel cur = Some (false, fin) ->
  next fuel (EndlessFlatStream_at done cur [])
  = Some (false, {| eflat_stream := eflat_stream (EndlessFlatStream_at done fin []);
                    eflat_left := false |}).
Proof.
  intros Hnext.
  change (EndlessFlatStream_next fuel (EndlessFlatStream_at done cur [])
          = Some (false, {| eflat_stream := eflat_stream (EndlessFlatStream_at done fin []);
                            eflat_left := false |})).
  unfold EndlessFlatStream_next, EndlessFlatStream_at, front_next.
  cbn [eflat_left eflat_stream front IteratorStream_Stream].
  unfold IteratorStream_front at 1. cbn [it_range it_current].
  rewrite nth_error_middle. cbn [bind]. rewrite Hnext. cbn [bind].
  unfold put_front, IteratorStream_FrontRef. cbn [it_range it_current it_upcoming
                                                  it_last it_unchecked].
  rewrite list_update_middle.
  cbn [next IteratorStream_Stream]. unfold IteratorStream_next.
  cbn [it_upcoming it_last length].
  replace (S (length done) =? length done + 1)%nat with true
    by (symmetry; apply Nat.eqb_eq; lia).
  cbn [bind]. reflexivity.
Qed.

(** When the inner stream at hand fails, the next one is taken from the
    range, and the call returns what its first [next()] returns. *)
Lemma EndlessFlatStream_at_next_outer (done rest : list Inner) (cur fin nxt nxt1 : Inner)
    (fuel : nat) :
  next fuel cur = Some (false, fin) ->
  next fuel nxt = Some (true, nxt1) ->
  next fuel (EndlessFlatStream_at done cur (nxt :: rest))
  = Some (true, EndlessFlatStream_at (done ++ [fin]) nxt1 rest).
Proof.
  intros Hcur Hnxt.
  change (EndlessFlatStream_next fuel (EndlessFlatStream_at done cur (nxt :: rest))
          = Some (true, EndlessFlatStream_at (done ++ [fin]) nxt1 rest)).
  unfold EndlessFlatStream_next, EndlessFlatStream_at, front_next.
  cbn [eflat_left eflat_stream front IteratorStream_Stream].
  unfold IteratorStream_front at 1. cbn [it_range it_current].
  rewrite nth_error_middle. cbn [bind]. rewrite Hcur. cbn [bind].
  unfold put_front, IteratorStream_FrontRef. cbn [it_range it_current it_upcoming
                                                  it_last it_unchecked].
  rewrite list_update_middle.
  cbn [next IteratorStream_Stream]. unfold IteratorStream_next.
  cbn [it_upcoming it_last it_range it_current it_unchecked length].
  replace (S (length done) =? length done + S (S (length rest)))%nat with false
    by (symmetry; apply Nat.eqb_neq; lia).
  cbn [bind it_range it_current].
  replace (done ++ fin :: nxt :: rest) with ((done ++ [fin]) ++ nxt :: rest)
    by (now rewrite <- app_assoc).
  replace (S (length done)) with (length (done ++ [fin]))
    by (rewrite length_app; simpl; lia).
  unfold IteratorStream_front.
  cbn [it_range it_current it_upcoming it_last it_unchecked].
  rewrite nth_error_middle. cbn [bind]. rewrite Hnxt. cbn [bind].
  rewrite list_update_middle.
  replace (length done + S (S (length rest)))%nat
    with (length (done ++ [fin]) + S (length rest))%nat
    by (rewrite length_app; simpl; lia).
  reflexivity.
Qed.

Lemma EndlessFlatStream_at_drains :
  forall (rest : list Inner) (lrest : list (list T)),
    Forall2 (fun inner li => li <> [] /\ exists fin, drains inner li fin) rest lrest ->
    forall (done : list Inner) (cur : Inner) (lcur : list T) (fin : Inner),
      drains cur lcur fin ->
      exists final,
        drains (EndlessFlatStream_at done cur rest) (lcur ++ concat lrest) final.
Proof.
  induction 1 as [|nxt li rest lrest [Hne [fin2 D2]] _ IH]; intros done cur lcur fin D.
  - induction D as [cur fin [k0 Hnext]|cur cur1 x l fin [k0 Hnext] Hfront _ IHD].
    + eexists. apply drains_nil. exists k0. intros fuel Hfuel.
      apply EndlessFlatStream_at_next_end. now apply Hnext.
    + destruct IHD as [final Dfinal].
      exists final. cbn [app].
      apply drains_cons with (s1 := EndlessFlatStream_at done cur1 []).
      * exists k0. intros fuel Hfuel.
        apply EndlessFlatStream_at_next_inner. now apply Hnext.
      * now rewrite EndlessFlatStream_at_front.
      * exact Dfinal.
  - induction D as [cur fin [k0 Hnext]|cur cur1 x l fin [k0 Hnext] Hfront _ IHD].
    + inversion D2 as [|n0 nxt1 y l2 n0' [k2 Hnxt] Hfront2 D2']; subst;
        [congruence|].
      destruct (IH (done ++ [fin]) nxt1 l2 fin2 D2') as [final Dfinal].
      exists final. cbn [app concat].
      apply drains_cons with (s1 := EndlessFlatStream_at (done ++ [fin]) nxt1 rest).
      * exists (Nat.max k0 k2). intros fuel Hfuel.
        apply EndlessFlatStream_at_next_outer; [apply Hnext|apply Hnxt]; lia.
      * now rewrite EndlessFlatStream_at_front.
      * exact Dfinal.
    + destruct IHD as [final Dfinal].
      exists final. cbn [app].
      apply drains_cons with (s1 := EndlessFlatStream_at done cur1 (nxt :: rest)).
      * exists k0. intros fuel Hfuel.
        apply EndlessFlatStream_at_next_inner. now apply Hnext.
      * now rewrite EndlessFlatStream_at_front.
      * exact Dfinal.
Qed.
End EndlessFlat.

(** X26.  [endless_flat()] over a range of inner streams, each finite and
    none empty, yields the elements of the inner streams one inner stream
    after the other and fails when the range is used up.  Its [endless()] is
    true all the same, so every builder that calls [throw_if_endless] refuses
    it. *)
Theorem endless_flat_yields_concatenation :
  forall (Inner T : Type) (instI : Stream Inner T)
         (inners : list Inner) (ls : list (list T)),
    Forall2 (fun inner li => li <> [] /\ exists fin, drains inner li fin) inners ls ->
    (exists final, drains (EndlessFlatStream_new (from inners)) (concat ls) final) /\
    endless (EndlessFlatStream_new (from inners)) = true /\
    (forall fuel, guarded_builders_refuse fuel (EndlessFlatStream_new (from inners))).
Proof.
  intros Inner T instI inners ls F.
  split; [|split; [reflexivity|intros fuel; now apply endless_stream_is_refused]].
  destruct F as [|in1 l1 rest lrest [Hne [fin D1]] F].
  - eexists. apply drains_nil. exists O. intros fuel _. reflexivity.
  - inversion D1 as [|i0 in1' y l1' i0' [k0 Hnext] Hfront D1']; subst; [congruence|].
    destruct (EndlessFlatStream_at_drains F [] D1') as [final Dfinal].
    exists final. cbn [concat app].
    apply drains_cons with (s1 := EndlessFlatStream_at [] in1' rest).
    + exists k0. intros fuel Hfuel.
      change (EndlessFlatStream_next fuel (EndlessFlatStream_new (from (in1 :: rest)))
              = Some (true, EndlessFlatStream_at [] in1' rest)).
      unfold EndlessFlatStream_next, EndlessFlatStream_new, front_next. simpl.
      rewrite (Hnext fuel Hfuel). reflexivity.
    + now rewrite EndlessFlatStream_at_front.
    + exact Dfinal.
Qed.

(** X26, witness: the sources [{1, 2}] and [{3}]. *)
Lemma endless_flat_yields_concatenation_witness :
  let e := EndlessFlatStream_new (from [from [1; 2]; from [3]]) in
  (exists final, drains e [1; 2; 3] final) /\
  endless e = true /\
  (forall fuel, guarded_builders_refuse fuel e).
Proof.
  intros e.
  assert (F : Forall2 (fun inner li => li <> [] /\
                                       exists fin : IteratorStream Z, drains inner li fin)
                      [from [1; 2]; from [3]] [[1; 2]; [3]]).
  { repeat constructor; try discriminate; eexists; drain_source. }
  exact (@endless_flat_yields_concatenation _ _ _ _ _ F).
Defined.

(** ** Flat map, make-endless and the endless iterator source *)

(** X27.  [flat_map(pred)] over a stream that yields [l], with a [pred] that
    gives a finite stream for each element, is constructed and yields the
    elements of [pred(x)] for each [x] of [l] in turn. *)
Theorem flat_map_yields_concatenation :
  forall (w : size_width) (St T Inner R : Type) (instS : Stream St T)
         (instI : Stream Inner R) (pred : T -> Inner) (g : T -> list R)
         (s : St) (l : list T) (s' : St),
    drains s l s' ->
    Forall (fun x => exists fin, drains (pred x) (g x) fin) l ->
    Z.of_nat (length l) < size_max ->
    exists flat final,
      returns (fun fuel => flat_map pred fuel s) flat /\
      drains flat (concat (map g l)) final.
Proof.
  intros w St T Inner R instS instI pred g s l s' D Hall Hlen.
  destruct (MapStream_drains (fun x => Some (pred x)) D) as (mfinal & Dm & _).
  rewrite map_present_total in Dm.
  assert (F : Forall2 (fun inner li => exists fin, drains inner li fin)
                      (map pred l) (map g l)).
  { clear -Hall. induction Hall as [|x l Hx _ IH]; simpl; constructor; assumption. }
  assert (Hlen' : Z.of_nat (length ([] ++ map pred l)) < size_max)
    by (simpl; now rewrite length_map).
  destruct (FlatStream_fill_drains Dm []) as [kb Hfill].
  destruct (FlatStream_head F (MapStream_new s (fun x => Some (pred x))) [] Hlen')
    as (final & r & _ & Hr & Hl).
  exists (FlatStream_at (MapStream_new s (fun x => Some (pred x))) [] (map pred l)), final.
  split.
  - exists (Nat.max kb (S (length (map pred l)))). intros fuel Hfuel.
    unfold flat_map, FlatStream_new. rewrite Hfill by lia. reflexivity.
  - apply drains_of_head with (r := r); [exact (returns2_returns Hr)|exact Hl].
Qed.

Section FlatMapExamples.
#[local] Existing Instance size_t_64.

(** X27, witness: each number [n] of [{2, 0, 1}] replaced by [n] times [n]. *)
Lemma flat_map_yields_concatenation_witness :
  exists flat final,
    returns (fun fuel => flat_map (fun n => from (repeat n (Z.to_nat n))) fuel
                                  (from [2; 0; 1])) flat /\
    drains flat [2; 2; 1] final.
Proof.
  assert (D : drains (from [2; 0; 1]) [2; 0; 1]
                     {| it_range := [2; 0; 1]; it_current := 2%nat; it_upcoming := 3%nat;
                        it_last := 3%nat; it_unchecked := false |})
    by drain_source.
  assert (Hall : Forall (fun x => exists fin : IteratorStream Z,
                             drains (from (repeat x (Z.to_nat x)))
                                    (repeat x (Z.to_nat x)) fin) [2; 0; 1]).
  { repeat constructor; eexists; drain_source. }
  assert (Hlen : Z.of_nat (length [2; 0; 1]) < size_max) by (vm_compute; reflexivity).
  exact (@flat_map_yields_concatenation _ _ _ _ _ _ _
           (fun n => from (repeat n (Z.to_nat n))) (fun n => repeat n (Z.to_nat n))
           _ _ _ D Hall Hlen).
Defined.
End FlatMapExamples.

Lemma MakeEndlessStream_drains {St T : Type} {inst : Stream St T} :
  forall (s : St) (l : list T) (s' : St),
    drains s l s' -> drains (make_endless s) l (make_endless s').
Proof.
  induction 1 as [s s' [k0 Hnext]|s s1 x l s' [k0 Hnext] Hfront _ IH].
  - apply drains_nil. exists k0. intros fuel Hfuel.
    simpl. unfold MakeEndlessStream_next. simpl. now rewrite (Hnext fuel Hfuel).
  - apply drains_cons with (s1 := make_endless s1); [|exact Hfront|exact IH].
    exists k0. intros fuel Hfuel.
    simpl. unfold MakeEndlessStream_next. simpl. now rewrite (Hnext fuel Hfuel).
Qed.

(** X28.  [make_endless()] changes nothing but [endless()]: the stream yields
    what its upstream yields and fails where it fails, and every builder that
    calls [throw_if_endless] refuses it, while [first()] still returns its
    first element. *)
Theorem make_endless_only_changes_endless :
  forall (St T : Type) (inst : Stream St T) (s : St) (l : list T) (s' : St),
    drains s l s' ->
    drains (make_endless s) l (make_endless s') /\
    (forall fuel, guarded_builders_refuse fuel (make_endless s)) /\
    exists s1, returns (fun fuel => first fuel (make_endless s)) (Returned (hd_error l), s1).
Proof.
  intros St T inst s l s' D.
  pose proof (MakeEndlessStream_drains D) as Dm.
  split; [exact Dm|]. split.
  - intros fuel. now apply endless_stream_is_refused.
  - destruct (first_or_nullopt_drains Dm) as (s1 & [k0 Hfirst] & _).
    exists s1, k0. intros fuel Hfuel. unfold first. now rewrite (Hfirst fuel Hfuel).
Qed.

(** X28, witness: [{1, 2, 3}] made endless. *)
Lemma make_endless_only_changes_endless_witness :
  let s' := {| it_range := [1; 2; 3]; it_current := 2%nat; it_upcoming := 3%nat;
               it_last := 3%nat; it_unchecked := false |} in
  drains (make_endless (from [1; 2; 3])) [1; 2; 3] (make_endless s') /\
  (forall fuel, guarded_builders_refuse fuel (make_endless (from [1; 2; 3]))) /\
  exists s1, returns (fun fuel => first fuel (make_endless (from [1; 2; 3])))
                     (Returned (Some 1), s1).
Proof.
  intros s'.
  assert (D : drains (from [1; 2; 3]) [1; 2; 3] s') by drain_source.
  exact (@make_endless_only_changes_endless _ _ _ _ _ _ D).
Defined.

Lemma EndlessIteratorStream_serves {T : Type} (n : nat) :
  forall s : EndlessIteratorStream T,
    (eit_upcoming s + n <= length (eit_range s))%nat ->
    exists final : EndlessIteratorStream T,
      serves s (firstn n (skipn (eit_upcoming s) (eit_range s))) final /\
      eit_range final = eit_range s /\
      eit_upcoming final = (eit_upcoming s + n)%nat.
Proof.
  induction n as [|n IH]; intros s Hn.
  - exists s. split; [apply serves_nil|split; [reflexivity|lia]].
  - destruct (nth_error (eit_range s) (eit_upcoming s)) as [x|] eqn:Hx;
      [|apply nth_error_None in Hx; lia].
    destruct (IH {| eit_range := eit_range s; eit_current := eit_upcoming s;
                    eit_upcoming := S (eit_upcoming s) |}) as (final & S1 & Hr & Hu);
      [simpl; lia|].
    exists final. split; [|split; [exact Hr|simpl in Hu; lia]].
    rewrite (skipn_nth_error _ _ Hx). cbn [firstn].
    eapply serves_cons; [exists O; intros; reflexivity|exact Hx|exact S1].
Qed.

(** X29.  [from_endless_iterator(first)] serves the elements of the range
    from [first] on, in order, as long as the range lasts; its [next()] has
    no end test, so past the end of the range it still returns true, and
    [front()] then has no defined result.  Every builder that calls
    [throw_if_endless] refuses it. *)
Theorem endless_iterator_walks_the_range :
  forall (T : Type) (range : list T) (first n : nat),
    (first + n <= length range)%nat ->
    (exists final,
        serves (from_endless_iterator range first) (firstn n (skipn first range)) final /\
        eit_range final = range /\
        eit_upcoming final = (first + n)%nat) /\
    (forall (s : EndlessIteratorStream T) (fuel : nat),
        (length (eit_range s) <= eit_upcoming s)%nat ->
        exists s1, next fuel s = Some (true, s1) /\ front s1 = None /\
                   (length (eit_range s1) <= eit_upcoming s1)%nat) /\
    (forall fuel, guarded_builders_refuse fuel (from_endless_iterator range first)).
Proof.
  intros T range first n Hn. split; [|split].
  - exact (EndlessIteratorStream_serves n (from_endless_iterator range first) Hn).
  - intros s fuel Hs. eexists. split; [reflexivity|]. split.
    + simpl. now apply nth_error_None.
    + simpl. lia.
  - intros fuel. now apply endless_stream_is_refused.
Qed.

(** X29, witness: [{1, 2, 3}] from its second element. *)
Lemma endless_iterator_walks_the_range_witness :
  (exists final,
      serves (from_endless_iterator [1; 2; 3] 1) [2; 3] final /\
      eit_range final = [1; 2; 3] /\
      eit_upcoming final = 3%nat) /\
  (forall (s : EndlessIteratorStream Z) (fuel : nat),
      (length (eit_range s) <= eit_upcoming s)%nat ->
      exists s1, next fuel s = Some (true, s1) /\ front s1 = None /\
                 (length (eit_range s1) <= eit_upcoming s1)%nat) /\
  (forall fuel, guarded_builders_refuse fuel (from_endless_iterator [1; 2; 3] 1)).
Proof.
  exact (@endless_iterator_walks_the_range Z [1; 2; 3] 1%nat 2%nat (le_n 3)).
Defined.
